(** * Link checker of the documentation repository: embedding and properties

    The checker validates the cross-references of a tree of Markdown files,
    proposes fixes for broken ones and rewrites the sources.  This file embeds
    the functions of [scripts/checkers] that the properties below are about
    and proves (or refutes) each property on the embedding.

    Character model.  A JavaScript string is a sequence of UTF-16 code units.
    The embedding uses [string], whose characters are the 256 code units
    U+0000..U+00FF; [toLowerCase], [\s], [\w] and [trim] are the restrictions
    of the ECMAScript definitions to that range.

    Numbers.  Line numbers are [Z] (the code subtracts one and tests the sign);
    lengths, depths and edit distances are [nat]; the similarity score
    [1 - d / m] is an exact rational. *)

From Stdlib Require Import Ascii String ZArith QArith Lia Sorted Permutation DecimalString.
From stdpp Require Import base option list gmap strings.

(** ** JavaScript string primitives *)

Module Js.

(** [s.startsWith(p)] *)
Fixpoint startsWith (s p : string) {struct p} : bool :=
  match p with
  | EmptyString => true
  | String a p' =>
      match s with
      | EmptyString => false
      | String b s' => Ascii.eqb a b && startsWith s' p'
      end
  end.

(** [s.endsWith(p)]: some suffix of [s] is [p]. *)
Fixpoint endsWith (s p : string) {struct s} : bool :=
  String.eqb s p ||
  match s with
  | EmptyString => false
  | String _ s' => endsWith s' p
  end.

(** [s.includes(p)] *)
Fixpoint includes (s p : string) {struct s} : bool :=
  startsWith s p ||
  match s with
  | EmptyString => false
  | String _ s' => includes s' p
  end.

(** [s.indexOf(c)] for a one-character needle; [None] is JavaScript's -1. *)
Fixpoint indexOf (s : string) (c : ascii) : option nat :=
  match s with
  | EmptyString => None
  | String b s' => if Ascii.eqb b c then Some 0 else S <$> indexOf s' c
  end.

(** [s.substring(0, n)] and [s.substring(n)] *)
Fixpoint take (n : nat) (s : string) : string :=
  match n, s with
  | S n', String c s' => String c (take n' s')
  | _, _ => EmptyString
  end.

Fixpoint drop (n : nat) (s : string) : string :=
  match n, s with
  | S n', String _ s' => drop n' s'
  | _, _ => s
  end.

(** [s.split(c)] for a one-character separator: at least one piece. *)
Fixpoint split (c : ascii) (s : string) : list string :=
  match s with
  | EmptyString => [EmptyString]
  | String b s' =>
      if Ascii.eqb b c then EmptyString :: split c s'
      else match split c s' with
           | [] => [String b EmptyString]
           | piece :: pieces => String b piece :: pieces
           end
  end.

(** The line feed, as a string. *)
Definition newline : string := String "010" EmptyString.

(** [pieces.join(sep)] *)
Definition join (sep : string) (pieces : list string) : string :=
  String.concat sep pieces.

(** [s.replace(/^\//, '')] *)
Definition dropLeadingSlash (s : string) : string :=
  match s with
  | String "/" s' => s'
  | _ => s
  end.

(** [s.replace(/p$/, '')] for a literal [p]: the suffix [p] is removed when
    [s] ends with it, and [s] is returned unchanged otherwise. *)
Fixpoint dropSuffix (s p : string) {struct s} : string :=
  if String.eqb s p then EmptyString
  else match s with
       | EmptyString => EmptyString
       | String c s' => String c (dropSuffix s' p)
       end.

(** [s.replace(/^\.\//, '')] *)
Definition dropLeadingDotSlash (s : string) : string :=
  match s with
  | String "." (String "/" s') => s'
  | _ => s
  end.

(** [s.replace(/\\/g, '/')] *)
Fixpoint backslashesToSlashes (s : string) : string :=
  match s with
  | EmptyString => EmptyString
  | String c s' =>
      String (if Ascii.eqb c "\" then "/"%char else c) (backslashesToSlashes s')
  end.

(** Every character of [s] is [c]. *)
Fixpoint allChars (c : ascii) (s : string) : bool :=
  match s with
  | EmptyString => true
  | String b s' => Ascii.eqb b c && allChars c s'
  end.

(** [s.replace(/\/+$/, '')]: the trailing run of slashes is removed. *)
Fixpoint dropTrailingSlashes (s : string) : string :=
  match s with
  | EmptyString => EmptyString
  | String c s' => if allChars "/" s then EmptyString else String c (dropTrailingSlashes s')
  end.

(** [\s] on the code units below U+0100: TAB, LF, VT, FF, CR, SPACE, NBSP. *)
Definition isSpace (c : ascii) : bool :=
  match c with
  | "009" | "010" | "011" | "012" | "013" | " " | "160" => true
  | _ => false
  end%char.

(** [\w]: ASCII letters, digits and the underscore. *)
Definition isWord (c : ascii) : bool :=
  let n := nat_of_ascii c in
  ((48 <=? n) && (n <=? 57)) || ((65 <=? n) && (n <=? 90))
  || ((97 <=? n) && (n <=? 122)) || (n =? 95).

(** [c.toLowerCase()] on the code units below U+0100: A-Z and the accented
    capitals U+00C0..U+00DE (the multiplication sign U+00D7 apart). *)
Definition lowerChar (c : ascii) : ascii :=
  let n := nat_of_ascii c in
  if ((65 <=? n) && (n <=? 90))
     || ((192 <=? n) && (n <=? 222) && negb (n =? 215))
  then ascii_of_nat (n + 32) else c.

Fixpoint toLowerCase (s : string) : string :=
  match s with
  | EmptyString => EmptyString
  | String c s' => String (lowerChar c) (toLowerCase s')
  end.

Fixpoint trimStart (s : string) : string :=
  match s with
  | EmptyString => EmptyString
  | String c s' => if isSpace c then trimStart s' else s
  end.

Fixpoint allSpace (s : string) : bool :=
  match s with
  | EmptyString => true
  | String c s' => isSpace c && allSpace s'
  end.

Fixpoint trimEnd (s : string) : string :=
  match s with
  | EmptyString => EmptyString
  | String c s' => if allSpace s then EmptyString else String c (trimEnd s')
  end.

(** [s.trim()] *)
Definition trim (s : string) : string := trimEnd (trimStart s).

(** A JavaScript string used as a condition: only the empty one is falsy. *)
Definition truthy (s : string) : bool := negb (String.eqb s EmptyString).

End Js.

(** ** The file system

    Regular files by path, with their contents.  [fileExists] is true of
    regular files only (the code tests [isFile()]), [readFile] raises on a
    path that names no file. *)

Abbreviation FileSystem := (gmap string string).

Definition fileExists (fs : FileSystem) (filePath : string) : bool :=
  bool_decide (is_Some (fs !! filePath)).

(** ** The platform under the checker

    Node's [path] module, the global [decodeURIComponent] and the packages
    [glob] and [fastest-levenshtein] are not code of the repository.  The
    embedding takes them as an interface; the properties are proved for every
    implementation of it, and [posix] below is the instance on which concrete
    inputs are evaluated. *)

Class Platform := {
  path_join : list string -> string;
  path_dirname : string -> string;
  path_relative : string -> string -> string;
  path_extname : string -> string;
  (** [path.basename(p, suffix)]; the empty suffix is the call without one. *)
  path_basename : string -> string -> string;
  (** [None] stands for the [URIError] thrown on a malformed escape. *)
  decodeURIComponent : string -> option string;
  levenshtein : string -> string -> nat;
  (** [glob(pattern, { ignore, nodir: true })] on a state of the disk. *)
  glob : FileSystem -> string -> list string -> list string;
}.

Module Posix.

(** The segment stack of Node's [normalizeString]: empty and [.] segments
    are skipped, [..] pops a segment that is not itself [..] and is kept
    only where the path may climb above its start. *)
Definition pushSegment (allowAboveRoot : bool) (stack : list string) (seg : string)
  : list string :=
  if String.eqb seg "" || String.eqb seg "." then stack
  else if String.eqb seg ".." then
    match stack with
    | top :: below =>
        if String.eqb top ".." then
          (if allowAboveRoot then seg :: stack else stack)
        else below
    | [] => if allowAboveRoot then [seg] else []
    end
  else seg :: stack.

(** The stack is kept with its top first. *)
Definition segments (allowAboveRoot : bool) (p : string) : list string :=
  rev (fold_left (pushSegment allowAboveRoot) (Js.split "/" p) []).

(** [path.posix.normalize] *)
Definition normalize (p : string) : string :=
  if String.eqb p "" then "."
  else
    let isAbsolute := Js.startsWith p "/" in
    let trailingSeparator := Js.endsWith p "/" in
    let body := Js.join "/" (segments (negb isAbsolute) p) in
    if String.eqb body "" then
      (if isAbsolute then "/" else if trailingSeparator then "./" else ".")
    else
      let body := if trailingSeparator then body +:+ "/" else body in
      if isAbsolute then "/" +:+ body else body.

(** [path.posix.join] *)
Definition join (parts : list string) : string :=
  match filter (fun part => part <> "") parts with
  | [] => "."
  | used => normalize (Js.join "/" used)
  end.

(** The index of the last slash of the path at position one or later that
    is followed by a character other than a slash. *)
Fixpoint dirnameEnd (s : string) (i : nat) : option nat :=
  match s with
  | EmptyString => None
  | String c s' =>
      match dirnameEnd s' (S i) with
      | Some e => Some e
      | None =>
          if Ascii.eqb c "/" && negb (Js.allChars "/" s') && negb (i =? 0)
          then Some i else None
      end
  end.

(** [path.posix.dirname] *)
Definition dirname (p : string) : string :=
  if String.eqb p "" then "."
  else
    let hasRoot := Js.startsWith p "/" in
    match dirnameEnd p 0 with
    | None => if hasRoot then "/" else "."
    | Some e => if hasRoot && (e =? 1) then "//" else Js.take e p
    end.

Fixpoint dropCommon (a b : list string) : list string * list string :=
  match a, b with
  | x :: a', y :: b' => if String.eqb x y then dropCommon a' b' else (a, b)
  | _, _ => (a, b)
  end.

(** [path.posix.relative] for two paths that stay inside the working
    directory, where the result does not depend on that directory. *)
Definition relative (from to : string) : string :=
  let '(up, down) := dropCommon (segments true from) (segments true to) in
  Js.join "/" (map (fun _ => "..") up ++ down).

Fixpoint lastDot (s : string) (i : nat) : option nat :=
  match s with
  | EmptyString => None
  | String c s' =>
      match lastDot s' (S i) with
      | Some d => Some d
      | None => if Ascii.eqb c "." then Some i else None
      end
  end.

(** [path.posix.extname]: from the last dot of the last segment, unless that
    dot opens the segment or the segment is [..]. *)
Definition extname (p : string) : string :=
  match filter (fun seg => seg <> "") (rev (Js.split "/" p)) with
  | [] => ""
  | base :: _ =>
      if String.eqb base ".." then ""
      else match lastDot base 0 with
           | Some (S i) => Js.drop (S i) base
           | _ => ""
           end
  end.

(** [path.posix.basename]: the last segment, without the suffix when it
    ends with it and is longer. *)
Definition basename (p suffix : string) : string :=
  match filter (fun seg => seg <> "") (rev (Js.split "/" p)) with
  | [] => ""
  | base :: _ =>
      if Js.truthy suffix && Js.endsWith base suffix && negb (String.eqb base suffix)
      then Js.dropSuffix base suffix else base
  end.

(** A pattern [dir/**/*.ext]: the files below [dir] with that extension,
    in the order in which the map lists them, without those that an ignore
    pattern [**/name/**] or [**/name] excludes. *)
Definition ignored (path pattern : string) : bool :=
  let name := Js.dropSuffix (Js.drop 3 pattern) "/**" in
  if Js.endsWith pattern "/**"
  then existsb (String.eqb name) (removelast (Js.split "/" path))
  else String.eqb (List.last (Js.split "/" path) "") name.

Definition globFiles (fs : FileSystem) (pattern : string)
    (ignore : list string) : list string :=
  let dir := dirname (dirname pattern) in
  let ext := extname pattern in
  List.filter
    (fun path => Js.startsWith path (dir +:+ "/") && Js.endsWith path ext
                 && negb (existsb (ignored (Js.drop (String.length dir + 1) path)) ignore))
    (map fst (map_to_list fs)).

Definition hexDigit (c : ascii) : option nat :=
  let n := nat_of_ascii c in
  if (48 <=? n) && (n <=? 57) then Some (n - 48)
  else if (65 <=? n) && (n <=? 70) then Some (n - 55)
  else if (97 <=? n) && (n <=? 102) then Some (n - 87)
  else None.

(** [decodeURIComponent] on escapes of ASCII characters: a [%] that is not
    followed by two hexadecimal digits raises.  Escapes of other characters
    are outside the domain of this instance (it answers [None] there). *)
Fixpoint decodeAscii (s : string) : option string :=
  match s with
  | EmptyString => Some EmptyString
  | String "%" (String h (String l rest)) =>
      match hexDigit h, hexDigit l with
      | Some a, Some b =>
          if 16 * a + b <? 128
          then String (ascii_of_nat (16 * a + b)) <$> decodeAscii rest
          else None
      | _, _ => None
      end
  | String "%" _ => None
  | String c rest => String c <$> decodeAscii rest
  end.

Definition min3 (a b c : nat) : nat := Nat.min a (Nat.min b c).

(** One row of the Wagner-Fischer table: [prev] holds the distances from the
    prefix of the first string read so far to the prefixes of [b] of length
    one and more, [diag] and [left] the two entries before them. *)
Fixpoint nextRow (x : ascii) (b : string) (prev : list nat) (diag left : nat)
  : list nat :=
  match b, prev with
  | String y b', up :: prev' =>
      let cell := min3 (S up) (S left) (if Ascii.eqb x y then diag else S diag) in
      cell :: nextRow x b' prev' up cell
  | _, _ => []
  end.

Fixpoint rows (a b : string) (first : nat) (prev : list nat) : nat :=
  match a with
  | EmptyString => List.last prev first
  | String x a' => rows a' b (S first) (nextRow x b prev first (S first))
  end.

(** The Levenshtein distance between two strings of code units. *)
Definition distance (a b : string) : nat :=
  rows a b 0 (seq 1 (String.length b)).

End Posix.

Definition posix : Platform := {|
  path_join := Posix.join;
  path_dirname := Posix.dirname;
  path_relative := Posix.relative;
  path_extname := Posix.extname;
  path_basename := Posix.basename;
  decodeURIComponent := Posix.decodeAscii;
  levenshtein := Posix.distance;
  glob := Posix.globFiles;
|}.

(** ** Exceptions

    A JavaScript call either returns or throws.  Functions that can throw
    return a [Completion]; [tryCatch] is [try { body } catch { handler }]. *)

Inductive Completion (A : Type) : Type :=
| Normal (value : A)
| Throw (message : string).

Arguments Normal {A} value.
Arguments Throw {A} message.

Global Instance Completion_ret : MRet Completion := fun A a => Normal a.

Global Instance Completion_bind : MBind Completion := fun A B k c =>
  match c with
  | Normal a => k a
  | Throw e => Throw e
  end.

Definition tryCatch {A} (body handler : Completion A) : Completion A :=
  match body with
  | Normal a => Normal a
  | Throw _ => handler
  end.

Definition readFile (fs : FileSystem) (filePath : string) : Completion string :=
  match fs !! filePath with
  | Some content => Normal content
  | None => Throw ("ENOENT: no such file or directory, open '" +:+ filePath +:+ "'")
  end.

(** ** [Array.prototype.sort]

    The sort is stable.  [sortBy cmp] inserts each element before the first
    later element that the comparator does not put ahead of it; [cmp a b] is
    the sign test [comparator(a, b) <= 0]. *)

Section Sort.
Context {A : Type} (cmp : A -> A -> bool).

Fixpoint insertBy (x : A) (l : list A) : list A :=
  match l with
  | [] => [x]
  | y :: l' => if cmp x y then x :: l else y :: insertBy x l'
  end.

Fixpoint sortBy (l : list A) : list A :=
  match l with
  | [] => []
  | x :: l' => insertBy x (sortBy l')
  end.

End Sort.

(** ** Numbers *)

(** [(a, b) => b.score - a.score] is negative or zero when [a] scores at
    least as much as [b]. *)
Definition byScoreDescending (a b : string * Q) : bool := Qle_bool (snd b) (snd a).

(** The decimal text of an integer, as in a template literal. *)
Definition numberToString (n : Z) : string :=
  DecimalString.NilZero.string_of_int (Z.to_int n).

(** [score > 0.5] *)
Definition aboveHalf (score : Q) : bool := negb (Qle_bool score (1 # 2)).

(** ** Data model ([shared/types.ts], [link-checker/types.ts]) *)

Record RedirectEntry := {
  entry_from : string;
  entry_to : string;
  entry_line : Z;
}.

Record RedirectMap := {
  entries : list RedirectEntry;
  fromToMap : gmap string string;
  toFromMap : gmap string (list string);
}.

Record ResolvedPath := {
  resolved : string;
  exists_ : bool;
  original : string;
  resolved_anchor : option string;
}.

Inductive LinkType := internal | external | anchor_only | asset.

Record ParsedLink := {
  raw : string;
  text : string;
  target : string;
  anchor : option string;
  line : Z;
  column : Z;
  type : LinkType;
}.

Inductive ValidationStatus := valid | broken | redirect_available.

Record ValidationResult := {
  sourceFile : string;
  link : ParsedLink;
  status : ValidationStatus;
  resolvedPath : option string;
  error : option string;
}.

(** [BrokenLink] is a [ValidationResult] whose status is [broken]. *)
Abbreviation BrokenLink := ValidationResult.

Inductive FixConfidence := high | medium | low.

Record FixSuggestion := {
  confidence : FixConfidence;
  suggestedPath : string;
  reason : string;
  redirectEntry : option RedirectEntry;
}.

Record FixResult := {
  fix_sourceFile : string;
  originalLink : ParsedLink;
  newPath : string;
  success : bool;
  fix_error : option string;
  redirectAdded : bool;
}.

Record HeadingInfo := {
  heading_text : string;
  id : string;
  level : nat;
  heading_line : Z;
}.

Record FileHeadings := {
  headings_filePath : string;
  headings : list HeadingInfo;
}.

Global Instance LinkType_eq_dec : EqDecision LinkType.
Proof. solve_decision. Defined.

Global Instance ValidationStatus_eq_dec : EqDecision ValidationStatus.
Proof. solve_decision. Defined.

Global Instance FixConfidence_eq_dec : EqDecision FixConfidence.
Proof. solve_decision. Defined.

(** ** [shared/file-utils.ts] *)

Section FileUtils.
Context `{Platform}.

Definition normalizePath (inputPath : string) : string :=
  Js.dropLeadingDotSlash (Js.dropTrailingSlashes (Js.backslashesToSlashes inputPath)).

Definition joinPaths (segments : list string) : string :=
  Js.backslashesToSlashes (path_join segments).

Definition getDirectory (filePath : string) : string := path_dirname filePath.

Definition getBasename (filePath : string) (includeExt : bool) : string :=
  if includeExt then path_basename filePath ""
  else path_basename filePath (path_extname filePath).

Definition getAllFiles (fs : FileSystem) (rootDir : string)
    (extensions : list string) : list string :=
  map (path_relative rootDir)
      (flat_map
         (fun ext =>
            glob fs (path_join [rootDir; "**/*" +:+ ext])
                 [ "**/node_modules/**"; "**/_book/**"; "**/dist/**";
                   "**/.git/**"; "**/SUMMARY.md"; "**/README.md" ])
         extensions).

End FileUtils.

(** ** [shared/gitbook-yaml.ts]: lookup in the redirect table *)

Definition Map_has {V} (m : gmap string V) (k : string) : bool :=
  bool_decide (is_Some (m !! k)).

Definition findRedirectTarget (redirectMap : RedirectMap) (fromPath : string)
  : option string :=
  if Map_has (fromToMap redirectMap) fromPath then fromToMap redirectMap !! fromPath
  else
    let withoutSlash := Js.dropLeadingSlash fromPath in
    if Map_has (fromToMap redirectMap) withoutSlash
    then fromToMap redirectMap !! withoutSlash
    else
      let withoutMd := Js.dropSuffix fromPath ".md" in
      if Map_has (fromToMap redirectMap) withoutMd
      then fromToMap redirectMap !! withoutMd
      else
        let withoutBoth := Js.dropSuffix withoutSlash ".md" in
        if Map_has (fromToMap redirectMap) withoutBoth
        then fromToMap redirectMap !! withoutBoth
        else None.

(** ** [link-checker/fixers/redirect-finder.ts] *)

Section RedirectFinder.
Context `{Platform}.

(** The loop of [findRedirectSuggestion] over the variations. *)
Fixpoint firstRedirect (fs : FileSystem) (brokenPath : string)
    (redirectMap : RedirectMap) (projectRoot : string) (variations : list string)
  : option FixSuggestion :=
  match variations with
  | [] => None
  | variant :: rest =>
      match findRedirectTarget redirectMap variant with
      | Some redirectTarget =>
          if Js.truthy redirectTarget
             && fileExists fs (joinPaths [projectRoot; redirectTarget])
          then Some {|
            confidence := high;
            suggestedPath := redirectTarget;
            reason := "Redirect exists in .gitbook.yaml";
            redirectEntry :=
              List.find (fun e => String.eqb (entry_from e) variant
                                  || String.eqb (entry_from e) brokenPath)
                        (entries redirectMap);
          |}
          else firstRedirect fs brokenPath redirectMap projectRoot rest
      | None => firstRedirect fs brokenPath redirectMap projectRoot rest
      end
  end.

Definition variations (brokenPath : string) : list string :=
  [ brokenPath;
    Js.dropLeadingSlash brokenPath;
    Js.dropSuffix brokenPath ".md";
    Js.dropSuffix (Js.dropLeadingSlash brokenPath) ".md" ].

Definition findRedirectSuggestion (fs : FileSystem) (brokenPath : string)
    (redirectMap : RedirectMap) (projectRoot : string) : option FixSuggestion :=
  firstRedirect fs brokenPath redirectMap projectRoot (variations brokenPath).

(** The module keeps the list of all Markdown files in [allFilesCache];
    [None] is the empty cache.  The strategies of the lower tiers fill the
    cache when it is empty, so each takes the cache and returns it. *)
Definition FilesCache := option (list string).

(** [if (!allFilesCache) allFilesCache = await getAllFiles(projectRoot, ['.md'])] *)
Definition loadFiles (fs : FileSystem) (projectRoot : string)
    (allFilesCache : FilesCache) : list string :=
  match allFilesCache with
  | Some files => files
  | None => getAllFiles fs projectRoot [".md"]
  end.

(** [path.split('/').filter(Boolean)] *)
Definition pathSegments (path : string) : list string :=
  List.filter Js.truthy (Js.split "/" path).

Definition calculatePathSimilarity (path1 path2 : string) : Q :=
  let segments1 := pathSegments path1 in
  let segments2 := pathSegments path2 in
  let commonCount :=
    length (List.filter (fun seg => existsb (String.eqb seg) segments2) segments1) in
  let totalSegments := Nat.max (length segments1) (length segments2) in
  if 0 <? totalSegments then (Z.of_nat commonCount # Pos.of_nat totalSegments)%Q
  else 0%Q.

Definition Strategy :=
  string -> string -> FilesCache -> option FixSuggestion * FilesCache.

Definition findByBasename (fs : FileSystem) : Strategy :=
  fun brokenPath projectRoot allFilesCache =>
  let basename := getBasename brokenPath true in
  let allFiles := loadFiles fs projectRoot allFilesCache in
  let matches :=
    List.filter
      (fun f => String.eqb (Js.toLowerCase (getBasename f true))
                           (Js.toLowerCase basename))
      allFiles in
  (match matches with
   | [] => None
   | [only] =>
       Some {| confidence := medium; suggestedPath := only;
               reason := "File with same name found in different location";
               redirectEntry := None |}
   | _ =>
       let scored :=
         sortBy byScoreDescending
           (map (fun m => (m, calculatePathSimilarity brokenPath m)) matches) in
       match scored with
       | best :: _ =>
           if aboveHalf (snd best) then
             Some {| confidence := medium; suggestedPath := fst best;
                     reason := "Similar file found ("
                               +:+ numberToString (Z.of_nat (length matches))
                               +:+ " candidates, best match selected)";
                     redirectEntry := None |}
           else None
       | [] => None
       end
   end, Some allFiles).

(** [(a, b) => a.distance - b.distance] is negative or zero when [a] is at
    most as far as [b]. *)
Definition byDistanceAscending (a b : string * nat) : bool := snd a <=? snd b.

(** [Math.floor(brokenPath.length * 0.3)] is read as the integer part of
    three tenths of the length. *)
Definition findBySimilarity (fs : FileSystem) : Strategy :=
  fun brokenPath projectRoot allFilesCache =>
  let allFiles := loadFiles fs projectRoot allFilesCache in
  let maxDistance := Nat.min 10 (String.length brokenPath * 3 / 10) in
  let candidates :=
    List.filter (fun c => snd c <=? maxDistance)
      (map (fun filePath =>
              (filePath, levenshtein (Js.toLowerCase brokenPath)
                                     (Js.toLowerCase filePath)))
           allFiles) in
  (match sortBy byDistanceAscending candidates with
   | [] => None
   | best :: _ =>
       if snd best <=? 5 then
         Some {| confidence := if snd best <=? 2 then medium else low;
                 suggestedPath := fst best;
                 reason := "Similar path found (edit distance: "
                           +:+ numberToString (Z.of_nat (snd best)) +:+ ")";
                 redirectEntry := None |}
       else None
   end, Some allFiles).

Definition findByCaseVariation (fs : FileSystem) : Strategy :=
  fun brokenPath projectRoot allFilesCache =>
  let allFiles := loadFiles fs projectRoot allFilesCache in
  let lowerBroken := Js.toLowerCase brokenPath in
  (match List.find (fun f => String.eqb (Js.toLowerCase f) lowerBroken) allFiles with
   | Some found =>
       if Js.truthy found && negb (String.eqb found brokenPath) then
         Some {| confidence := low; suggestedPath := found;
                 reason := "Case variation of path exists";
                 redirectEntry := None |}
       else None
   | None => None
   end, Some allFiles).

(** The loop of [findNeighborReadme] over the three neighbours. *)
Fixpoint firstNeighbor (fs : FileSystem) (projectRoot sourceDir linkTarget : string)
    (neighborPaths : list (string * string)) : option FixSuggestion :=
  match neighborPaths with
  | [] => None
  | (relative, description) :: rest =>
      let resolvedTarget :=
        normalizePath (path_join [sourceDir; relative; "README.md"]) in
      let fullPath := joinPaths [projectRoot; resolvedTarget] in
      let suggestedLink := relative +:+ "README.md" in
      if fileExists fs fullPath
         && negb (String.eqb suggestedLink linkTarget)
         && negb (String.eqb suggestedLink (linkTarget +:+ "README.md"))
      then Some {| confidence := low; suggestedPath := resolvedTarget;
                   reason := "README.md found in " +:+ description;
                   redirectEntry := None |}
      else firstNeighbor fs projectRoot sourceDir linkTarget rest
  end.

Definition findNeighborReadme (fs : FileSystem) (b : BrokenLink)
    (projectRoot : string) : option FixSuggestion :=
  let linkTarget := target (link b) in
  let isDirectoryLink :=
    Js.endsWith linkTarget "/"
    || (Js.startsWith linkTarget "." && negb (Js.includes linkTarget ".md")) in
  if negb isDirectoryLink then None
  else
    firstNeighbor fs projectRoot (getDirectory (sourceFile b)) linkTarget
      [ ("./", "current directory");
        ("../", "parent directory");
        ("../../", "grandparent directory") ].

(** [broken.resolvedPath || broken.link.target] *)
Definition brokenPathOf (b : BrokenLink) : string :=
  match resolvedPath b with
  | Some p => if Js.truthy p then p else target (link b)
  | None => target (link b)
  end.

Definition findFixSuggestion (fs : FileSystem)
    (b : BrokenLink) (projectRoot : string) (redirectMap : RedirectMap)
    (allFilesCache : FilesCache) : option FixSuggestion * FilesCache :=
  let resolvedPath := brokenPathOf b in
  match findRedirectSuggestion fs resolvedPath redirectMap projectRoot with
  | Some redirectSuggestion => (Some redirectSuggestion, allFilesCache)
  | None =>
  match findByBasename fs resolvedPath projectRoot allFilesCache with
  | (Some basenameSuggestion, cache) => (Some basenameSuggestion, cache)
  | (None, cache) =>
  match findBySimilarity fs resolvedPath projectRoot cache with
  | (Some levenshteinSuggestion, cache) => (Some levenshteinSuggestion, cache)
  | (None, cache) =>
  match findByCaseVariation fs resolvedPath projectRoot cache with
  | (Some caseSuggestion, cache) => (Some caseSuggestion, cache)
  | (None, cache) =>
  match findNeighborReadme fs b projectRoot with
  | Some neighborSuggestion => (Some neighborSuggestion, cache)
  | None => (None, cache)
  end end end end end.

(** [findFixSuggestion] with any four functions in the place of the lower
    strategies, to state that its result does not depend on them. *)
Record LowerTiers := {
  basenameTier : Strategy;
  similarityTier : Strategy;
  caseVariationTier : Strategy;
  neighborReadmeTier : BrokenLink -> string -> option FixSuggestion;
}.

Definition findFixSuggestionWith (tiers : LowerTiers) (fs : FileSystem)
    (b : BrokenLink) (projectRoot : string) (redirectMap : RedirectMap)
    (allFilesCache : FilesCache) : option FixSuggestion * FilesCache :=
  let resolvedPath := brokenPathOf b in
  match findRedirectSuggestion fs resolvedPath redirectMap projectRoot with
  | Some redirectSuggestion => (Some redirectSuggestion, allFilesCache)
  | None =>
  match basenameTier tiers resolvedPath projectRoot allFilesCache with
  | (Some basenameSuggestion, cache) => (Some basenameSuggestion, cache)
  | (None, cache) =>
  match similarityTier tiers resolvedPath projectRoot cache with
  | (Some levenshteinSuggestion, cache) => (Some levenshteinSuggestion, cache)
  | (None, cache) =>
  match caseVariationTier tiers resolvedPath projectRoot cache with
  | (Some caseSuggestion, cache) => (Some caseSuggestion, cache)
  | (None, cache) =>
  match neighborReadmeTier tiers b projectRoot with
  | Some neighborSuggestion => (Some neighborSuggestion, cache)
  | None => (None, cache)
  end end end end end.

Definition sourceTiers (fs : FileSystem) : LowerTiers := {|
  basenameTier := findByBasename fs;
  similarityTier := findBySimilarity fs;
  caseVariationTier := findByCaseVariation fs;
  neighborReadmeTier := findNeighborReadme fs;
|}.

End RedirectFinder.

(** ** [shared/path-utils.ts] *)

Section PathUtils.
Context `{Platform}.

(** The value of [resolved] before the extension test of
    [resolveRelativeLink], for a target that is not empty. *)
Definition baseResolution (sourceFile target : string) : string :=
  let target := normalizePath target in
  let sourceDir := path_dirname sourceFile in
  let resolved :=
    if Js.startsWith target "/" then Js.drop 1 target
    else path_join [sourceDir; target] in
  normalizePath resolved.

(** The extension test and the two fallbacks. *)
Definition withFallbacks (fs : FileSystem) (projectRoot resolved : string) : string :=
  let fullPath := joinPaths [projectRoot; resolved] in
  if negb (Js.endsWith resolved ".md") && negb (Js.includes resolved ".") then
    let withMdPath := fullPath +:+ ".md" in
    if fileExists fs withMdPath then resolved +:+ ".md"
    else
      let readmePath := joinPaths [fullPath; "README.md"] in
      if fileExists fs readmePath then joinPaths [resolved; "README.md"]
      else resolved
  else resolved.

Definition resolveRelativeLink (fs : FileSystem)
    (sourceFile linkTarget projectRoot : string) : ResolvedPath :=
  let anchorIndex := Js.indexOf linkTarget "#" in
  let target :=
    match anchorIndex with
    | Some i => Js.take i linkTarget
    | None => linkTarget
    end in
  let anchor :=
    match anchorIndex with
    | Some i => Some (Js.drop (S i) linkTarget)
    | None => None
    end in
  if negb (Js.truthy target) then
    {| resolved := sourceFile;
       exists_ := fileExists fs (joinPaths [projectRoot; sourceFile]);
       original := linkTarget;
       resolved_anchor := anchor |}
  else
    let resolved := withFallbacks fs projectRoot (baseResolution sourceFile target) in
    {| resolved := resolved;
       exists_ := fileExists fs (joinPaths [projectRoot; resolved]);
       original := linkTarget;
       resolved_anchor := anchor |}.

(** [s.replace(/\\c/g, c)]: every backslash followed by [c] becomes [c]. *)
Fixpoint unescape (c : ascii) (s : string) : string :=
  match s with
  | EmptyString => EmptyString
  | String a rest =>
      match rest with
      | String b rest' =>
          if Ascii.eqb a "\" && Ascii.eqb b c then String c (unescape c rest')
          else String a (unescape c rest)
      | EmptyString => String a EmptyString
      end
  end.

Definition decodeLink (link : string) : Completion string :=
  tryCatch
    (match decodeURIComponent link with
     | Some decoded => Normal decoded
     | None => Throw "URIError: URI malformed"
     end)
    (Normal link).

Definition cleanLinkPath (link : string) : Completion string :=
  decoded ← decodeLink link;
  Normal (unescape " " (unescape "#" (unescape "_" decoded))).

End PathUtils.

(** ** [link-checker/validators/link-validator.ts] *)

Section LinkValidator.
Context `{Platform}.

Definition validateLink (fs : FileSystem) (sourceFile : string) (link : ParsedLink)
    (projectRoot : string) (redirectMap : option RedirectMap) : ValidationResult :=
  if decide (type link = external) then
    {| sourceFile := sourceFile; link := link; status := valid;
       resolvedPath := Some (target link); error := None |}
  else if decide (type link = anchor_only) then
    {| sourceFile := sourceFile; link := link; status := valid;
       resolvedPath := Some sourceFile; error := None |}
  else
    let resolution := resolveRelativeLink fs sourceFile (target link) projectRoot in
    let brokenResult :=
      {| sourceFile := sourceFile; link := link; status := broken;
         resolvedPath := Some (resolved resolution);
         error := Some ("Target not found: " +:+ resolved resolution) |} in
    if exists_ resolution then
      {| sourceFile := sourceFile; link := link; status := valid;
         resolvedPath := Some (resolved resolution); error := None |}
    else
      match redirectMap with
      | Some redirectMap =>
          match findRedirectTarget redirectMap (resolved resolution) with
          | Some redirectTarget =>
              if Js.truthy redirectTarget
                 && fileExists fs (joinPaths [projectRoot; redirectTarget])
              then
                {| sourceFile := sourceFile; link := link;
                   status := redirect_available;
                   resolvedPath := Some (resolved resolution);
                   error := Some ("Target not found: " +:+ resolved resolution
                                  +:+ ". Redirect available to: " +:+ redirectTarget) |}
              else brokenResult
          | None => brokenResult
          end
      | None => brokenResult
      end.

End LinkValidator.

(** ** [link-checker/parsers/markdown.ts]: headings and anchor ids *)

(** [s.replace(/[^\w\s-]/g, '')] *)
Fixpoint keepSlugChars (s : string) : string :=
  match s with
  | EmptyString => EmptyString
  | String c s' =>
      if Js.isWord c || Js.isSpace c || Ascii.eqb c "-"
      then String c (keepSlugChars s') else keepSlugChars s'
  end.

(** [s.replace(/C+/g, r)] for a character class [C]: each maximal run of
    characters of the class becomes the single character [r]. *)
Fixpoint collapseRuns (inClass : ascii -> bool) (r : ascii) (s : string) : string :=
  match s with
  | EmptyString => EmptyString
  | String c s' =>
      if inClass c then
        match s' with
        | String d _ =>
            if inClass d then collapseRuns inClass r s'
            else String r (collapseRuns inClass r s')
        | EmptyString => String r EmptyString
        end
      else String c (collapseRuns inClass r s')
  end.

(** [s.replace(/^-|-$/g, '')] *)
Definition trimHyphens (s : string) : string :=
  let s := match s with String "-" s' => s' | _ => s end in
  Js.dropSuffix s "-".

Definition generateAnchorId (text : string) : string :=
  trimHyphens
    (collapseRuns (Ascii.eqb "-") "-"
       (collapseRuns Js.isSpace "-"
          (keepSlugChars (Js.toLowerCase text)))).

(** [/^```|^~~~/.test(line.trim())] *)
Definition isFence (line : string) : bool :=
  Js.startsWith (Js.trim line) "```" || Js.startsWith (Js.trim line) "~~~".

Fixpoint codeBlockStateFrom (inBlock : bool) (lines : list string) : list bool :=
  match lines with
  | [] => []
  | line :: rest =>
      let inBlock := if isFence line then negb inBlock else inBlock in
      inBlock :: codeBlockStateFrom inBlock rest
  end.

Definition computeCodeBlockState (lines : list string) : list bool :=
  codeBlockStateFrom false lines.

Fixpoint countLeading (c : ascii) (s : string) : nat :=
  match s with
  | String b s' => if Ascii.eqb b c then S (countLeading c s') else 0
  | EmptyString => 0
  end.

Fixpoint countLeadingSpace (s : string) : nat :=
  match s with
  | String b s' => if Js.isSpace b then S (countLeadingSpace s') else 0
  | EmptyString => 0
  end.

(** The characters that [.] does not match: LF and CR. *)
Definition isLineTerminator (c : ascii) : bool :=
  Ascii.eqb c "010" || Ascii.eqb c "013".

Fixpoint noLineTerminator (s : string) : bool :=
  match s with
  | EmptyString => true
  | String c s' => negb (isLineTerminator c) && noLineTerminator s'
  end.

(** [/^(#{1,6})\s+(.+)$/.exec(line)]: the number of hashes and the text.
    When only white space follows the hashes, [\s+] gives its last
    character back to [.+]. *)
Definition matchAtxHeading (line : string) : option (nat * string) :=
  let hashes := countLeading "#" line in
  let afterHashes := Js.drop hashes line in
  let spaces := countLeadingSpace afterHashes in
  let rawText := Js.drop spaces afterHashes in
  if (1 <=? hashes) && (hashes <=? 6) && (1 <=? spaces) then
    if String.eqb rawText "" then
      let lastSpace := Js.drop (spaces - 1) afterHashes in
      if (2 <=? spaces) && noLineTerminator lastSpace
      then Some (hashes, lastSpace) else None
    else if noLineTerminator rawText then Some (hashes, rawText)
    else None
  else None.

(** [s] read after an opening brace and hash: the explicit id when [s] is
    one or more characters other than a closing brace, then a closing brace,
    then white space to the end. *)
Fixpoint customIdBody (s : string) : option string :=
  match s with
  | EmptyString => None
  | String c s' =>
      if Ascii.eqb c "}" then None
      else match s' with
           | String "}" tail =>
               if Js.allSpace tail then Some (String c EmptyString) else None
           | _ => String c <$> customIdBody s'
           end
  end.

(** [/\{#([^}]+)\}\s*$/.exec(text)]: the index of the leftmost match and
    the captured id. *)
Fixpoint matchCustomAnchor (text : string) (i : nat) : option (nat * string) :=
  match text with
  | EmptyString => None
  | String c rest =>
      match (if Ascii.eqb c "{" then
               match rest with
               | String "#" body => customIdBody body
               | _ => None
               end
             else None) with
      | Some customId => Some (i, customId)
      | None => matchCustomAnchor rest (S i)
      end
  end.

Fixpoint headingsFrom (lines : list string) (state : list bool) (lineNumber : Z)
  : list HeadingInfo :=
  match lines, state with
  | line :: lines', inBlock :: state' =>
      let rest := headingsFrom lines' state' (lineNumber + 1) in
      if inBlock then rest
      else match matchAtxHeading line with
           | Some (hashes, rawText) =>
               let text := Js.trim rawText in
               match matchCustomAnchor text 0 with
               | Some (start, customId) =>
                   {| heading_text := Js.trim (Js.take start text);
                      id := customId; level := hashes;
                      heading_line := lineNumber |} :: rest
               | None =>
                   {| heading_text := text; id := generateAnchorId text;
                      level := hashes; heading_line := lineNumber |} :: rest
               end
           | None => rest
           end
  | _, _ => []
  end.

Definition parseMarkdownHeadings (filePath content : string) : FileHeadings :=
  let lines := Js.split "010" content in
  {| headings_filePath := filePath;
     headings := headingsFrom lines (computeCodeBlockState lines) 1 |}.

(** ** [link-checker/validators/anchor-validator.ts] *)

Record AnchorValidation := {
  anchor_valid : bool;
  anchor_error : option string;
  suggestions : option (list string);
}.

Section AnchorValidator.
Context `{Platform}.

(** The module-level [headingsCache], keyed by file path. *)
Definition HeadingsCache := gmap string FileHeadings.

Definition getFileHeadings (fs : FileSystem) (headingsCache : HeadingsCache)
    (filePath projectRoot : string)
  : Completion (option FileHeadings) * HeadingsCache :=
  let fullPath := joinPaths [projectRoot; filePath] in
  if negb (fileExists fs fullPath) then (Normal None, headingsCache)
  else
    match headingsCache !! filePath with
    | Some cached => (Normal (Some cached), headingsCache)
    | None =>
        match readFile fs fullPath with
        | Normal content =>
            let parsed := parseMarkdownHeadings filePath content in
            (Normal (Some parsed), <[filePath := parsed]> headingsCache)
        | Throw e => (Throw e, headingsCache)
        end
    end.

Definition calculateSimilarity (a b : string) : Q :=
  let aLower := Js.toLowerCase a in
  let bLower := Js.toLowerCase b in
  let maxLen := Nat.max (String.length aLower) (String.length bLower) in
  if maxLen =? 0 then 1%Q
  else (1 - (Z.of_nat (levenshtein aLower bLower) # Pos.of_nat maxLen))%Q.

Definition findSimilarAnchors (targetAnchor : string) (headings : list HeadingInfo)
  : list string :=
  let scored := map (fun heading => (id heading, calculateSimilarity targetAnchor (id heading)))
                    headings in
  let kept := List.filter (fun s => aboveHalf (snd s)) scored in
  map fst (firstn 3 (sortBy byScoreDescending kept)).

Definition validateAnchor (fs : FileSystem) (headingsCache : HeadingsCache)
    (targetFile anchor projectRoot : string)
  : Completion AnchorValidation * HeadingsCache :=
  match getFileHeadings fs headingsCache targetFile projectRoot with
  | (Throw e, cache) => (Throw e, cache)
  | (Normal None, cache) =>
      (Normal {| anchor_valid := false;
                 anchor_error := Some ("Target file not found: " +:+ targetFile);
                 suggestions := None |}, cache)
  | (Normal (Some fileHeadings), cache) =>
      let normalizedAnchor := Js.toLowerCase anchor in
      if existsb (fun h => String.eqb (id h) normalizedAnchor) (headings fileHeadings)
      then (Normal {| anchor_valid := true; anchor_error := None;
                      suggestions := None |}, cache)
      else if existsb (fun h => String.eqb (Js.toLowerCase (id h)) normalizedAnchor)
                      (headings fileHeadings)
      then (Normal {| anchor_valid := true; anchor_error := None;
                      suggestions := None |}, cache)
      else
        let similar := findSimilarAnchors normalizedAnchor (headings fileHeadings) in
        (Normal {| anchor_valid := false;
                   anchor_error := Some ("Anchor not found: #" +:+ anchor
                                         +:+ " in " +:+ targetFile);
                   suggestions := match similar with
                                  | [] => None
                                  | _ => Some similar
                                  end |}, cache)
  end.

End AnchorValidator.

(** ** [link-checker/parsers/summary.ts]

    The parser builds the forest by mutation: an entry sits in [entries] or
    in the [children] array of its parent and, at the same time, on
    [parentStack], and children are pushed to it through the stack.  The
    embedding keeps the entries in a store, in the order of their creation,
    and writes a reference to an entry as its index in the store. *)

Abbreviation Ref := nat.

Record SummaryEntry := {
  title : string;
  path : string;
  summary_line : Z;
  depth : nat;
  children : list Ref;
}.

Record SummaryStructure := {
  store : list SummaryEntry;
  summary_entries : list Ref;
  allPaths : list string;
}.

(** [s] up to the first [stop], which must come after at least one
    character, and the rest after it. *)
Fixpoint untilChar (stop : ascii) (s : string) : option (string * string) :=
  match s with
  | EmptyString => None
  | String c s' =>
      if Ascii.eqb c stop then None
      else match s' with
           | String d rest =>
               if Ascii.eqb d stop then Some (String c EmptyString, rest)
               else match untilChar stop s' with
                    | Some (body, rest) => Some (String c body, rest)
                    | None => None
                    end
           | EmptyString => None
           end
  end.

(** [entryRegex.exec(line)]: white space (the indentation), a star or a
    hyphen, white space, the title between square brackets and the raw path
    between parentheses; the three captures are returned. *)
Definition matchEntry (line : string) : option (string * string * string) :=
  let indent := countLeadingSpace line in
  match Js.drop indent line with
  | String bullet afterBullet =>
      if Ascii.eqb bullet "*" || Ascii.eqb bullet "-" then
        let gap := countLeadingSpace afterBullet in
        if 1 <=? gap then
          match Js.drop gap afterBullet with
          | String "[" afterOpen =>
              match untilChar "]" afterOpen with
              | Some (title, String "(" afterParen) =>
                  match untilChar ")" afterParen with
                  | Some (rawPath, _) => Some (Js.take indent line, title, rawPath)
                  | None => None
                  end
              | _ => None
              end
          | _ => None
          end
        else None
      else None
  | EmptyString => None
  end.

Record ParserState := {
  st_store : list SummaryEntry;
  st_entries : list Ref;
  st_allPaths : list string;
  (** the top of the stack is the head of the list *)
  st_parentStack : list Ref;
}.

Definition depthAt (entries : list SummaryEntry) (r : Ref) : nat :=
  match entries !! r with
  | Some e => depth e
  | None => 0
  end.

(** [while (parentStack.length > 0 && top.depth >= depth) parentStack.pop()] *)
Fixpoint popDeeper (entries : list SummaryEntry) (d : nat) (stack : list Ref)
  : list Ref :=
  match stack with
  | [] => []
  | top :: below =>
      if d <=? depthAt entries top then popDeeper entries d below else stack
  end.

(** [parent.children.push(child)] on the entry that [parent] refers to. *)
Definition pushChild (entries : list SummaryEntry) (parent child : Ref)
  : list SummaryEntry :=
  match entries !! parent with
  | Some e =>
      <[parent := {| title := title e; path := path e;
                     summary_line := summary_line e; depth := depth e;
                     children := children e ++ [child] |}]> entries
  | None => entries
  end.

(** The body of the loop for a line that matched, with its cleaned path. *)
Definition addEntry (st : ParserState) (lineNumber : Z)
    (indent title path : string) : ParserState :=
  let depth := String.length indent / 2 in
  let entry := {| title := Js.trim title; path := path;
                  summary_line := lineNumber; depth := depth;
                  children := [] |} in
  let ref : Ref := length (st_store st) in
  let entries := st_store st ++ [entry] in
  if depth =? 0 then
    {| st_store := entries;
       st_entries := st_entries st ++ [ref];
       st_allPaths := st_allPaths st ++ [path];
       st_parentStack := [ref] |}
  else
    let stack := popDeeper entries depth (st_parentStack st) in
    match stack with
    | top :: _ =>
        {| st_store := pushChild entries top ref;
           st_entries := st_entries st;
           st_allPaths := st_allPaths st ++ [path];
           st_parentStack := ref :: stack |}
    | [] =>
        {| st_store := entries;
           st_entries := st_entries st ++ [ref];
           st_allPaths := st_allPaths st ++ [path];
           st_parentStack := ref :: stack |}
    end.

Section SummaryParser.
Context `{Platform}.

Fixpoint parseLines (lines : list string) (lineNumber : Z) (st : ParserState)
  : Completion ParserState :=
  match lines with
  | [] => Normal st
  | line :: rest =>
      match matchEntry line with
      | None => parseLines rest (lineNumber + 1) st
      | Some (indent, title, rawPath) =>
          path ← cleanLinkPath (Js.trim rawPath);
          parseLines rest (lineNumber + 1) (addEntry st lineNumber indent title path)
      end
  end.

Definition parseSummary (fs : FileSystem) (summaryPath : string)
  : Completion SummaryStructure :=
  content ← readFile fs summaryPath;
  st ← parseLines (Js.split "010" content) 1
         {| st_store := []; st_entries := []; st_allPaths := [];
            st_parentStack := [] |};
  Normal {| store := st_store st; summary_entries := st_entries st;
            allPaths := st_allPaths st |}.

End SummaryParser.

(** ** [shared/gitbook-yaml.ts]: appending to the redirect table *)

Definition writeFile (fs : FileSystem) (filePath content : string) : FileSystem :=
  <[filePath := content]> fs.

(** [/^\s{2}\S/.test(line)] *)
Definition isRedirectLine (line : string) : bool :=
  match line with
  | String a (String b (String c _)) =>
      Js.isSpace a && Js.isSpace b && negb (Js.isSpace c)
  | _ => false
  end.

(** [/^\S/.test(line)] *)
Definition startsUnindented (line : string) : bool :=
  match line with
  | String a _ => negb (Js.isSpace a)
  | EmptyString => false
  end.

(** The scan of [addRedirects]: the index of the last [redirects:] line
    seen and of the last entry line after it, until the loop breaks. *)
Fixpoint scanRedirects (lines : list string) (i : nat)
    (redirectsLineIndex lastRedirectIndex : option nat)
  : option nat * option nat :=
  match lines with
  | [] => (redirectsLineIndex, lastRedirectIndex)
  | line :: rest =>
      let redirectsLineIndex :=
        if String.eqb (Js.trim line) "redirects:" then Some i
        else redirectsLineIndex in
      match redirectsLineIndex with
      | Some r =>
          if r <? i then
            if isRedirectLine line
            then scanRedirects rest (S i) redirectsLineIndex (Some i)
            else if startsUnindented line && Js.truthy (Js.trim line)
            then (redirectsLineIndex, lastRedirectIndex)
            else scanRedirects rest (S i) redirectsLineIndex lastRedirectIndex
          else scanRedirects rest (S i) redirectsLineIndex lastRedirectIndex
      | None => scanRedirects rest (S i) redirectsLineIndex lastRedirectIndex
      end
  end.

(** [lines.splice(at, 0, ...added)] *)
Definition spliceIn (lines : list string) (at_ : nat) (added : list string)
  : list string :=
  firstn at_ lines ++ added ++ skipn at_ lines.

Definition addRedirects (fs : FileSystem) (yamlPath : string)
    (redirects : list (string * string)) : Completion unit * FileSystem :=
  match redirects with
  | [] => (Normal tt, fs)
  | _ =>
      match readFile fs yamlPath with
      | Throw e => (Throw e, fs)
      | Normal content =>
          let lines := Js.split "010" content in
          let newRedirectLines :=
            map (fun r => "  " +:+ fst r +:+ ": " +:+ snd r) redirects in
          let lines :=
            match scanRedirects lines 0 None None with
            | (None, _) => lines ++ [""; "redirects:"] ++ newRedirectLines
            | (Some _, Some lastRedirectIndex) =>
                spliceIn lines (lastRedirectIndex + 1) newRedirectLines
            | (Some redirectsLineIndex, None) =>
                spliceIn lines (redirectsLineIndex + 1) newRedirectLines
            end in
          (Normal tt, writeFile fs yamlPath (Js.join Js.newline lines))
      end
  end.

(** ** [link-checker/fixers/link-fixer.ts] *)

(** The rest of [s] after the prefix [p]. *)
Fixpoint stripPrefix (p s : string) : option string :=
  match p with
  | EmptyString => Some s
  | String a p' =>
      match s with
      | String b s' => if Ascii.eqb a b then stripPrefix p' s' else None
      | EmptyString => None
      end
  end.

(** The end of the pattern: an optional [>] and the closing parenthesis. *)
Definition matchClosing (s : string) : option string :=
  match s with
  | String ">" (String ")" rest) => Some rest
  | String ")" rest => Some rest
  | _ => None
  end.

(** The pattern of [buildLinkReplacementPattern] tried at the start of [s]:
    the closing bracket and opening parenthesis, an optional [<], the
    escaped target and anchor (which match themselves), the closing.  The
    result is what follows the match. *)
Definition matchLinkPattern (literal s : string) : option string :=
  match stripPrefix "](" s with
  | Some afterOpen =>
      let withAngle :=
        match afterOpen with
        | String "<" afterAngle =>
            match stripPrefix literal afterAngle with
            | Some tail => matchClosing tail
            | None => None
            end
        | _ => None
        end in
      match withAngle with
      | Some rest => Some rest
      | None =>
          match stripPrefix literal afterOpen with
          | Some tail => matchClosing tail
          | None => None
          end
      end
  | None => None
  end.

(** The replacement text of [String.prototype.replace] for a pattern
    without capture groups: [$$] is a dollar, [$&] the match, and a dollar
    followed by a backquote or a quote the text before or after the match. *)
Fixpoint getSubstitution (matched before after replacement : string) : string :=
  match replacement with
  | EmptyString => EmptyString
  | String c rest =>
      if Ascii.eqb c "$" then
        match rest with
        | String "$" rest' => String "$" (getSubstitution matched before after rest')
        | String "&" rest' => matched +:+ getSubstitution matched before after rest'
        | String "`" rest' => before +:+ getSubstitution matched before after rest'
        | String "'" rest' => after +:+ getSubstitution matched before after rest'
        | _ => String c (getSubstitution matched before after rest)
        end
      else String c (getSubstitution matched before after rest)
  end.

(** [line.replace(pattern, replacement)] with the global flag, read at the
    suffix [s] of the line that follows [before]; [skip] counts the
    characters of [s] that belong to the match just replaced. *)
Fixpoint replaceFrom (literal replacement before s : string) (skip : nat) : string :=
  match s with
  | EmptyString => EmptyString
  | String c s' =>
      match skip with
      | S skip' =>
          replaceFrom literal replacement (before +:+ String c EmptyString) s' skip'
      | O =>
          match matchLinkPattern literal s with
          | Some after =>
              let size := String.length s - String.length after in
              getSubstitution (Js.take size s) before after replacement
              +:+ replaceFrom literal replacement
                    (before +:+ String c EmptyString) s' (size - 1)
          | None =>
              String c (replaceFrom literal replacement
                          (before +:+ String c EmptyString) s' 0)
          end
      end
  end.

Definition linkLiteral (link : ParsedLink) : string :=
  target link +:+
  match anchor link with
  | Some a => if Js.truthy a then "#" +:+ a else ""
  | None => ""
  end.

Definition replaceLink (line : string) (link : ParsedLink) (newTarget : string)
  : option string :=
  let replacement := "](" +:+ newTarget +:+ ")" in
  let newLine := replaceFrom (linkLiteral link) replacement "" line 0 in
  if String.eqb newLine line then None else Some newLine.

Record Fix := {
  fix_broken : BrokenLink;
  fix_suggestion : FixSuggestion;
}.

(** [fixesByFile]: the fixes of each source file, files in the order of
    their first fix, fixes in their order in the batch. *)
Fixpoint groupByFile (fixes : list Fix) (groups : list (string * list Fix))
  : list (string * list Fix) :=
  match fixes with
  | [] => groups
  | fix_ :: rest =>
      let file := sourceFile (fix_broken fix_) in
      let groups :=
        if existsb (fun g => String.eqb (fst g) file) groups
        then map (fun g => if String.eqb (fst g) file
                           then (fst g, snd g ++ [fix_]) else g) groups
        else groups ++ [(file, [fix_])] in
      groupByFile rest groups
  end.

(** [(a, b) => b.broken.link.line - a.broken.link.line] is negative or zero
    when the line of [a] is at least the line of [b]. *)
Definition byLineDescending (a b : Fix) : bool :=
  (line (link (fix_broken b)) <=? line (link (fix_broken a)))%Z.

Section LinkFixer.
Context `{Platform}.

Definition toRelativeLink (sourceFile targetPath : string) : string :=
  let sourceDir := path_dirname sourceFile in
  let relative := Js.backslashesToSlashes (path_relative sourceDir targetPath) in
  if negb (Js.startsWith relative ".") && negb (Js.startsWith relative "/")
  then "./" +:+ relative else relative.

Definition failed (b : BrokenLink) (s : FixSuggestion) (message : string) : FixResult :=
  {| fix_sourceFile := sourceFile b; originalLink := link b;
     newPath := suggestedPath s; success := false;
     fix_error := Some message; redirectAdded := false |}.

(** The new target of a fix: the relative path to the suggested file,
    with the anchor of the link when it has one. *)
Definition newTargetFor (b : BrokenLink) (s : FixSuggestion) : string :=
  let newRelativePath := toRelativeLink (sourceFile b) (suggestedPath s) in
  match anchor (link b) with
  | Some a => if Js.truthy a then newRelativePath +:+ "#" +:+ a
              else newRelativePath
  | None => newRelativePath
  end.


(** The inner loop of [applyFixes] over the fixes of one file. *)
Fixpoint applyFileFixes (fileFixes : list Fix) (lines : list string)
  : list FixResult * list string :=
  match fileFixes with
  | [] => ([], lines)
  | {| fix_broken := b; fix_suggestion := s |} :: rest =>
      let lineIndex := (line (link b) - 1)%Z in
      if (lineIndex <? 0)%Z || (Z.of_nat (length lines) <=? lineIndex)%Z then
        let '(results, lines) := applyFileFixes rest lines in
        (failed b s ("Line " +:+ numberToString (line (link b))
                     +:+ " not found in file") :: results, lines)
      else
        let current := default "" (lines !! Z.to_nat lineIndex) in
        let newTarget := newTargetFor b s in
        match replaceLink current (link b) newTarget with
        | Some updatedLine =>
            if Js.truthy updatedLine then
              let '(results, lines) :=
                applyFileFixes rest (<[Z.to_nat lineIndex := updatedLine]> lines) in
              ({| fix_sourceFile := sourceFile b; originalLink := link b;
                  newPath := suggestedPath s; success := true;
                  fix_error := None; redirectAdded := false |} :: results, lines)
            else
              let '(results, lines) := applyFileFixes rest lines in
              (failed b s "Could not find link to replace" :: results, lines)
        | None =>
            let '(results, lines) := applyFileFixes rest lines in
            (failed b s "Could not find link to replace" :: results, lines)
        end
  end.

(** The outer loop of [applyFixes] over the files; a file that cannot be
    read ends the call with the exception, after the earlier files were
    written. *)
Fixpoint applyGroups (fs : FileSystem) (projectRoot : string)
    (groups : list (string * list Fix)) : Completion (list FixResult) * FileSystem :=
  match groups with
  | [] => (Normal [], fs)
  | (sourceFile, fileFixes) :: rest =>
      let fileFixes := sortBy byLineDescending fileFixes in
      let filePath := joinPaths [projectRoot; sourceFile] in
      match readFile fs filePath with
      | Throw e => (Throw e, fs)
      | Normal content =>
          let '(results, lines) := applyFileFixes fileFixes (Js.split "010" content) in
          let fs := writeFile fs filePath (Js.join Js.newline lines) in
          match applyGroups fs projectRoot rest with
          | (Normal later, fs) => (Normal (results ++ later), fs)
          | (Throw e, fs) => (Throw e, fs)
          end
      end
  end.

Definition applyFixes (fs : FileSystem) (fixes : list Fix) (projectRoot : string)
  : Completion (list FixResult) * FileSystem :=
  applyGroups fs projectRoot (groupByFile fixes []).

Fixpoint redirectEntriesFrom (fixResults : list FixResult)
    (redirects : list (string * string)) : list (string * string) :=
  match fixResults with
  | [] => redirects
  | result :: rest =>
      if success result then
        let brokenResolved := target (originalLink result) in
        let from := Js.dropSuffix (Js.dropLeadingDotSlash brokenResolved) ".md" in
        if Js.includes from ".." then redirectEntriesFrom rest redirects
        else
          let to := newPath result in
          if existsb (fun r => String.eqb (fst r) from && String.eqb (snd r) to)
                     redirects
          then redirectEntriesFrom rest redirects
          else redirectEntriesFrom rest (redirects ++ [(from, to)])
      else redirectEntriesFrom rest redirects
  end.

Definition generateRedirectEntries (fixResults : list FixResult)
  : list (string * string) :=
  redirectEntriesFrom fixResults [].

Definition applyRedirects (fs : FileSystem) (gitbookYamlPath : string)
    (redirects : list (string * string)) : Completion unit * FileSystem :=
  match redirects with
  | [] => (Normal tt, fs)
  | _ => addRedirects fs gitbookYamlPath redirects
  end.

(** [result.redirectAdded = true] on a result that succeeded. *)
Definition markRedirectAdded (result : FixResult) : FixResult :=
  if success result then
    {| fix_sourceFile := fix_sourceFile result;
       originalLink := originalLink result; newPath := newPath result;
       success := success result; fix_error := fix_error result;
       redirectAdded := true |}
  else result.

Definition applyFixesWithRedirects (fs : FileSystem) (fixes : list Fix)
    (projectRoot gitbookYamlPath : string) (addRedirectsFlag : bool)
  : Completion (list FixResult * nat) * FileSystem :=
  match applyFixes fs fixes projectRoot with
  | (Throw e, fs) => (Throw e, fs)
  | (Normal fixResults, fs) =>
      if addRedirectsFlag then
        let redirects := generateRedirectEntries fixResults in
        if 0 <? length redirects then
          match applyRedirects fs gitbookYamlPath redirects with
          | (Throw e, fs) => (Throw e, fs)
          | (Normal _, fs) =>
              (Normal (map markRedirectAdded fixResults, length redirects), fs)
          end
        else (Normal (fixResults, 0), fs)
      else (Normal (fixResults, 0), fs)
  end.

End LinkFixer.

(** ** [link-checker/validators/link-validator.ts]: batches and statistics *)

Record FileLinks := {
  links_filePath : string;
  links : list ParsedLink;
}.

Record ValidationStats := {
  stats_total : nat;
  stats_valid : nat;
  stats_broken : nat;
  stats_redirectAvailable : nat;
  stats_filesAffected : nat;
}.

Definition hasStatus (s : ValidationStatus) (r : ValidationResult) : bool :=
  bool_decide (status r = s).

Section LinkValidatorBatches.
Context `{Platform}.

Definition validateFileLinks (fs : FileSystem) (fileLinks : FileLinks)
    (projectRoot : string) (redirectMap : option RedirectMap) : list ValidationResult :=
  map (fun link => validateLink fs (links_filePath fileLinks) link projectRoot redirectMap)
      (links fileLinks).

(** The loop pushes the results of each file onto [results]. *)
Definition validateAllLinks (fs : FileSystem) (allFileLinks : list FileLinks)
    (projectRoot : string) (redirectMap : option RedirectMap) : list ValidationResult :=
  fold_left
    (fun results fileLinks =>
       results ++ validateFileLinks fs fileLinks projectRoot redirectMap)
    allFileLinks [].

Definition pathExists (fs : FileSystem) (targetPath projectRoot : string) : bool :=
  fileExists fs (joinPaths [projectRoot; targetPath]).

End LinkValidatorBatches.

(** [r.status !== 'valid'] *)
Definition hasIssue (r : ValidationResult) : bool := negb (hasStatus valid r).

Definition getBrokenLinks (results : list ValidationResult) : list BrokenLink :=
  List.filter (hasStatus broken) results.

(** [filesWithIssues] is a [Set] of source files; only its size is read. *)
Definition getValidationStats (results : list ValidationResult) : ValidationStats :=
  let broken := length (List.filter (hasStatus broken) results) in
  let redirectAvailable := length (List.filter (hasStatus redirect_available) results) in
  let valid := length (List.filter (hasStatus valid) results) in
  let filesWithIssues : gset string :=
    list_to_set (map sourceFile (List.filter hasIssue results)) in
  {| stats_total := length results; stats_valid := valid; stats_broken := broken;
     stats_redirectAvailable := redirectAvailable;
     stats_filesAffected := size filesWithIssues |}.

(** ** [link-checker/fixers/redirect-finder.ts]: batches *)

Record ConfidenceGroups := {
  groups_high : list (BrokenLink * FixSuggestion);
  groups_medium : list (BrokenLink * FixSuggestion);
  groups_low : list (BrokenLink * FixSuggestion);
  groups_none : list BrokenLink;
}.

(** The [Map] from broken links to suggestions is keyed by the link
    objects, which are distinct; it is written as the list of its pairs in
    the order of insertion. *)
Definition SuggestionMap := list (BrokenLink * option FixSuggestion).

Definition groupByConfidence (suggestions : SuggestionMap) : ConfidenceGroups :=
  fold_left
    (fun result '(brokenLink, suggestion) =>
       match suggestion with
       | None =>
           {| groups_high := groups_high result; groups_medium := groups_medium result;
              groups_low := groups_low result;
              groups_none := groups_none result ++ [brokenLink] |}
       | Some suggestion =>
           match confidence suggestion with
           | high =>
               {| groups_high := groups_high result ++ [(brokenLink, suggestion)];
                  groups_medium := groups_medium result;
                  groups_low := groups_low result; groups_none := groups_none result |}
           | medium =>
               {| groups_high := groups_high result;
                  groups_medium := groups_medium result ++ [(brokenLink, suggestion)];
                  groups_low := groups_low result; groups_none := groups_none result |}
           | low =>
               {| groups_high := groups_high result;
                  groups_medium := groups_medium result;
                  groups_low := groups_low result ++ [(brokenLink, suggestion)];
                  groups_none := groups_none result |}
           end
       end)
    suggestions
    {| groups_high := []; groups_medium := []; groups_low := []; groups_none := [] |}.

Section RedirectFinderBatches.
Context `{Platform}.

(** [allFilesCache = null], then one call of [findFixSuggestion] for each
    broken link; the cache is the one that the calls leave behind. *)
Definition findAllFixSuggestions (fs : FileSystem) (brokenLinks : list BrokenLink)
    (projectRoot : string) (redirectMap : RedirectMap) : SuggestionMap * FilesCache :=
  fold_left
    (fun '(results, allFilesCache) brokenLink =>
       let '(suggestion, allFilesCache) :=
         findFixSuggestion fs brokenLink projectRoot redirectMap allFilesCache in
       (results ++ [(brokenLink, suggestion)], allFilesCache))
    brokenLinks ([], None).

End RedirectFinderBatches.

(** ** [link-checker/fixers/link-fixer.ts]: a single fix *)

Section SingleFix.
Context `{Platform}.

(** [applyFix]: the whole body is inside [try]; what the [catch] returns is
    a failed result with the message of the exception. *)
Definition applyFix (fs : FileSystem) (b : BrokenLink) (s : FixSuggestion)
    (projectRoot : string) : FixResult * FileSystem :=
  let filePath := joinPaths [projectRoot; sourceFile b] in
  match readFile fs filePath with
  | Throw message => (failed b s message, fs)
  | Normal content =>
      let lines := Js.split "010" content in
      let lineIndex := (line (link b) - 1)%Z in
      if (lineIndex <? 0)%Z || (Z.of_nat (length lines) <=? lineIndex)%Z then
        (failed b s ("Line " +:+ numberToString (line (link b))
                     +:+ " not found in file"), fs)
      else
        let current := default "" (lines !! Z.to_nat lineIndex) in
        let newTarget := newTargetFor b s in
        match replaceLink current (link b) newTarget with
        | Some updatedLine =>
            if Js.truthy updatedLine then
              let lines := <[Z.to_nat lineIndex := updatedLine]> lines in
              ({| fix_sourceFile := sourceFile b; originalLink := link b;
                  newPath := suggestedPath s; success := true;
                  fix_error := None; redirectAdded := false |},
               writeFile fs filePath (Js.join Js.newline lines))
            else
              (failed b s ("Could not find link to replace on line "
                           +:+ numberToString (line (link b))), fs)
        | None =>
            (failed b s ("Could not find link to replace on line "
                         +:+ numberToString (line (link b))), fs)
        end
  end.

End SingleFix.

(** ** [shared/path-utils.ts]: kinds of links, pages and their sources *)

(** [s.replace(/p$/, r)] for a literal [p]: the suffix [p] becomes [r]
    when [s] ends with it, and [s] is returned unchanged otherwise. *)
Fixpoint replaceSuffix (s p r : string) {struct s} : string :=
  if String.eqb s p then r
  else match s with
       | EmptyString => EmptyString
       | String c s' => String c (replaceSuffix s' p r)
       end.

(** [/^(https?:|mailto:|tel:|ftp:)/i.test(link)]: the flag [i] lets a
    letter of the pattern match its capital as well. *)
Definition isExternalLink (link : string) : bool :=
  let lowered := Js.toLowerCase link in
  Js.startsWith lowered "http:" || Js.startsWith lowered "https:"
  || Js.startsWith lowered "mailto:" || Js.startsWith lowered "tel:"
  || Js.startsWith lowered "ftp:".

Definition isAnchorOnly (link : string) : bool := Js.startsWith link "#".

Definition mdToHtml (mdPath : string) : string :=
  let result := replaceSuffix mdPath ".md" ".html" in
  replaceSuffix result "/README.html" "/".

Definition htmlToMd (htmlPath : string) : string :=
  let result := replaceSuffix htmlPath ".html" ".md" in
  let result := replaceSuffix result "/index.md" "/README.md" in
  if Js.endsWith result "/" then result +:+ "README.md" else result.

Section PathUtilsKinds.
Context `{Platform}.

Definition isAssetLink (link : string) : bool :=
  let assetExtensions :=
    [ ".png"; ".jpg"; ".jpeg"; ".gif"; ".svg"; ".webp";
      ".pdf"; ".zip"; ".tar"; ".gz";
      ".mp4"; ".webm"; ".mov";
      ".mp3"; ".wav"; ".ogg" ] in
  let ext := Js.toLowerCase (path_extname link) in
  existsb (String.eqb ext) assetExtensions.

Definition hasRedirectConflict (fs : FileSystem) (fromPath toPath projectRoot : string)
  : bool :=
  let fromClean := Js.dropSuffix (Js.dropLeadingSlash fromPath) ".html" in
  let toClean := Js.dropSuffix (Js.dropLeadingSlash toPath) ".html" in
  if String.eqb toClean fromClean || String.eqb toClean (fromClean +:+ "/README")
     || String.eqb toClean (fromClean +:+ "/index")
  then false
  else
    let sourceMd := joinPaths [projectRoot; fromClean +:+ ".md"] in
    if fileExists fs sourceMd then true else false.

(** ** [link-checker/parsers/markdown.ts]: the link record *)

Definition createParsedLink (raw text target : string) (line column : Z)
  : option ParsedLink :=
  let type :=
    if isExternalLink target then external
    else if isAnchorOnly target then anchor_only
    else if isAssetLink target then asset
    else internal in
  let anchorIndex := Js.indexOf target "#" in
  let targetPath :=
    match anchorIndex with
    | Some i => Js.take i target
    | None => target
    end in
  let anchor :=
    match anchorIndex with
    | Some i => Some (Js.drop (S i) target)
    | None => None
    end in
  if decide (type = external) then None
  else Some {| raw := raw; text := text; target := targetPath; anchor := anchor;
               line := line; column := column; type := type |}.

End PathUtilsKinds.


(** ** [redirects/validator.ts] and the existence of a redirect target

    The file system of the embedding holds regular files.  Which paths are
    directories is a second observation of the disk, [dirExists]. *)

Record ParsedRedirectEntry := {
  redirect_from : string;
  redirect_to : string;
  rawFrom : string;
  rawTo : string;
}.

Record RedirectIssue := {
  issue_from : string;
  issue_to : string;
  issue_rawFrom : string;
  issue_rawTo : string;
  issue_reason : string;
}.

Record RedirectCheckResult := {
  check_total : Z;
  check_valid : Z;
  check_skipped : list RedirectIssue;
  check_broken : list RedirectIssue;
}.

Section RedirectValidator.
Context `{Platform}.
Variable dirExists : string -> bool.

(** [bookDir] is optional; [cleanPath.replace(/\/$/, '')] drops one
    trailing slash. *)
Definition targetPathExists (fs : FileSystem) (urlPath projectRoot : string)
    (bookDir : option string) : bool :=
  let cleanPath := Js.dropLeadingSlash urlPath in
  let pathWithoutTrailingSlash := Js.dropSuffix cleanPath "/" in
  let bookDirPath :=
    match bookDir with
    | Some dir => if Js.truthy dir then dir else joinPaths [projectRoot; "_book"]
    | None => joinPaths [projectRoot; "_book"]
    end in
  let directoryLike := Js.endsWith cleanPath "/" || negb (Js.includes cleanPath ".") in
  if dirExists bookDirPath
     && (fileExists fs (joinPaths [bookDirPath; cleanPath])
         || (directoryLike
             && (fileExists fs (joinPaths [bookDirPath; cleanPath; "index.html"])
                 || fileExists fs
                      (joinPaths [bookDirPath; pathWithoutTrailingSlash +:+ ".html"]))))
  then true
  else
    let sourcePath :=
      replaceSuffix (replaceSuffix cleanPath ".html" ".md") "/index.md" "/README.md" in
    if fileExists fs (joinPaths [projectRoot; sourcePath]) then true
    else if directoryLike
            && (fileExists fs (joinPaths [projectRoot; cleanPath; "README.md"])
                || fileExists fs
                     (joinPaths [projectRoot; pathWithoutTrailingSlash +:+ ".md"]))
    then true
    else false.

Definition issueOf (r : ParsedRedirectEntry) (reason : string) : RedirectIssue :=
  {| issue_from := redirect_from r; issue_to := redirect_to r;
     issue_rawFrom := rawFrom r; issue_rawTo := rawTo r; issue_reason := reason |}.

(** The loop of [checkRedirects]: the two lists it appends to. *)
Fixpoint collectIssues (fs : FileSystem) (redirects : list ParsedRedirectEntry)
    (projectRoot : string) (bookDir : option string)
    (skippedIssues brokenIssues : list RedirectIssue)
  : list RedirectIssue * list RedirectIssue :=
  match redirects with
  | [] => (skippedIssues, brokenIssues)
  | r :: rest =>
      let skippedIssues :=
        if hasRedirectConflict fs (redirect_from r) (redirect_to r) projectRoot
        then skippedIssues ++ [issueOf r "source path exists as different content"]
        else skippedIssues in
      let brokenIssues :=
        if negb (targetPathExists fs (redirect_to r) projectRoot bookDir)
        then brokenIssues ++ [issueOf r "target does not exist"]
        else brokenIssues in
      collectIssues fs rest projectRoot bookDir skippedIssues brokenIssues
  end.

Definition checkRedirects (fs : FileSystem) (redirects : list ParsedRedirectEntry)
    (projectRoot : string) (bookDir : option string) : RedirectCheckResult :=
  let '(skippedIssues, brokenIssues) :=
    collectIssues fs redirects projectRoot bookDir [] [] in
  let total := Z.of_nat (length redirects) in
  let valid :=
    (total - Z.of_nat (length skippedIssues) - Z.of_nat (length brokenIssues))%Z in
  {| check_total := total; check_valid := valid;
     check_skipped := skippedIssues; check_broken := brokenIssues |}.

End RedirectValidator.

(** ** [shared/gitbook-yaml.ts]: reading the redirect table *)

(** The redirect pattern: two white-space characters, the source up to the
    first colon, the colon, white space and the target, which runs to the
    end of the line and holds no line terminator.  When only white space
    follows the colon, its last character is the target. *)
Definition matchRedirect (line : string) : option (string * string) :=
  match line with
  | String a (String b afterIndent) =>
      if Js.isSpace a && Js.isSpace b then
        match untilChar ":" afterIndent with
        | Some (from, afterColon) =>
            let spaces := countLeadingSpace afterColon in
            let rawTo := Js.drop spaces afterColon in
            if String.eqb rawTo "" then
              let lastSpace := Js.drop (spaces - 1) afterColon in
              if (1 <=? spaces) && noLineTerminator lastSpace
              then Some (from, lastSpace) else None
            else if noLineTerminator rawTo then Some (from, rawTo)
            else None
        | None => None
        end
      else None
  | _ => None
  end.

Record YamlState := {
  yaml_entries : list RedirectEntry;
  yaml_fromToMap : gmap string string;
  yaml_toFromMap : gmap string (list string);
  yaml_inRedirects : bool;
}.

(** The body of the loop of [parseGitBookYaml] on the line of index [i]. *)
Definition parseYamlLine (st : YamlState) (i : Z) (line : string) : YamlState :=
  if String.eqb (Js.trim line) "redirects:" then
    {| yaml_entries := yaml_entries st; yaml_fromToMap := yaml_fromToMap st;
       yaml_toFromMap := yaml_toFromMap st; yaml_inRedirects := true |}
  else if yaml_inRedirects st then
    if startsUnindented line && negb (Js.startsWith line " ") then
      {| yaml_entries := yaml_entries st; yaml_fromToMap := yaml_fromToMap st;
         yaml_toFromMap := yaml_toFromMap st; yaml_inRedirects := false |}
    else
      match matchRedirect line with
      | Some (from, to) =>
          let entry := {| entry_from := Js.trim from; entry_to := Js.trim to;
                          entry_line := (i + 1)%Z |} in
          let existing := default [] (yaml_toFromMap st !! entry_to entry) in
          {| yaml_entries := yaml_entries st ++ [entry];
             yaml_fromToMap := <[entry_from entry := entry_to entry]> (yaml_fromToMap st);
             yaml_toFromMap :=
               <[entry_to entry := existing ++ [entry_from entry]]> (yaml_toFromMap st);
             yaml_inRedirects := true |}
      | None => st
      end
  else st.

Fixpoint parseYamlLines (lines : list string) (i : Z) (st : YamlState) : YamlState :=
  match lines with
  | [] => st
  | line :: rest => parseYamlLines rest (i + 1) (parseYamlLine st i line)
  end.

Definition parseGitBookYaml (fs : FileSystem) (yamlPath : string)
  : Completion RedirectMap :=
  content ← readFile fs yamlPath;
  let st := parseYamlLines (Js.split "010" content) 0
              {| yaml_entries := []; yaml_fromToMap := ∅; yaml_toFromMap := ∅;
                 yaml_inRedirects := false |} in
  Normal {| entries := yaml_entries st; fromToMap := yaml_fromToMap st;
            toFromMap := yaml_toFromMap st |}.


(** The loop of [parseRedirectsWithRaw]; it ends at the first line after
    the table that is neither indented nor blank. *)
Fixpoint parseRawLines (lines : list string) (inRedirects : bool)
    (redirects : list ParsedRedirectEntry) : list ParsedRedirectEntry :=
  match lines with
  | [] => redirects
  | line :: rest =>
      if Js.startsWith line "redirects:" then parseRawLines rest true redirects
      else if inRedirects && isRedirectLine line then
        match matchRedirect line with
        | Some (from, to) =>
            let rawFrom := Js.trim from in
            let rawTo := Js.trim to in
            let from := "/" +:+ rawFrom in
            let to := "/" +:+ replaceSuffix rawTo ".md" ".html" in
            let to := replaceSuffix to "/README.html" "/" in
            parseRawLines rest inRedirects
              (redirects ++ [{| redirect_from := from; redirect_to := to;
                                rawFrom := rawFrom; rawTo := rawTo |}])
        | None => parseRawLines rest inRedirects redirects
        end
      else if inRedirects && startsUnindented line && Js.truthy (Js.trim line)
      then redirects
      else parseRawLines rest inRedirects redirects
  end.

Definition parseRedirectsWithRaw (fs : FileSystem) (yamlPath : string)
  : Completion (list ParsedRedirectEntry) :=
  content ← readFile fs yamlPath;
  Normal (parseRawLines (Js.split "010" content) false []).

(** The object that the server reads: a later entry of a source replaces
    an earlier one. *)
Definition parseRedirectsForServer (fs : FileSystem) (yamlPath : string)
  : Completion (gmap string string) :=
  parsed ← parseRedirectsWithRaw fs yamlPath;
  Normal (fold_left (fun redirects r => <[redirect_from r := redirect_to r]> redirects)
                    parsed ∅).

(** ** [link-checker/validators/anchor-validator.ts]: lists of anchors *)

Section AnchorLists.
Context `{Platform}.

Definition getAvailableAnchors (fs : FileSystem) (headingsCache : HeadingsCache)
    (filePath projectRoot : string) : Completion (list string) * HeadingsCache :=
  match getFileHeadings fs headingsCache filePath projectRoot with
  | (Throw e, cache) => (Throw e, cache)
  | (Normal None, cache) => (Normal [], cache)
  | (Normal (Some fileHeadings), cache) =>
      (Normal (map id (headings fileHeadings)), cache)
  end.

End AnchorLists.

(** ** [link-checker/parsers/summary.ts]: walking the forest *)

(** The loop of [flatten] over a list of entries; [flatten] is the call
    on the children of an entry that has some. *)
Fixpoint visitAll (flatten : list Ref -> option (list Ref))
    (store : list SummaryEntry) (refs : list Ref) : option (list Ref) :=
  match refs with
  | [] => Some []
  | r :: rest =>
      entry ← store !! r;
      below ← match children entry with
              | [] => Some []
              | kids => flatten kids
              end;
      later ← visitAll flatten store rest;
      Some (r :: below ++ later)
  end.

(** [flatten] recurses on the children of an entry.  The embedding bounds
    the depth of the recursion; [None] is a forest deeper than the bound. *)
Fixpoint flattenRefs (fuel : nat) (store : list SummaryEntry) (refs : list Ref)
  : option (list Ref) :=
  match fuel with
  | 0 => None
  | S fuel => visitAll (flattenRefs fuel store) store refs
  end.

(** No forest is deeper than the number of its entries. *)
Definition flattenSummary (structure : SummaryStructure) : option (list Ref) :=
  flattenRefs (S (length (store structure))) (store structure)
    (summary_entries structure).

Definition pathOf (structure : SummaryStructure) (r : Ref) : string :=
  match store structure !! r with
  | Some entry => path entry
  | None => ""
  end.

Definition validateSummaryPaths (structure : SummaryStructure)
    (fileExistsFn : string -> bool) : option (list Ref) :=
  allEntries ← flattenSummary structure;
  Some (List.filter (fun r => negb (fileExistsFn (pathOf structure r))) allEntries).

Section SummaryPaths.
Context `{Platform}.

Definition getSummaryPaths (fs : FileSystem) (summaryPath : string)
  : Completion (gset string) :=
  structure ← parseSummary fs summaryPath;
  Normal (list_to_set (allPaths structure)).

End SummaryPaths.

(** ** Statements written from the specification, for comparison *)

Section AsSpecified.
Context `{Platform}.

(** The four keys of a redirect lookup, in the order of the specification:
    the path as given, without a leading slash, without the [.md] suffix,
    with both removed. *)
Definition lookupKeys (fromPath : string) : list string :=
  [ fromPath;
    Js.dropLeadingSlash fromPath;
    Js.dropSuffix fromPath ".md";
    Js.dropSuffix (Js.dropLeadingSlash fromPath) ".md" ].

(** A redirect that the first tier can use for the key [w]: the lookup
    yields a destination, which is not the empty text and is a file. *)
Definition usableRedirect (fs : FileSystem) (redirectMap : RedirectMap)
    (projectRoot w : string) : Prop :=
  exists d, findRedirectTarget redirectMap w = Some d /\ d <> ""
            /\ fileExists fs (joinPaths [projectRoot; d]) = true.

(** An entry of the table for the key [v] that leads to [d], a file on
    disk. *)
Definition redirectExists (fs : FileSystem) (redirectMap : RedirectMap)
    (projectRoot v d : string) : Prop :=
  (exists e, e ∈ entries redirectMap /\ entry_from e = v /\ entry_to e = d)
  /\ fileExists fs (joinPaths [projectRoot; d]) = true.

(** The first tier as the specification words it: the broken path and its
    three variants are looked up in the table, and the first variant whose
    redirect destination exists on disk wins; the suggestion is of high
    confidence and proposes that destination. *)
Definition redirectTierAsSpecified (fs : FileSystem)
    (b : BrokenLink) (projectRoot : string) (redirectMap : RedirectMap)
    (cache : FilesCache) : Prop :=
  forall i v,
    lookupKeys (brokenPathOf b) !! i = Some v ->
    (exists d, redirectExists fs redirectMap projectRoot v d) ->
    (forall j w d, j < i -> lookupKeys (brokenPathOf b) !! j = Some w ->
                   ~ redirectExists fs redirectMap projectRoot w d) ->
    exists s, fst (findFixSuggestion fs b projectRoot redirectMap cache) = Some s
              /\ confidence s = high
              /\ redirectExists fs redirectMap projectRoot v (suggestedPath s).

(** The fallbacks as the specification words them: tried when the resolved
    path has no extension and no file exists at that exact path. *)
Definition withFallbacksAsSpecified (fs : FileSystem) (projectRoot resolved : string)
  : string :=
  let fullPath := joinPaths [projectRoot; resolved] in
  if String.eqb (path_extname resolved) "" && negb (fileExists fs fullPath) then
    if fileExists fs (fullPath +:+ ".md") then resolved +:+ ".md"
    else if fileExists fs (joinPaths [fullPath; "README.md"])
    then joinPaths [resolved; "README.md"]
    else resolved
  else resolved.

End AsSpecified.

(** ** Concrete inputs *)

Module Sample.

Definition linkTo (target : string) (anchor : option string) (line : Z) : ParsedLink :=
  {| raw := "[x](" +:+ target +:+ ")"; text := "x"; target := target;
     anchor := anchor; line := line; column := 1; type := internal |}.

Definition brokenAt (sourceFile target resolvedPath : string) (line : Z) : BrokenLink :=
  {| sourceFile := sourceFile; link := linkTo target None line; status := broken;
     resolvedPath := Some resolvedPath;
     error := Some ("Target not found: " +:+ resolvedPath) |}.

Definition tableOf (pairs : list (string * string)) : RedirectMap :=
  {| entries := map (fun p => {| entry_from := fst p; entry_to := snd p;
                                 entry_line := 1 |}) pairs;
     fromToMap := list_to_map (rev pairs);
     toFromMap := ∅ |}.

(** Two pages. *)
Definition twoPages : FileSystem :=
  {[ "root/x.md" := "# X"; "root/y.md" := "# Y" ]}.

(** A book whose page [docs/b.md] links to [//a.md].  Its table has an
    entry for [/a.md] that leads nowhere, one for [/a] and one for [a]. *)
Definition slashBook : FileSystem :=
  {[ "root/.gitbook.yaml" :=
       Js.join Js.newline
         [ "root: ./";
           "redirects:";
           "  /a.md: gone.md";
           "  /a: good.md";
           "  a: other.md" ];
     "root/good.md" := "# Good";
     "root/other.md" := "# Other";
     "root/docs/b.md" := "[x](//a.md)" ]}.

(** A path that starts with two slashes: its own entry leads nowhere, and
    the lookup for its second variant finds the entry of [a.md]. *)
Definition twoSlashes : RedirectMap :=
  tableOf [("//a.md", "gone.md"); ("a.md", "other.md"); ("//a", "good.md")].

Definition otherAndGood : FileSystem :=
  {[ "root/other.md" := "# Other"; "root/good.md" := "# Good" ]}.

(** A file without extension next to a Markdown file of the same name. *)
Definition guideTwice : FileSystem :=
  {[ "root/docs/guide" := "plain text"; "root/docs/guide.md" := "# Guide" ]}.

(** A directory whose name has a dot. *)
Definition dottedDirectory : FileSystem :=
  {[ "root/v1.2/intro.md" := "# Intro"; "root/v1.2/a.md" := "[x](intro)" ]}.

(** A page that moved, with a redirect from its old place. *)
Definition movedPage : FileSystem :=
  {[ "root/docs/a.md" := "[x](missing.md)"; "root/docs/a/found.md" := "# Found" ]}.

(** A guide with one heading. *)
Definition guide : FileSystem := {[ "root/guide.md" := "# Installation" ]}.

(** A summary with an over-indented, an under-indented and an orphaned
    item. *)
Definition summary : FileSystem :=
  {[ "root/SUMMARY.md" :=
       Js.join Js.newline
         [ "# Summary";
           "";
           "* [Intro](README.md)";
           "  * [A](a.md)";
           "      * [Deep](deep.md)";
           "    * [B](b\_x.md)";
           " * [Odd](odd.md)";
           "   - [C](c.md)";
           "some text";
           "    * [Orphan](o.md)";
           "* [Z](z.md)" ] ]}.

Definition suggest (path : string) : FixSuggestion :=
  {| confidence := high; suggestedPath := path;
     reason := "Redirect exists in .gitbook.yaml"; redirectEntry := None |}.

(** A page with two broken links on its second and fourth lines; the
    page that replaces the first has two dollar signs in its name. *)
Definition twoLinks : FileSystem :=
  {[ "root/a.md" :=
       Js.join Js.newline
         [ "intro"; "[one](old.md)"; "middle"; "[two](gone.md)"; "end" ] ]}.

Definition twoFixes : list Fix :=
  [ {| fix_broken := brokenAt "a.md" "old.md" "old.md" 2;
       fix_suggestion := suggest "pricing-$$.md" |};
    {| fix_broken := brokenAt "a.md" "gone.md" "gone.md" 4;
       fix_suggestion := suggest "found.md" |} ].

(** A page of [docs] with a link to the parent directory and a link to
    its own directory, and a redirect table with one entry. *)
Definition parentLink : FileSystem :=
  {[ "root/docs/a.md" := Js.join Js.newline [ "[one](../old.md)"; "[two](./gone.md)" ];
     "root/.gitbook.yaml" :=
       Js.join Js.newline [ "root: ./"; ""; "redirects:"; "  x: y.md"; "" ] ]}.

Definition parentFixes : list Fix :=
  [ {| fix_broken := brokenAt "docs/a.md" "../old.md" "old.md" 1;
       fix_suggestion := suggest "new.md" |};
    {| fix_broken := brokenAt "docs/a.md" "./gone.md" "docs/gone.md" 2;
       fix_suggestion := suggest "docs/here.md" |} ].

(** A small tree of pages, with a directory that the scan ignores. *)
Definition pages : FileSystem :=
  {[ "root/README.md" := "# Root";
     "root/guides/setup.md" := "# Setup";
     "root/node_modules/x/setup.md" := "# Vendored";
     "root/docs/a.md" := "[x](setup.md)";
     "root/docs/Intro.md" := "# Intro" ]}.

(** A fix for a line that holds no link. *)
Definition misplacedFix : list Fix :=
  [ {| fix_broken := Sample.brokenAt "a.md" "old.md" "old.md" 1;
       fix_suggestion := Sample.suggest "found.md" |} ].

(** A redirect table with a target that is a [README.md]. *)
Definition servedTable : FileSystem :=
  {[ "root/.gitbook.yaml" :=
       Js.join Js.newline
         [ "root: ./"; ""; "redirects:"; "  old: docs/README.md";
           "  moved: new/page.md"; "" ] ]}.

End Sample.

(** ** Predicates used in the proofs *)

Fixpoint allOf (P : ascii -> bool) (s : string) : bool :=
  match s with
  | EmptyString => true
  | String c s' => P c && allOf P s'
  end.

(** A character that [toLowerCase] leaves alone. *)
Definition isLowered (c : ascii) : bool := Ascii.eqb (Js.lowerChar c) c.

(** The characters of a finished anchor id: lower-case letters, digits,
    the underscore and the hyphen. *)
Definition isSlugChar (c : ascii) : bool :=
  (Js.isWord c || Ascii.eqb c "-") && isLowered c.

Fixpoint noDoubleHyphen (s : string) : bool :=
  match s with
  | EmptyString => true
  | String c s' =>
      negb (Ascii.eqb c "-" && Js.startsWith s' "-") && noDoubleHyphen s'
  end.

(** The shape of a finished anchor id. *)
Definition isSlug (s : string) : bool :=
  allOf isSlugChar s && noDoubleHyphen s
  && negb (Js.startsWith s "-") && negb (Js.endsWith s "-").

(** The relations between the entries of a summary, read on their depths:
    [p] is the nearest entry before [c] that is less deep than [c]; no
    entry before [c] is less deep than [c]. *)
Definition nearestShallower (d : Ref -> nat) (p c : Ref) : Prop :=
  p < c /\ d p < d c /\ forall q, p < q < c -> d c <= d q.

Definition noShallower (d : Ref -> nat) (c : Ref) : Prop :=
  forall q, q < c -> d c <= d q.

(** A stack of ancestors: each entry is the nearest shallower entry of the
    one above it, and the bottom entry has none. *)
Fixpoint ancestorChain (d : Ref -> nat) (stack : list Ref) : Prop :=
  match stack with
  | [] => True
  | a :: below =>
      match below with
      | [] => noShallower d a
      | b :: _ => nearestShallower d b a
      end /\ ancestorChain d below
  end.

(** The invariant of the loop of [parseSummary]. *)
Record forestInv (st : ParserState) : Prop := {
  inv_children : forall p c e,
    st_store st !! p = Some e ->
    (c ∈ children e <->
     c < length (st_store st) /\ nearestShallower (depthAt (st_store st)) p c);
  inv_roots : forall c,
    c ∈ st_entries st <->
    c < length (st_store st) /\ noShallower (depthAt (st_store st)) c;
  inv_chain : ancestorChain (depthAt (st_store st)) (st_parentStack st);
  inv_top : match st_parentStack st with
            | [] => length (st_store st) = 0
            | top :: _ => S top = length (st_store st)
            end;
  inv_bound : Forall (fun a => a < length (st_store st)) (st_parentStack st);
}.

(** ** Batches of fixes *)

Definition fixKey (f : Fix) : string * ParsedLink * string :=
  (sourceFile (fix_broken f), link (fix_broken f), suggestedPath (fix_suggestion f)).

Definition resultKey (r : FixResult) : string * ParsedLink * string :=
  (fix_sourceFile r, originalLink r, newPath r).

(** ** The redirect table, as read *)

Definition tableAgrees (es : list RedirectEntry) (fromTo : gmap string string)
    (toFrom : gmap string (list string)) : Prop :=
  (forall k, fromTo !! k
             = entry_to <$> last (filter (fun e => entry_from e = k) es))
  /\ (forall t, toFrom !! t
                = match filter (fun e => entry_to e = t) es with
                  | [] => None
                  | sources => Some (map entry_from sources)
                  end).

(** ** The redirects of the server *)

Definition servedShape (r : ParsedRedirectEntry) : Prop :=
  redirect_from r = "/" +:+ rawFrom r
  /\ Js.startsWith (redirect_to r) "/" = true
  /\ Js.endsWith (redirect_to r) ".md" = false.

(** A text that the table can hold as a source or a target: not empty,
    without white space at its ends and without line terminator. *)
Definition plainText (s : string) : bool :=
  negb (String.eqb s "") && String.eqb (Js.trim s) s && noLineTerminator s.

(** A redirect that [addRedirects] writes as a line that reads back. *)
Definition writableRedirect (r : string * string) : bool :=
  plainText (fst r) && negb (Js.includes (fst r) ":") && plainText (snd r).

(** How [parseGitBookYaml] moves in and out of the table, line by line. *)
Definition inTableAfter (inRedirects : bool) (line : string) : bool :=
  if String.eqb (Js.trim line) "redirects:" then true
  else if inRedirects
  then negb (startsUnindented line && negb (Js.startsWith line " "))
  else false.

(** ** Writing the table and reading it back *)

Definition redirectLine (r : string * string) : string :=
  "  " +:+ fst r +:+ ": " +:+ snd r.

(** What the loop of [parseSummary] keeps besides the shape of the
    forest: children and roots in the order of their creation, one path for
    each entry, lines in ascending order. *)
Record orderInv (st : ParserState) (lineNumber : Z) : Prop := {
  ord_children : forall p e,
    st_store st !! p = Some e -> StronglySorted lt (children e);
  ord_roots : StronglySorted lt (st_entries st);
  ord_paths : st_allPaths st = map path (st_store st);
  ord_lines : StronglySorted Z.lt (map summary_line (st_store st));
  ord_before : Forall (fun e => (summary_line e < lineNumber)%Z) (st_store st);
}.

(** * Properties *)

(** ** Strings *)

Lemma truthy_true (s : string) : Js.truthy s = true <-> s <> "".
Proof.
  unfold Js.truthy. destruct (String.eqb_spec s ""); simpl; split; congruence.
Qed.

Lemma truthy_false (s : string) : Js.truthy s = false <-> s = "".
Proof.
  unfold Js.truthy. destruct (String.eqb_spec s ""); simpl; split; congruence.
Qed.

Lemma Map_has_true {V} (m : gmap string V) k :
  Map_has m k = true <-> is_Some (m !! k).
Proof. unfold Map_has. apply bool_decide_eq_true. Qed.

Lemma Map_has_false {V} (m : gmap string V) k :
  Map_has m k = false <-> m !! k = None.
Proof.
  unfold Map_has. rewrite bool_decide_eq_false. symmetry. apply eq_None_not_Some.
Qed.

Lemma fileExists_true (fs : FileSystem) p :
  fileExists fs p = true <-> is_Some (fs !! p).
Proof. unfold fileExists. apply bool_decide_eq_true. Qed.

(** ** The redirect table *)

(** A key that is in the table is answered with its own destination. *)
Lemma findRedirectTarget_direct redirectMap p d :
  fromToMap redirectMap !! p = Some d -> findRedirectTarget redirectMap p = Some d.
Proof.
  intros Hp. unfold findRedirectTarget.
  destruct (Map_has (fromToMap redirectMap) p) eqn:E; [done|].
  apply Map_has_false in E. congruence.
Qed.

(** C7. [findRedirectTarget] tries four keys in order (the path as given,
    without a leading slash, without the [.md] suffix, with both removed)
    and returns the destination of the first key present in the from-to
    index, or nothing when none of the four is present. *)
Theorem findRedirectTarget_first_present (redirectMap : RedirectMap) (fromPath : string) :
  let keys := [ fromPath;
                Js.dropLeadingSlash fromPath;
                Js.dropSuffix fromPath ".md";
                Js.dropSuffix (Js.dropLeadingSlash fromPath) ".md" ] in
  match findRedirectTarget redirectMap fromPath with
  | Some d =>
      exists i k, keys !! i = Some k /\ fromToMap redirectMap !! k = Some d
                  /\ forall j k', j < i -> keys !! j = Some k' ->
                                  fromToMap redirectMap !! k' = None
  | None => forall k, k ∈ keys -> fromToMap redirectMap !! k = None
  end.
Proof.
  intros keys. unfold findRedirectTarget.
  destruct (Map_has _ fromPath) eqn:E0.
  { apply Map_has_true in E0 as [d Hd]. rewrite Hd.
    exists 0, fromPath. repeat split; [done|]. intros j k' Hj. lia. }
  apply Map_has_false in E0.
  destruct (Map_has _ (Js.dropLeadingSlash fromPath)) eqn:E1.
  { apply Map_has_true in E1 as [d Hd]. rewrite Hd.
    exists 1, (Js.dropLeadingSlash fromPath). repeat split; [done|].
    intros j k' Hj Hk. destruct j as [|[|j]]; simpl in Hk; [|lia..].
    by injection Hk as <-. }
  apply Map_has_false in E1.
  destruct (Map_has _ (Js.dropSuffix fromPath ".md")) eqn:E2.
  { apply Map_has_true in E2 as [d Hd]. rewrite Hd.
    exists 2, (Js.dropSuffix fromPath ".md"). repeat split; [done|].
    intros j k' Hj Hk. destruct j as [|[|[|j]]]; simpl in Hk; [| |lia..];
      by injection Hk as <-. }
  apply Map_has_false in E2.
  destruct (Map_has _ (Js.dropSuffix (Js.dropLeadingSlash fromPath) ".md")) eqn:E3.
  { apply Map_has_true in E3 as [d Hd]. rewrite Hd.
    exists 3, (Js.dropSuffix (Js.dropLeadingSlash fromPath) ".md").
    repeat split; [done|].
    intros j k' Hj Hk. destruct j as [|[|[|[|j]]]]; simpl in Hk; [| | |lia..];
      by injection Hk as <-. }
  apply Map_has_false in E3.
  intros k Hk. unfold keys in Hk.
  repeat (apply elem_of_cons in Hk as [->|Hk]; [done|]).
  by apply elem_of_nil in Hk.
Qed.

(** ** The first tier of the suggestion engine *)

Section RedirectTier.
Context `{Platform}.

Lemma firstRedirect_spec fs brokenPath redirectMap projectRoot (vs : list string) :
  match firstRedirect fs brokenPath redirectMap projectRoot vs with
  | Some s =>
      confidence s = high /\
      exists i w, vs !! i = Some w
        /\ findRedirectTarget redirectMap w = Some (suggestedPath s)
        /\ suggestedPath s <> ""
        /\ fileExists fs (joinPaths [projectRoot; suggestedPath s]) = true
        /\ forall j w', j < i -> vs !! j = Some w' ->
                        ~ usableRedirect fs redirectMap projectRoot w'
  | None => forall w, w ∈ vs -> ~ usableRedirect fs redirectMap projectRoot w
  end.
Proof.
  induction vs as [|v vs IH]; simpl.
  { intros w Hw. by apply elem_of_nil in Hw. }
  assert (Hskip : ~ usableRedirect fs redirectMap projectRoot v ->
    match firstRedirect fs brokenPath redirectMap projectRoot vs with
    | Some s =>
        confidence s = high /\
        exists i w, (v :: vs) !! i = Some w
          /\ findRedirectTarget redirectMap w = Some (suggestedPath s)
          /\ suggestedPath s <> ""
          /\ fileExists fs (joinPaths [projectRoot; suggestedPath s]) = true
          /\ forall j w', j < i -> (v :: vs) !! j = Some w' ->
                          ~ usableRedirect fs redirectMap projectRoot w'
    | None => forall w, w ∈ v :: vs -> ~ usableRedirect fs redirectMap projectRoot w
    end).
  { intros Hv. destruct (firstRedirect _ _ _ _ vs) as [s|].
    - destruct IH as (Hc & i & w & Hw & Ht & Hne & Hex & Hmin).
      split; [done|]. exists (S i), w. repeat split; try done.
      intros [|j] w' Hj Hw'; simpl in Hw'.
      + by injection Hw' as <-.
      + apply (Hmin j); [lia|done].
    - intros w Hw. apply elem_of_cons in Hw as [->|Hw]; [done|by apply IH]. }
  destruct (findRedirectTarget redirectMap v) as [d|] eqn:Ed.
  - destruct (Js.truthy d) eqn:Et; simpl.
    + destruct (fileExists fs (joinPaths [projectRoot; d])) eqn:Ef.
      * simpl. split; [done|]. exists 0, v. apply truthy_true in Et.
        repeat split; try done. intros j w' Hj. lia.
      * apply Hskip. intros (d' & Hd' & _ & Hex). congruence.
    + apply Hskip. intros (d' & Hd' & Hne & _).
      apply truthy_false in Et. congruence.
  - apply Hskip. intros (d' & Hd' & _). congruence.
Qed.

(** C1, as amended.  The project root is a directory (no regular file bears
    its name).  When the lookup index [fromToMap] of the redirect table, in
    which a source listed twice keeps its last entry, maps the broken path
    or one of its three variants to a destination that is a file on disk,
    [findFixSuggestion] returns a suggestion of high confidence.  Its path
    is the destination that [findRedirectTarget] gives for the first of the
    four variants, in their order, for which that lookup gives a
    destination that exists; since that lookup tries four keys of its own,
    this need not be the entry of the first variant that has one.  The
    result is the same whatever the four lower strategies would answer, and
    the cache of the file list is left as it was. *)
Theorem redirect_tier_preempts (fs : FileSystem) (b : BrokenLink)
    (projectRoot : string) (redirectMap : RedirectMap) (v d : string) :
  fileExists fs (joinPaths [projectRoot; ""]) = false ->
  v ∈ lookupKeys (brokenPathOf b) ->
  fromToMap redirectMap !! v = Some d ->
  fileExists fs (joinPaths [projectRoot; d]) = true ->
  exists s,
    (forall cache,
        findFixSuggestion fs b projectRoot redirectMap cache = (Some s, cache))
    /\ (forall tiers cache,
          findFixSuggestionWith tiers fs b projectRoot redirectMap cache
          = (Some s, cache))
    /\ confidence s = high
    /\ exists i w,
         lookupKeys (brokenPathOf b) !! i = Some w
         /\ findRedirectTarget redirectMap w = Some (suggestedPath s)
         /\ fileExists fs (joinPaths [projectRoot; suggestedPath s]) = true
         /\ forall j w' d', j < i -> lookupKeys (brokenPathOf b) !! j = Some w' ->
               findRedirectTarget redirectMap w' = Some d' ->
               fileExists fs (joinPaths [projectRoot; d']) = false.
Proof.
  intros Hroot Hv Hd Hex.
  assert (Hne : forall d', fileExists fs (joinPaths [projectRoot; d']) = true -> d' <> "").
  { intros d' Hd' ->. congruence. }
  pose proof (firstRedirect_spec fs (brokenPathOf b) redirectMap projectRoot
                (variations (brokenPathOf b))) as Hspec.
  change (variations (brokenPathOf b)) with (lookupKeys (brokenPathOf b)) in Hspec.
  destruct (firstRedirect fs (brokenPathOf b) redirectMap projectRoot
              (lookupKeys (brokenPathOf b))) as [s|] eqn:Efirst.
  - exists s. destruct Hspec as (Hc & i & w & Hw & Ht & _ & Hfile & Hmin).
    split; [|split; [|split; [done|]]].
    + intros cache. unfold findFixSuggestion, findRedirectSuggestion.
      change (variations (brokenPathOf b)) with (lookupKeys (brokenPathOf b)).
      by rewrite Efirst.
    + intros tiers cache. unfold findFixSuggestionWith, findRedirectSuggestion.
      change (variations (brokenPathOf b)) with (lookupKeys (brokenPathOf b)).
      by rewrite Efirst.
    + exists i, w. do 3 (split; [done|]).
      intros j w' d' Hj Hw' Hd'.
      destruct (fileExists fs (joinPaths [projectRoot; d'])) eqn:Ed'; [|done].
      exfalso. apply (Hmin j w' Hj Hw'). exists d'. by auto.
  - exfalso. apply (Hspec v Hv). exists d.
    split; [by apply findRedirectTarget_direct|by auto].
Qed.

(** The engine is the general one at the strategies of the source. *)
Lemma findFixSuggestion_sourceTiers fs b projectRoot redirectMap cache :
  findFixSuggestion fs b projectRoot redirectMap cache
  = findFixSuggestionWith (sourceTiers fs) fs b projectRoot redirectMap cache.
Proof. reflexivity. Qed.

End RedirectTier.

(** The amended statement at a table with one entry. *)
Lemma redirect_tier_preempts_witness :
  exists s,
    (forall cache,
        findFixSuggestion (H:=posix) Sample.twoPages
          (Sample.brokenAt "docs/b.md" "../a.md" "a.md" 3) "root"
          (Sample.tableOf [("a", "y.md")]) cache = (Some s, cache))
    /\ confidence s = high.
Proof.
  destruct (redirect_tier_preempts (H:=posix) Sample.twoPages
              (Sample.brokenAt "docs/b.md" "../a.md" "a.md" 3) "root"
              (Sample.tableOf [("a", "y.md")]) "a" "y.md")
    as (s & Hs & _ & Hc & _).
  - vm_compute. reflexivity.
  - apply list_elem_of_In. vm_compute. auto.
  - vm_compute. reflexivity.
  - vm_compute. reflexivity.
  - exists s. split; assumption.
Defined.

(** C1, as stated, fails.  The page [docs/b.md] links to [//a.md], which
    resolves to [/a.md] and is broken.  The variants of that path are
    [/a.md], [a.md], [/a] and [a].  The entry of [/a.md] leads to no file,
    [a.md] has no entry, and [/a] is the first variant whose destination,
    [good.md], exists.  The suggestion is [other.md], the destination of the
    last variant [a]: the lookup for the second variant [a.md] falls back on
    the key [a] before the third variant is tried. *)
Lemma redirect_tier_counterexample :
  exists table,
    parseGitBookYaml Sample.slashBook "root/.gitbook.yaml" = Normal table
    /\ let b := validateLink (H:=posix) Sample.slashBook "docs/b.md"
                  (Sample.linkTo "//a.md" None 1) "root" (Some table) in
       status b = broken
       /\ lookupKeys (brokenPathOf b) = ["/a.md"; "a.md"; "/a"; "a"]
       /\ (suggestedPath <$>
             fst (findFixSuggestion (H:=posix) Sample.slashBook b "root" table None))
          = Some "other.md"
       /\ ~ redirectTierAsSpecified (H:=posix) Sample.slashBook b "root" table None.
Proof.
  eexists. split; [vm_compute; reflexivity|].
  cbv zeta. do 3 (split; [vm_compute; reflexivity|]).
  intros Hclaim.
  destruct (Hclaim 2 "/a") as (s & Hs & _ & (e & He & Hfrom & Hto) & _).
  - vm_compute. reflexivity.
  - exists "good.md". split; [|vm_compute; reflexivity].
    exists {| entry_from := "/a"; entry_to := "good.md"; entry_line := 4 |}.
    split; [|split; reflexivity].
    cbn [entries]. apply list_elem_of_In. right. left. reflexivity.
  - intros j w d Hj Hw ((e & He & Hfrom & Hto) & Hfile).
    cbn [entries] in He. apply list_elem_of_In in He.
    destruct j as [|[|j]]; [| |lia]; vm_compute in Hw; injection Hw as <-.
    + destruct He as [<-|[<-|[<-|[]]]]; cbn in Hfrom, Hto; try discriminate.
      subst d. vm_compute in Hfile. discriminate.
    + destruct He as [<-|[<-|[<-|[]]]]; cbn in Hfrom; discriminate.
  - vm_compute in Hs. injection Hs as <-.
    cbn [entries] in He. apply list_elem_of_In in He.
    destruct He as [<-|[<-|[<-|[]]]]; cbn in Hfrom, Hto; discriminate.
Qed.

(** The table lookup of a variant can answer with an entry that belongs to
    none of the four variants: here the suggestion is the destination of the
    key [a.md], reached from the variant [/a.md] of the path [//a.md]. *)
Example redirect_tier_reaches_other_keys :
  (suggestedPath <$>
     fst (findFixSuggestion (H:=posix) Sample.otherAndGood
            (Sample.brokenAt "docs/b.md" "///a.md" "//a.md" 3) "root"
            Sample.twoSlashes None)) = Some "other.md"
  /\ Forall (fun v => fromToMap Sample.twoSlashes !! v <> Some "other.md")
            (lookupKeys "//a.md").
Proof.
  split; [vm_compute; reflexivity|].
  repeat constructor; vm_compute; discriminate.
Qed.

(** Without a usable redirect the lower strategies answer, and the first
    of them scans the disk and fills the cache: the link [setup.md] of
    [docs/a.md] is found again under [guides]. *)
Example lower_tiers_without_redirect :
  let run := findFixSuggestion (H:=posix) Sample.pages
               (Sample.brokenAt "docs/a.md" "setup.md" "docs/setup.md" 1) "root"
               (Sample.tableOf []) None in
  fst run = Some {| confidence := medium; suggestedPath := "guides/setup.md";
                    reason := "File with same name found in different location";
                    redirectEntry := None |}
  /\ snd run <> None.
Proof. vm_compute. split; [reflexivity|discriminate]. Qed.

(** ** Resolution of relative links *)

Lemma endsWith_md_includes_dot (s : string) :
  Js.endsWith s ".md" = true -> Js.includes s "." = true.
Proof.
  induction s as [|c s IH]; [done|].
  cbn [Js.endsWith Js.includes]. intros Hs.
  apply orb_true_iff in Hs as [Hs|Hs].
  - apply String.eqb_eq in Hs. by rewrite Hs.
  - rewrite (IH Hs). apply orb_true_r.
Qed.

Section Resolution.
Context `{Platform}.

Lemma withFallbacks_dotted fs projectRoot base :
  Js.includes base "." = true -> withFallbacks fs projectRoot base = base.
Proof.
  intros Hdot. unfold withFallbacks. rewrite Hdot.
  by rewrite andb_false_r.
Qed.

Lemma withFallbacks_plain fs projectRoot base :
  Js.includes base "." = false ->
  withFallbacks fs projectRoot base =
    if fileExists fs (joinPaths [projectRoot; base] +:+ ".md") then base +:+ ".md"
    else if fileExists fs (joinPaths [joinPaths [projectRoot; base]; "README.md"])
    then joinPaths [base; "README.md"]
    else base.
Proof.
  intros Hdot. unfold withFallbacks. rewrite Hdot.
  destruct (Js.endsWith base ".md") eqn:Emd; [|done].
  apply endsWith_md_includes_dot in Emd. congruence.
Qed.

(** The test of the source is on the dot, not on the extension: with a dot
    anywhere in the resolved path the resolution is kept, without one the
    fallbacks are tried. *)
Lemma resolveRelativeLink_by_dot (fs : FileSystem)
    (sourceFile linkTarget projectRoot : string) :
  let target := match Js.indexOf linkTarget "#" with
                | Some i => Js.take i linkTarget
                | None => linkTarget
                end in
  let base := baseResolution sourceFile target in
  let fullPath := joinPaths [projectRoot; base] in
  let r := resolved (resolveRelativeLink fs sourceFile linkTarget projectRoot) in
  target <> "" ->
  (Js.includes base "." = true -> r = base)
  /\ (Js.includes base "." = false ->
      r = if fileExists fs (fullPath +:+ ".md") then base +:+ ".md"
          else if fileExists fs (joinPaths [fullPath; "README.md"])
          then joinPaths [base; "README.md"]
          else base).
Proof.
  intros target base fullPath r Htarget.
  assert (Hr : r = withFallbacks fs projectRoot base).
  { unfold r, resolveRelativeLink. fold target.
    apply truthy_true in Htarget. by rewrite Htarget. }
  split.
  - intros Hdot. rewrite Hr. by apply withFallbacks_dotted.
  - intros Hdot. by rewrite Hr, (withFallbacks_plain _ _ _ Hdot).
Qed.

(** C2, as amended.  For a link whose target (before any [#]) is not
    empty, and whose resolved path has a dot only where it has an extension
    (no dotted directory, no dot-file), [resolveRelativeLink] tries the two
    fallbacks exactly when the resolved path has no extension, whether or
    not a file exists at that exact path: with an extension the resolution
    is kept; without one, the path with [.md] appended is taken when it
    exists, else [README.md] inside the directory of that name when it
    exists, else the resolution is kept. *)
Theorem resolveRelativeLink_fallbacks (fs : FileSystem)
    (sourceFile linkTarget projectRoot : string) :
  let target := match Js.indexOf linkTarget "#" with
                | Some i => Js.take i linkTarget
                | None => linkTarget
                end in
  let base := baseResolution sourceFile target in
  let fullPath := joinPaths [projectRoot; base] in
  let r := resolved (resolveRelativeLink fs sourceFile linkTarget projectRoot) in
  target <> "" ->
  (Js.includes base "." = true <-> path_extname base <> "") ->
  (path_extname base <> "" -> r = base)
  /\ (path_extname base = "" ->
      (fileExists fs (fullPath +:+ ".md") = true -> r = base +:+ ".md")
      /\ (fileExists fs (fullPath +:+ ".md") = false ->
          fileExists fs (joinPaths [fullPath; "README.md"]) = true ->
          r = joinPaths [base; "README.md"])
      /\ (fileExists fs (fullPath +:+ ".md") = false ->
          fileExists fs (joinPaths [fullPath; "README.md"]) = false ->
          r = base)).
Proof.
  intros target base fullPath r Htarget Hdots.
  destruct (resolveRelativeLink_by_dot fs sourceFile linkTarget projectRoot Htarget)
    as [Hdotted Hplain].
  fold target base fullPath r in Hdotted, Hplain.
  split.
  - intros Hext. apply Hdotted. by apply Hdots.
  - intros Hext.
    assert (Hno : Js.includes base "." = false).
    { apply not_true_iff_false. intros Hdot. by apply Hdots in Hdot. }
    rewrite (Hplain Hno). repeat split.
    + by intros ->.
    + by intros -> ->.
    + by intros -> ->.
Qed.

End Resolution.

(** The amended statement where a file without extension stands next to
    the page: the link [guide] of [docs/a.md] resolves to [docs/guide],
    which has no dot and no extension, and [docs/guide.md] is taken although
    [docs/guide] is a file. *)
Lemma resolveRelativeLink_fallbacks_witness :
  resolved (resolveRelativeLink (H:=posix) Sample.guideTwice
              "docs/a.md" "guide" "root") = "docs/guide.md".
Proof.
  destruct (resolveRelativeLink_fallbacks (H:=posix) Sample.guideTwice
              "docs/a.md" "guide" "root") as [_ Hplain].
  - discriminate.
  - vm_compute. split; [discriminate|]. intros Hext. by destruct Hext.
  - destruct Hplain as (Hmd & _); [vm_compute; reflexivity|].
    apply Hmd. vm_compute. reflexivity.
Defined.

(** C2, as stated, fails: a file exists at the exact resolved path
    [docs/guide], which has no extension, and the link is resolved to
    [docs/guide.md] all the same. *)
Lemma resolveRelativeLink_counterexample :
  fileExists Sample.guideTwice (joinPaths (H:=posix) ["root"; "docs/guide"]) = true
  /\ resolved (resolveRelativeLink (H:=posix) Sample.guideTwice
                 "docs/a.md" "guide" "root") = "docs/guide.md"
  /\ resolved (resolveRelativeLink (H:=posix) Sample.guideTwice
                 "docs/a.md" "guide" "root")
     <> withFallbacksAsSpecified (H:=posix) Sample.guideTwice "root"
          (baseResolution (H:=posix) "docs/a.md" "guide").
Proof.
  repeat split; try (vm_compute; reflexivity).
  vm_compute. discriminate.
Qed.

(** Outside the amended statement, a path with a dotted directory: the
    resolved path [v1.2/intro] has no extension and names no file,
    [v1.2/intro.md] exists, and no fallback is tried, so that the link to an
    existing page is reported as not found. *)
Example resolveRelativeLink_dotted_directory :
  path_extname (Platform:=posix) "v1.2/intro" = ""
  /\ fileExists Sample.dottedDirectory "root/v1.2/intro" = false
  /\ fileExists Sample.dottedDirectory "root/v1.2/intro.md" = true
  /\ resolveRelativeLink (H:=posix) Sample.dottedDirectory "v1.2/a.md" "intro" "root"
     = {| resolved := "v1.2/intro"; exists_ := false; original := "intro";
          resolved_anchor := None |}.
Proof. repeat split; vm_compute; reflexivity. Qed.

(** ** Validation of a link *)

Section Validation.
Context `{Platform}.

(** C5. The project root is a directory (no regular file bears its name).
    For an internal link whose resolved target does not exist: when a
    redirect table is supplied and its lookup maps the resolved path to a
    destination that is a file on disk, [validateLink] answers
    [redirect-available]; when there is no such destination (no table, no
    entry, or an entry whose destination is not on disk), it answers
    [broken] with the non-empty error that names the resolved path. *)
Theorem validateLink_missing_target (fs : FileSystem) (sourceFile : string)
    (link : ParsedLink) (projectRoot : string) (redirectMap : option RedirectMap) :
  let r := resolveRelativeLink fs sourceFile (target link) projectRoot in
  let result := validateLink fs sourceFile link projectRoot redirectMap in
  fileExists fs (joinPaths [projectRoot; ""]) = false ->
  type link = internal ->
  exists_ r = false ->
  (forall table d,
      redirectMap = Some table ->
      findRedirectTarget table (resolved r) = Some d ->
      fileExists fs (joinPaths [projectRoot; d]) = true ->
      status result = redirect_available)
  /\ ((forall table d,
          redirectMap = Some table ->
          findRedirectTarget table (resolved r) = Some d ->
          fileExists fs (joinPaths [projectRoot; d]) = false) ->
      status result = broken
      /\ resolvedPath result = Some (resolved r)
      /\ exists e, error result = Some e /\ e <> ""
                   /\ e = "Target not found: " +:+ resolved r).
Proof.
  intros r result Hroot Htype Hmissing.
  assert (Hresult : result =
    match redirectMap with
    | Some table =>
        match findRedirectTarget table (resolved r) with
        | Some d =>
            if Js.truthy d && fileExists fs (joinPaths [projectRoot; d])
            then {| sourceFile := sourceFile; link := link;
                    status := redirect_available;
                    resolvedPath := Some (resolved r);
                    error := Some ("Target not found: " +:+ resolved r
                                   +:+ ". Redirect available to: " +:+ d) |}
            else {| sourceFile := sourceFile; link := link; status := broken;
                    resolvedPath := Some (resolved r);
                    error := Some ("Target not found: " +:+ resolved r) |}
        | None => {| sourceFile := sourceFile; link := link; status := broken;
                     resolvedPath := Some (resolved r);
                     error := Some ("Target not found: " +:+ resolved r) |}
        end
    | None => {| sourceFile := sourceFile; link := link; status := broken;
                 resolvedPath := Some (resolved r);
                 error := Some ("Target not found: " +:+ resolved r) |}
    end).
  { unfold result, validateLink. fold r. rewrite Htype, Hmissing.
    repeat case_decide; try discriminate. reflexivity. }
  assert (Hbroken : forall res,
    res = {| sourceFile := sourceFile; link := link; status := broken;
             resolvedPath := Some (resolved r);
             error := Some ("Target not found: " +:+ resolved r) |} ->
    status res = broken /\ resolvedPath res = Some (resolved r)
    /\ exists e, error res = Some e /\ e <> ""
                 /\ e = "Target not found: " +:+ resolved r).
  { intros res ->. simpl. repeat split. eexists. repeat split. discriminate. }
  split.
  - intros table d -> Hd Hex. rewrite Hresult, Hd.
    assert (Hne : Js.truthy d = true).
    { apply truthy_true. intros ->. congruence. }
    by rewrite Hne, Hex.
  - intros Hnone. apply Hbroken. rewrite Hresult.
    destruct redirectMap as [table|]; [|done].
    destruct (findRedirectTarget table (resolved r)) as [d|] eqn:Hd; [|done].
    rewrite (Hnone table d eq_refl Hd). by rewrite andb_false_r.
Qed.

End Validation.

(** The first half on a page that moved: the link [missing.md] of
    [docs/a.md] resolves to [docs/missing.md], which the table sends to
    [docs/a/found.md]. *)
Lemma validateLink_missing_target_witness :
  status (validateLink (H:=posix) Sample.movedPage "docs/a.md"
            (Sample.linkTo "missing.md" None 1) "root"
            (Some (Sample.tableOf [("docs/missing", "docs/a/found.md")])))
  = redirect_available.
Proof.
  destruct (validateLink_missing_target (H:=posix) Sample.movedPage "docs/a.md"
              (Sample.linkTo "missing.md" None 1) "root"
              (Some (Sample.tableOf [("docs/missing", "docs/a/found.md")])))
    as [Hredirect _].
  - vm_compute. reflexivity.
  - reflexivity.
  - vm_compute. reflexivity.
  - apply (Hredirect _ "docs/a/found.md" eq_refl).
    + vm_compute. reflexivity.
    + vm_compute. reflexivity.
Defined.

(** ** Cleaning of link paths *)

(** C10. [cleanLinkPath] returns for every input and never throws: when
    the percent-decoding fails, the Markdown escapes are removed from the
    input itself, and otherwise from the decoded text. *)
Theorem cleanLinkPath_total `{Platform} (link : string) :
  exists cleaned,
    cleanLinkPath link = Normal cleaned
    /\ (decodeURIComponent link = None ->
        cleaned = unescape " " (unescape "#" (unescape "_" link)))
    /\ (forall decoded, decodeURIComponent link = Some decoded ->
        cleaned = unescape " " (unescape "#" (unescape "_" decoded))).
Proof.
  unfold cleanLinkPath, decodeLink.
  destruct (decodeURIComponent link) as [decoded|]; simpl.
  - eexists. split; [reflexivity|]. split; [discriminate|].
    by intros ? [= <-].
  - eexists. split; [reflexivity|]. split; [done|discriminate].
Qed.

(** A [%] that starts no escape: the decoder raises, the input is kept and
    its escaped underscore is cleaned. *)
Lemma cleanLinkPath_total_witness :
  cleanLinkPath (H:=posix) "100%\_done" = Normal "100%_done".
Proof.
  destruct (cleanLinkPath_total (H:=posix) "100%\_done") as (cleaned & -> & Hraw & _).
  f_equal. apply Hraw. vm_compute. reflexivity.
Defined.

(** ** Anchor ids *)

Lemma lowerChar_idempotent (c : ascii) : isLowered (Js.lowerChar c) = true.
Proof. destruct c as [[] [] [] [] [] [] [] []]; vm_compute; reflexivity. Qed.

Lemma kept_lowered_not_space (c : ascii) :
  isLowered c = true ->
  (Js.isWord c || Js.isSpace c || Ascii.eqb c "-") = true ->
  Js.isSpace c = false -> isSlugChar c = true.
Proof. destruct c as [[] [] [] [] [] [] [] []]; vm_compute; congruence. Qed.

Lemma slugChar_facts (c : ascii) :
  isSlugChar c = true ->
  Js.lowerChar c = c /\ Js.isSpace c = false
  /\ (Js.isWord c || Js.isSpace c || Ascii.eqb c "-") = true.
Proof. destruct c as [[] [] [] [] [] [] [] []]; vm_compute; intuition congruence. Qed.

Lemma allOf_toLowerCase (s : string) : allOf isLowered (Js.toLowerCase s) = true.
Proof.
  induction s as [|c s IH]; [done|]. simpl.
  by rewrite lowerChar_idempotent, IH.
Qed.

Lemma allOf_keepSlugChars (s : string) :
  allOf isLowered s = true ->
  allOf (fun c => isLowered c && (Js.isWord c || Js.isSpace c || Ascii.eqb c "-"))
        (keepSlugChars s) = true.
Proof.
  induction s as [|c s IH]; [done|]. simpl. intros Hs.
  apply andb_true_iff in Hs as [Hc Hs].
  destruct (Js.isWord c || Js.isSpace c || Ascii.eqb c "-") eqn:Ek; [|by apply IH].
  simpl. by rewrite Hc, Ek, IH.
Qed.

Lemma allOf_collapse_spaces (s : string) :
  allOf (fun c => isLowered c && (Js.isWord c || Js.isSpace c || Ascii.eqb c "-")) s = true ->
  allOf isSlugChar (collapseRuns Js.isSpace "-" s) = true.
Proof.
  induction s as [|c s IH]; [done|]. intros Hs.
  cbn [allOf] in Hs. apply andb_true_iff in Hs as [Hc Hs].
  apply andb_true_iff in Hc as [Hlow Hkeep].
  specialize (IH Hs). cbn [collapseRuns].
  destruct (Js.isSpace c) eqn:Esp.
  - destruct s as [|d s']; [done|].
    destruct (Js.isSpace d); [done|]. cbn [allOf]. by rewrite IH.
  - cbn [allOf]. rewrite (kept_lowered_not_space c Hlow);
      [by rewrite IH|by rewrite Esp|done].
Qed.

Lemma allOf_collapse_hyphens (s : string) :
  allOf isSlugChar s = true ->
  allOf isSlugChar (collapseRuns (Ascii.eqb "-") "-" s) = true.
Proof.
  induction s as [|c s IH]; [done|]. intros Hs.
  cbn [allOf] in Hs. apply andb_true_iff in Hs as [Hc Hs].
  specialize (IH Hs). cbn [collapseRuns].
  destruct (Ascii.eqb "-" c) eqn:Eh.
  - destruct s as [|d s']; [done|].
    destruct (Ascii.eqb "-" d); [done|]. cbn [allOf]. by rewrite IH.
  - cbn [allOf]. by rewrite Hc, IH.
Qed.

Lemma collapse_hyphens_head (s : string) :
  Js.startsWith (collapseRuns (Ascii.eqb "-") "-" s) "-" = Js.startsWith s "-".
Proof.
  induction s as [|c s IH]; [done|]. cbn [collapseRuns].
  destruct (Ascii.eqb "-" c) eqn:Eh.
  - apply Ascii.eqb_eq in Eh as <-.
    destruct s as [|d s']; [done|].
    destruct (Ascii.eqb "-" d) eqn:Ed; [|done].
    rewrite IH. apply Ascii.eqb_eq in Ed as <-. done.
  - reflexivity.
Qed.

Lemma noDoubleHyphen_collapse (s : string) :
  noDoubleHyphen (collapseRuns (Ascii.eqb "-") "-" s) = true.
Proof.
  induction s as [|c s IH]; [done|]. cbn [collapseRuns].
  destruct (Ascii.eqb "-" c) eqn:Eh.
  - destruct s as [|d s']; [done|].
    destruct (Ascii.eqb "-" d) eqn:Ed; [done|].
    cbn [noDoubleHyphen]. rewrite IH, collapse_hyphens_head.
    cbn [Js.startsWith]. rewrite Ed. reflexivity.
  - cbn [noDoubleHyphen]. rewrite IH.
    rewrite Ascii.eqb_sym, Eh. done.
Qed.

Lemma trimHyphens_unfold (s : string) :
  trimHyphens s =
  Js.dropSuffix (if Js.startsWith s "-" then Js.drop 1 s else s) "-".
Proof.
  destruct s as [|c s]; [done|].
  destruct c as [[] [] [] [] [] [] [] []]; reflexivity.
Qed.

Lemma startsWith_hyphen (c : ascii) (s : string) :
  Js.startsWith (String c s) "-" = Ascii.eqb c "-".
Proof. cbn [Js.startsWith]. rewrite andb_true_r. apply Ascii.eqb_sym. Qed.

Lemma dropSuffix_not_suffix (s p : string) :
  Js.endsWith s p = false -> Js.dropSuffix s p = s.
Proof.
  induction s as [|c s IH]; cbn [Js.endsWith Js.dropSuffix]; intros Hs;
    apply orb_false_iff in Hs as [-> Hs]; [done|].
  by rewrite (IH Hs).
Qed.

Lemma dropSuffix_hyphen_slug (s : string) :
  allOf isSlugChar s = true -> noDoubleHyphen s = true ->
  allOf isSlugChar (Js.dropSuffix s "-") = true
  /\ noDoubleHyphen (Js.dropSuffix s "-") = true
  /\ Js.endsWith (Js.dropSuffix s "-") "-" = false
  /\ Js.startsWith (Js.dropSuffix s "-") "-" = Js.startsWith s "-" && negb (String.eqb s "-").
Proof.
  induction s as [|c s IH]; [done|].
  cbn [allOf noDoubleHyphen]. intros Hall Hno.
  apply andb_true_iff in Hall as [Hc Hall].
  apply andb_true_iff in Hno as [Hcs Hno].
  destruct (IH Hall Hno) as (IHall & IHno & IHend & IHstart).
  cbn [Js.dropSuffix].
  destruct (String.eqb (String c s) "-") eqn:Eone.
  { apply String.eqb_eq in Eone as [= -> ->]. done. }
  cbn [allOf noDoubleHyphen Js.endsWith].
  apply negb_true_iff in Hcs.
  split; [by rewrite Hc, IHall|].
  split.
  { rewrite IHno, IHstart, andb_true_r. apply negb_true_iff.
    destruct (Ascii.eqb c "-"); [|done].
    rewrite andb_true_l in Hcs. rewrite Hcs. done. }
  split.
  { rewrite IHend, orb_false_r. apply String.eqb_neq. intros [= -> Hs].
    apply String.eqb_neq in Eone. apply Eone. f_equal.
    destruct s as [|d s]; [done|]. exfalso.
    cbn [Js.dropSuffix] in Hs.
    destruct (String.eqb (String d s) "-") eqn:Ed; [|done].
    apply String.eqb_eq in Ed as [= -> ->]. done. }
  rewrite !startsWith_hyphen. by rewrite andb_true_r.
Qed.

(** The output of the generator has the shape of a finished id. *)
Lemma generateAnchorId_isSlug (text : string) :
  isSlug (generateAnchorId text) = true.
Proof.
  unfold generateAnchorId.
  set (t := collapseRuns (Ascii.eqb "-") "-" _).
  assert (Hall : allOf isSlugChar t = true).
  { apply allOf_collapse_hyphens, allOf_collapse_spaces, allOf_keepSlugChars,
      allOf_toLowerCase. }
  assert (Hno : noDoubleHyphen t = true) by apply noDoubleHyphen_collapse.
  clearbody t. rewrite trimHyphens_unfold.
  set (u := if Js.startsWith t "-" then Js.drop 1 t else t).
  assert (Hu : allOf isSlugChar u = true /\ noDoubleHyphen u = true
               /\ Js.startsWith u "-" = false).
  { unfold u. destruct t as [|c t]; [done|].
    rewrite startsWith_hyphen. cbn [allOf noDoubleHyphen] in Hall, Hno.
    apply andb_true_iff in Hall as [Hc Hall].
    apply andb_true_iff in Hno as [Hct Hno].
    destruct (Ascii.eqb c "-") eqn:Ec.
    - simpl in Hct. apply negb_true_iff in Hct. done.
    - cbn [allOf noDoubleHyphen]. rewrite Hc, Hall, Hno, startsWith_hyphen, Ec.
      done. }
  clearbody u. destruct Hu as (Hall' & Hno' & Hhead).
  destruct (dropSuffix_hyphen_slug u Hall' Hno') as (H1 & H2 & H3 & H4).
  unfold isSlug. by rewrite H1, H2, H3, H4, Hhead.
Qed.

Lemma slug_toLowerCase (s : string) :
  allOf isSlugChar s = true -> Js.toLowerCase s = s.
Proof.
  induction s as [|c s IH]; [done|]. cbn [allOf Js.toLowerCase]. intros Hs.
  apply andb_true_iff in Hs as [Hc Hs].
  destruct (slugChar_facts c Hc) as (-> & _). by rewrite (IH Hs).
Qed.

Lemma slug_keepSlugChars (s : string) :
  allOf isSlugChar s = true -> keepSlugChars s = s.
Proof.
  induction s as [|c s IH]; [done|]. cbn [allOf keepSlugChars]. intros Hs.
  apply andb_true_iff in Hs as [Hc Hs].
  destruct (slugChar_facts c Hc) as (_ & _ & ->). by rewrite (IH Hs).
Qed.

Lemma slug_collapse_spaces (s : string) :
  allOf isSlugChar s = true -> collapseRuns Js.isSpace "-" s = s.
Proof.
  induction s as [|c s IH]; [done|]. cbn [allOf collapseRuns]. intros Hs.
  apply andb_true_iff in Hs as [Hc Hs].
  destruct (slugChar_facts c Hc) as (_ & -> & _). by rewrite (IH Hs).
Qed.

Lemma slug_collapse_hyphens (s : string) :
  noDoubleHyphen s = true -> collapseRuns (Ascii.eqb "-") "-" s = s.
Proof.
  induction s as [|c s IH]; [done|]. cbn [noDoubleHyphen collapseRuns]. intros Hs.
  apply andb_true_iff in Hs as [Hcs Hs]. specialize (IH Hs).
  rewrite (Ascii.eqb_sym "-" c).
  destruct (Ascii.eqb c "-") eqn:Ec; [|by rewrite IH].
  apply Ascii.eqb_eq in Ec as ->.
  destruct s as [|d s]; [done|].
  rewrite startsWith_hyphen in Hcs. simpl in Hcs. apply negb_true_iff in Hcs.
  rewrite (Ascii.eqb_sym "-" d), Hcs. by rewrite IH.
Qed.

Lemma generateAnchorId_slug (s : string) :
  isSlug s = true -> generateAnchorId s = s.
Proof.
  unfold isSlug. intros Hs.
  apply andb_true_iff in Hs as [Hs Hend].
  apply andb_true_iff in Hs as [Hs Hstart].
  apply andb_true_iff in Hs as [Hall Hno].
  apply negb_true_iff in Hend, Hstart.
  unfold generateAnchorId.
  rewrite (slug_toLowerCase s Hall), (slug_keepSlugChars s Hall),
    (slug_collapse_spaces s Hall), (slug_collapse_hyphens s Hno),
    trimHyphens_unfold, Hstart.
  by apply dropSuffix_not_suffix.
Qed.

(** C6. The slug generator is idempotent, and the id of the heading
    [Hello, World!] is [hello-world]. *)
Theorem generateAnchorId_idempotent :
  (forall x : string, generateAnchorId (generateAnchorId x) = generateAnchorId x)
  /\ generateAnchorId "Hello, World!" = "hello-world".
Proof.
  split; [|reflexivity].
  intros x. apply generateAnchorId_slug, generateAnchorId_isSlug.
Qed.

(** ** The stable sort *)

Section SortFacts.
Context {A : Type} (cmp : A -> A -> bool).
Hypothesis cmp_total : forall a b, cmp a b = false -> cmp b a = true.
Hypothesis cmp_trans : forall a b c, cmp a b = true -> cmp b c = true -> cmp a c = true.

Lemma insertBy_perm (x : A) (l : list A) : Permutation (x :: l) (insertBy cmp x l).
Proof.
  induction l as [|y l IH]; simpl; [done|].
  destruct (cmp x y); [done|].
  rewrite perm_swap. by apply perm_skip.
Qed.

Lemma sortBy_perm (l : list A) : Permutation l (sortBy cmp l).
Proof.
  induction l as [|x l IH]; simpl; [done|].
  rewrite <- insertBy_perm. by apply perm_skip.
Qed.

Lemma insertBy_sorted (x : A) (l : list A) :
  StronglySorted (fun a b => cmp a b = true) l ->
  StronglySorted (fun a b => cmp a b = true) (insertBy cmp x l).
Proof.
  induction 1 as [|y l Hl IH Hy]; simpl.
  { repeat constructor. }
  destruct (cmp x y) eqn:Exy.
  - constructor; [by constructor|].
    constructor; [done|].
    eapply Forall_impl; [exact Hy|]. intros z Hz. by eapply cmp_trans.
  - constructor; [done|].
    rewrite <- insertBy_perm. constructor; [by apply cmp_total|done].
Qed.

Lemma sortBy_sorted (l : list A) :
  StronglySorted (fun a b => cmp a b = true) (sortBy cmp l).
Proof.
  induction l as [|x l IH]; simpl; [constructor|by apply insertBy_sorted].
Qed.

End SortFacts.

Lemma StronglySorted_lookup {A} (R : A -> A -> Prop) (l : list A) :
  StronglySorted R l ->
  forall j k a b, j < k -> l !! j = Some a -> l !! k = Some b -> R a b.
Proof.
  induction 1 as [|x l Hl IH Hx]; intros j k a b Hjk Ha Hb; [done|].
  destruct k as [|k]; [lia|]. simpl in Hb.
  destruct j as [|j]; simpl in Ha.
  - injection Ha as <-. rewrite Forall_forall in Hx.
    apply Hx. by eapply list_elem_of_lookup_2.
  - apply (IH j k); [lia|done..].
Qed.

Lemma StronglySorted_app_inv {A} (R : A -> A -> Prop) (l1 l2 : list A) :
  StronglySorted R (l1 ++ l2) ->
  StronglySorted R l1 /\ forall a b, a ∈ l1 -> b ∈ l2 -> R a b.
Proof.
  induction l1 as [|x l1 IH]; simpl; intros Hs.
  { split; [constructor|]. intros a b Ha. by apply elem_of_nil in Ha. }
  apply StronglySorted_inv in Hs as [Hs Hx].
  destruct (IH Hs) as [IH1 IH2]. split.
  - constructor; [done|]. rewrite Forall_app in Hx. tauto.
  - intros a b Ha Hb. apply elem_of_cons in Ha as [->|Ha]; [|by apply IH2].
    rewrite Forall_forall in Hx. apply Hx. apply elem_of_app. by right.
Qed.

(** ** Anchor suggestions *)

Lemma byScoreDescending_total (a b : string * Q) :
  byScoreDescending a b = false -> byScoreDescending b a = true.
Proof.
  unfold byScoreDescending. intros Hab. apply Qle_bool_iff.
  destruct (Qlt_le_dec (snd b) (snd a)) as [Hlt|Hle]; [|done].
  apply Qlt_le_weak, Qle_bool_iff in Hlt. congruence.
Qed.

Lemma byScoreDescending_trans (a b c : string * Q) :
  byScoreDescending a b = true -> byScoreDescending b c = true ->
  byScoreDescending a c = true.
Proof.
  unfold byScoreDescending. rewrite !Qle_bool_iff. intros Hab Hbc.
  by eapply Qle_trans.
Qed.

Lemma aboveHalf_spec (q : Q) : aboveHalf q = true <-> (1 # 2 < q)%Q.
Proof.
  unfold aboveHalf. rewrite negb_true_iff. split.
  - intros Hq. apply Qnot_le_lt. intros Hle. apply Qle_bool_iff in Hle. congruence.
  - intros Hq. apply not_true_iff_false. intros Hle.
    apply Qle_bool_iff in Hle. by apply Qlt_not_le in Hq.
Qed.

Section Suggestions.
Context `{Platform}.

Lemma findSimilarAnchors_spec (targetAnchor : string) (hs : list HeadingInfo) :
  let score := calculateSimilarity targetAnchor in
  let ids := findSimilarAnchors targetAnchor hs in
  length ids <= 3
  /\ (forall i, i ∈ ids ->
        (exists h, h ∈ hs /\ id h = i) /\ (1 # 2 < score i)%Q)
  /\ (forall j k a b, j < k -> ids !! j = Some a -> ids !! k = Some b ->
        (score b <= score a)%Q)
  /\ (forall h, h ∈ hs -> (1 # 2 < score (id h))%Q ->
        id h ∈ ids
        \/ (length ids = 3 /\ forall s, s ∈ ids -> (score (id h) <= score s)%Q)).
Proof.
  intros score ids. unfold findSimilarAnchors in ids.
  set (scored := map (fun heading => (id heading, calculateSimilarity targetAnchor (id heading))) hs) in ids.
  set (kept := List.filter (fun s => aboveHalf (snd s)) scored) in ids.
  set (sorted := sortBy byScoreDescending kept) in ids.
  assert (Hkept : forall x, x ∈ kept <->
            exists h, h ∈ hs /\ x = (id h, score (id h)) /\ (1 # 2 < score (id h))%Q).
  { intros x. unfold kept, scored. rewrite list_elem_of_In, filter_In, in_map_iff.
    rewrite aboveHalf_spec. split.
    - intros [(h & <- & Hh) Hq]. exists h. by rewrite list_elem_of_In.
    - intros (h & Hh & -> & Hq). split; [|done]. exists h. by rewrite <- list_elem_of_In. }
  assert (Hperm : Permutation kept sorted) by apply sortBy_perm.
  assert (Hsorted : StronglySorted (fun a b => byScoreDescending a b = true) sorted).
  { apply sortBy_sorted;
      [apply byScoreDescending_total|apply byScoreDescending_trans]. }
  rewrite <- (take_drop 3 sorted) in Hsorted.
  apply StronglySorted_app_inv in Hsorted as [Htop Hcross].
  assert (Hin : forall x, x ∈ take 3 sorted ->
            exists h, h ∈ hs /\ x = (id h, score (id h)) /\ (1 # 2 < score (id h))%Q).
  { intros x Hx. apply Hkept. rewrite Hperm.
    rewrite <- (take_drop 3 sorted). apply elem_of_app. by left. }
  unfold ids. repeat split.
  - rewrite length_map, length_take. lia.
  - apply list_elem_of_fmap in H0 as (x & -> & Hx).
    destruct (Hin x Hx) as (h & Hh & -> & _). by exists h.
  - apply list_elem_of_fmap in H0 as (x & -> & Hx).
    destruct (Hin x Hx) as (h & Hh & -> & Hq). done.
  - intros j k a b Hjk Ha Hb.
    rewrite list_lookup_fmap in Ha, Hb.
    destruct (take 3 sorted !! j) as [x|] eqn:Ex; [|done].
    destruct (take 3 sorted !! k) as [y|] eqn:Ey; [|done].
    injection Ha as <-. injection Hb as <-.
    pose proof (StronglySorted_lookup _ _ Htop j k x y Hjk Ex Ey) as Hxy.
    apply Qle_bool_iff in Hxy.
    destruct (Hin x) as (hx & _ & -> & _); [by eapply list_elem_of_lookup_2|].
    destruct (Hin y) as (hy & _ & -> & _); [by eapply list_elem_of_lookup_2|].
    done.
  - intros h Hh Hq.
    assert (Hx : (id h, score (id h)) ∈ sorted).
    { rewrite <- Hperm. apply Hkept. by exists h. }
    rewrite <- (take_drop 3 sorted) in Hx. apply elem_of_app in Hx as [Hx|Hx].
    + left. apply list_elem_of_fmap. by exists (id h, score (id h)).
    + right. split.
      * rewrite length_map, length_take.
        destruct (decide (length sorted <= 3)) as [Hle|]; [|lia].
        rewrite drop_ge in Hx by done. by apply elem_of_nil in Hx.
      * intros s Hs. apply list_elem_of_fmap in Hs as (y & -> & Hy).
        specialize (Hcross y _ Hy Hx). apply Qle_bool_iff in Hcross.
        destruct (Hin y Hy) as (hy & _ & -> & _). done.
Qed.

Lemma getFileHeadings_returns fs cache filePath projectRoot :
  exists r cache', getFileHeadings fs cache filePath projectRoot = (Normal r, cache').
Proof.
  unfold getFileHeadings.
  destruct (fileExists fs (joinPaths [projectRoot; filePath])) eqn:Ef; simpl;
    [|by eauto].
  destruct (cache !! filePath); [by eauto|].
  apply fileExists_true in Ef as [content Hc]. unfold readFile. rewrite Hc.
  by eauto.
Qed.

Lemma existsb_false_forall {A} (f : A -> bool) (l : list A) :
  (forall x, x ∈ l -> f x = false) -> existsb f l = false.
Proof.
  intros Hl. apply not_true_iff_false. intros He.
  apply existsb_exists in He as (x & Hx & Hfx).
  apply list_elem_of_In in Hx. rewrite (Hl x Hx) in Hfx. done.
Qed.

Lemma lowerChar_again (c : ascii) : Js.lowerChar (Js.lowerChar c) = Js.lowerChar c.
Proof. destruct c as [[] [] [] [] [] [] [] []]; vm_compute; reflexivity. Qed.

Lemma toLowerCase_again (s : string) :
  Js.toLowerCase (Js.toLowerCase s) = Js.toLowerCase s.
Proof.
  induction s as [|c s IH]; [done|].
  cbn [Js.toLowerCase]. by rewrite lowerChar_again, IH.
Qed.

Lemma length_zero_empty (s : string) : String.length s = 0 -> s = "".
Proof. by destruct s. Qed.

(** The score of the source is the quotient that the specification names,
    for two texts that differ when case is ignored: the longer of them is
    then not empty. *)
Lemma calculateSimilarity_quotient (a i : string) :
  Js.toLowerCase i <> Js.toLowerCase a ->
  (calculateSimilarity (Js.toLowerCase a) i
   == 1 - inject_Z (Z.of_nat (levenshtein (Js.toLowerCase a) (Js.toLowerCase i)))
          / inject_Z (Z.of_nat (Nat.max (String.length (Js.toLowerCase a))
                                        (String.length (Js.toLowerCase i)))))%Q.
Proof.
  intros Hdiffer. unfold calculateSimilarity. rewrite toLowerCase_again.
  set (x := Js.toLowerCase a) in *. set (y := Js.toLowerCase i) in *.
  destruct (Nat.max (String.length x) (String.length y)) as [|m] eqn:Emax.
  { exfalso. apply Hdiffer.
    rewrite (length_zero_empty x), (length_zero_empty y); [done|lia|lia]. }
  cbn [Nat.eqb]. rewrite <- Pos.of_nat_succ.
  change (Z.of_nat (S m)) with (Z.pos (Pos.of_succ_nat m)).
  rewrite (Qmake_Qdiv (Z.of_nat (levenshtein x y)) (Pos.of_succ_nat m)).
  reflexivity.
Qed.

End Suggestions.

(** C8. [validateAnchor] always returns.  When no heading id of the target
    file matches the anchor, exactly or up to case, its suggestions are at
    most three heading ids.  Each has a similarity score above one half,
    the score of an id being one less the edit distance between anchor and
    id, both in lower case, over the length of the longer of the two.  The
    suggestions stand in the order of descending score, and no heading id
    left out scores more than one that is suggested.  For the anchor
    [instalation] and a file whose only heading id is [installation], that
    id is suggested. *)
Theorem validateAnchor_suggestions :
  (forall (P : Platform) (fs : FileSystem) (cache : HeadingsCache)
          (targetFile anchor projectRoot : string),
      exists result cache',
        validateAnchor fs cache targetFile anchor projectRoot = (Normal result, cache')
        /\ forall fileHeadings,
             fst (getFileHeadings fs cache targetFile projectRoot)
             = Normal (Some fileHeadings) ->
             (forall h, h ∈ headings fileHeadings ->
                 id h <> Js.toLowerCase anchor
                 /\ Js.toLowerCase (id h) <> Js.toLowerCase anchor) ->
             let editDistance i :=
               levenshtein (Js.toLowerCase anchor) (Js.toLowerCase i) in
             let maxLength i :=
               Nat.max (String.length (Js.toLowerCase anchor))
                       (String.length (Js.toLowerCase i)) in
             let score i :=
               (1 - inject_Z (Z.of_nat (editDistance i))
                    / inject_Z (Z.of_nat (maxLength i)))%Q in
             let ids := default [] (suggestions result) in
             anchor_valid result = false
             /\ length ids <= 3
             /\ (forall i, i ∈ ids ->
                   (exists h, h ∈ headings fileHeadings /\ id h = i)
                   /\ (1 # 2 < score i)%Q)
             /\ (forall j k a b, j < k -> ids !! j = Some a -> ids !! k = Some b ->
                   (score b <= score a)%Q)
             /\ (forall h, h ∈ headings fileHeadings -> (1 # 2 < score (id h))%Q ->
                   id h ∈ ids
                   \/ (length ids = 3
                       /\ forall s, s ∈ ids -> (score (id h) <= score s)%Q)))
  /\ fst (validateAnchor (H:=posix) Sample.guide ∅ "guide.md" "instalation" "root")
     = Normal {| anchor_valid := false;
                 anchor_error := Some "Anchor not found: #instalation in guide.md";
                 suggestions := Some ["installation"] |}.
Proof.
  split; [|vm_compute; reflexivity].
  intros P fs cache targetFile anchor projectRoot.
  unfold validateAnchor.
  destruct (getFileHeadings_returns fs cache targetFile projectRoot)
    as (r & cache' & ->).
  destruct r as [fileHeadings|]; [|eexists _, _; split; [reflexivity|done]].
  destruct (existsb (fun h => String.eqb (id h) (Js.toLowerCase anchor))
              (headings fileHeadings)) eqn:Eexact.
  { eexists _, _. split; [reflexivity|]. intros fh [= <-] Hno. exfalso.
    apply existsb_exists in Eexact as (h & Hh & Heq).
    apply String.eqb_eq in Heq. apply list_elem_of_In in Hh.
    by destruct (Hno h Hh). }
  destruct (existsb (fun h => String.eqb (Js.toLowerCase (id h)) (Js.toLowerCase anchor))
              (headings fileHeadings)) eqn:Ecase.
  { eexists _, _. split; [reflexivity|]. intros fh [= <-] Hno. exfalso.
    apply existsb_exists in Ecase as (h & Hh & Heq).
    apply String.eqb_eq in Heq. apply list_elem_of_In in Hh.
    by destruct (Hno h Hh). }
  eexists _, _. split; [reflexivity|].
  intros fh [= <-] Hno.
  pose (score := fun i =>
    (1 - inject_Z (Z.of_nat (levenshtein (Js.toLowerCase anchor) (Js.toLowerCase i)))
         / inject_Z (Z.of_nat (Nat.max (String.length (Js.toLowerCase anchor))
                                       (String.length (Js.toLowerCase i)))))%Q).
  cbn [anchor_valid suggestions].
  pose proof (findSimilarAnchors_spec (Js.toLowerCase anchor) (headings fileHeadings))
    as Hspec. cbv zeta in Hspec.
  set (found := findSimilarAnchors (Js.toLowerCase anchor) (headings fileHeadings))
    in *.
  assert (Hids : default [] match found with [] => None | _ => Some found end = found).
  { by destruct found. }
  rewrite Hids. clear Hids.
  destruct Hspec as (Hlen & Hmem & Hord & Hbest).
  assert (Hscore : forall h, h ∈ headings fileHeadings ->
            (calculateSimilarity (Js.toLowerCase anchor) (id h) == score (id h))%Q).
  { intros h Hh. apply calculateSimilarity_quotient. by apply Hno. }
  assert (Hscore' : forall i, i ∈ found ->
            (calculateSimilarity (Js.toLowerCase anchor) i == score i)%Q).
  { intros i Hi. destruct (Hmem i Hi) as [(h & Hh & <-) _]. by apply Hscore. }
  subst score. cbv beta in Hscore, Hscore'.
  split; [done|]. split; [done|]. split; [|split].
  - intros i Hi. destruct (Hmem i Hi) as [Hh Hhalf]. split; [done|].
    by rewrite <- (Hscore' i Hi).
  - intros j k a b Hjk Ha Hb.
    rewrite <- (Hscore' a), <- (Hscore' b);
      [by apply (Hord j k)|by eapply list_elem_of_lookup_2..].
  - intros h Hh Hhalf. rewrite <- (Hscore h Hh) in Hhalf.
    destruct (Hbest h Hh Hhalf) as [Hin|[Hfull Hle]]; [by left|right].
    split; [done|]. intros s Hs.
    rewrite <- (Hscore h Hh), <- (Hscore' s Hs). by apply Hle.
Qed.

(** The general half on the guide: the suggestion it returns for
    [instalation] scores above one half, by its edit distance over its
    length. *)
Lemma validateAnchor_suggestions_witness :
  exists result cache',
    validateAnchor (H:=posix) Sample.guide ∅ "guide.md" "instalation" "root"
    = (Normal result, cache')
    /\ forall i, i ∈ default [] (suggestions result) ->
         (1 # 2 < 1 - inject_Z (Z.of_nat (levenshtein (Platform:=posix) "instalation"
                                            (Js.toLowerCase i)))
                      / inject_Z (Z.of_nat (Nat.max 11 (String.length
                                                           (Js.toLowerCase i)))))%Q.
Proof.
  destruct (proj1 validateAnchor_suggestions posix Sample.guide ∅
              "guide.md" "instalation" "root") as (result & cache' & Hrun & Hspec).
  exists result, cache'. split; [exact Hrun|].
  destruct (Hspec (parseMarkdownHeadings "guide.md" "# Installation"))
    as (_ & _ & Hscore & _).
  - vm_compute. reflexivity.
  - intros h Hh. vm_compute in Hh. apply list_elem_of_singleton in Hh as ->.
    split; vm_compute; discriminate.
  - intros i Hi. apply (Hscore i Hi).
Defined.

(** ** The navigation forest *)

Lemma depthAt_app_old (es : list SummaryEntry) e q :
  q < length es -> depthAt (es ++ [e]) q = depthAt es q.
Proof. intros Hq. unfold depthAt. by rewrite lookup_app_l. Qed.

Lemma depthAt_app_new (es : list SummaryEntry) e :
  depthAt (es ++ [e]) (length es) = depth e.
Proof. unfold depthAt. by rewrite list_lookup_middle. Qed.

Lemma length_pushChild (es : list SummaryEntry) p c :
  length (pushChild es p c) = length es.
Proof. unfold pushChild. destruct (es !! p); [by rewrite length_insert|done]. Qed.

Lemma depthAt_pushChild (es : list SummaryEntry) p c q :
  depthAt (pushChild es p c) q = depthAt es q.
Proof.
  unfold pushChild. destruct (es !! p) as [e|] eqn:Ep; [|done].
  unfold depthAt. destruct (decide (q = p)) as [->|Hne].
  - rewrite list_lookup_insert_eq by (by eapply lookup_lt_Some). by rewrite Ep.
  - by rewrite list_lookup_insert_ne.
Qed.

Lemma lookup_pushChild (es : list SummaryEntry) p c q e :
  pushChild es p c !! q = Some e ->
  exists e0, es !! q = Some e0 /\ depth e = depth e0
    /\ children e = if decide (q = p) then children e0 ++ [c] else children e0.
Proof.
  unfold pushChild. destruct (es !! p) as [ep|] eqn:Ep.
  - destruct (decide (q = p)) as [->|Hne].
    + rewrite list_lookup_insert_eq by (by eapply lookup_lt_Some).
      intros [= <-]. by exists ep.
    + rewrite list_lookup_insert_ne by done. intros Hq. by exists e.
  - intros Hq. exists e. repeat split; [done|].
    case_decide; [|done]. subst. congruence.
Qed.

Lemma nearestShallower_ext (d d' : Ref -> nat) p c :
  (forall q, q <= c -> d q = d' q) ->
  nearestShallower d p c -> nearestShallower d' p c.
Proof.
  intros Hd (Hpc & Hlt & Hmin). repeat split; [done|..].
  - rewrite <- !Hd by lia. done.
  - intros q Hq. rewrite <- !Hd by lia. by apply Hmin.
Qed.

Lemma noShallower_ext (d d' : Ref -> nat) c :
  (forall q, q <= c -> d q = d' q) -> noShallower d c -> noShallower d' c.
Proof.
  intros Hd Hc q Hq. rewrite <- !Hd by lia. by apply Hc.
Qed.

Lemma nearestShallower_unique (d : Ref -> nat) p p' c :
  nearestShallower d p c -> nearestShallower d p' c -> p = p'.
Proof.
  intros (Hpc & Hlt & Hmin) (Hpc' & Hlt' & Hmin').
  destruct (Nat.lt_trichotomy p p') as [Hl|[->|Hl]]; [|done|].
  - specialize (Hmin p'). lia.
  - specialize (Hmin' p). lia.
Qed.

Lemma ancestorChain_ext (d d' : Ref -> nat) n (stack : list Ref) :
  (forall q, q < n -> d q = d' q) ->
  Forall (fun a => a < n) stack ->
  ancestorChain d stack -> ancestorChain d' stack.
Proof.
  intros Hd. induction stack as [|a below IH]; [done|].
  intros Hb [Ha Hchain]. apply Forall_cons in Hb as [Han Hb].
  split; [|by apply IH].
  destruct below as [|b below'].
  - eapply noShallower_ext; [|exact Ha]. intros q Hq. apply Hd. lia.
  - eapply nearestShallower_ext; [|exact Ha]. intros q Hq. apply Hd. lia.
Qed.

(** What the pops leave: the nearest shallower entry on top, or nothing
    when no entry is shallower. *)
Lemma popDeeper_spec (es : list SummaryEntry) (n dn : nat) (stack : list Ref) :
  ancestorChain (depthAt es) stack ->
  match stack with
  | [] => forall q, q < n -> dn <= depthAt es q
  | a :: _ => a < n /\ forall q, a < q < n -> dn <= depthAt es q
  end ->
  match popDeeper es dn stack with
  | [] => forall q, q < n -> dn <= depthAt es q
  | top :: rest =>
      ancestorChain (depthAt es) (top :: rest)
      /\ top < n /\ depthAt es top < dn
      /\ (forall q, top < q < n -> dn <= depthAt es q)
      /\ exists popped, stack = popped ++ top :: rest
  end.
Proof.
  induction stack as [|a below IH]; [done|].
  intros Hchain [Han Habove]. cbn [popDeeper].
  destruct (dn <=? depthAt es a) eqn:Ecmp.
  - apply Nat.leb_le in Ecmp. destruct Hchain as [Ha Hbelow].
    assert (Hnext : match below with
      | [] => forall q, q < n -> dn <= depthAt es q
      | b :: _ => b < n /\ forall q, b < q < n -> dn <= depthAt es q
      end).
    { destruct below as [|b below'].
      - intros q Hq. destruct (Nat.lt_trichotomy q a) as [Hl|[->|Hl]].
        + specialize (Ha q Hl). lia.
        + done.
        + apply Habove. lia.
      - destruct Ha as (Hba & Hlt & Hmin). split; [lia|].
        intros q Hq. destruct (Nat.lt_trichotomy q a) as [Hl|[->|Hl]].
        + specialize (Hmin q). lia.
        + done.
        + apply Habove. lia. }
    specialize (IH Hbelow Hnext).
    destruct (popDeeper es dn below) as [|top rest]; [done|].
    destruct IH as (H1 & H2 & H3 & H4 & popped & ->).
    do 4 (split; [done|]). by exists (a :: popped).
  - apply Nat.leb_gt in Ecmp. do 4 (split; [done|]). by exists [].
Qed.

Lemma ancestorChain_suffix (d : Ref -> nat) (popped rest : list Ref) :
  ancestorChain d (popped ++ rest) -> ancestorChain d rest.
Proof.
  induction popped as [|a popped IH]; [done|]. intros [_ Hc]. by apply IH.
Qed.

Lemma ancestorChain_bound (d : Ref -> nat) (stack : list Ref) (top : Ref) rest :
  ancestorChain d (top :: rest) -> Forall (fun a => a <= top) (top :: rest).
Proof.
  revert top. induction rest as [|b rest IH]; intros top Hc.
  { by repeat constructor. }
  destruct Hc as [(Hbt & _) Hc]. constructor; [done|].
  eapply Forall_impl; [exact (IH b Hc)|]. simpl. lia.
Qed.

Lemma addEntry_forestInv (st : ParserState) lineNumber indent title path :
  forestInv st -> forestInv (addEntry st lineNumber indent title path).
Proof.
  intros [Hchildren Hroots Hchain Htop Hbound].
  set (n := length (st_store st)) in *.
  set (dn := String.length indent / 2).
  set (entry := {| title := Js.trim title; path := path; summary_line := lineNumber;
                   depth := dn; children := [] |}).
  set (S1 := st_store st ++ [entry]).
  assert (Hlen1 : length S1 = S n) by (unfold S1; rewrite length_app; simpl; lia).
  assert (Hold : forall q, q < n -> depthAt S1 q = depthAt (st_store st) q).
  { intros q Hq. by apply depthAt_app_old. }
  assert (Hnew : depthAt S1 n = dn) by apply depthAt_app_new.
  assert (Hchain1 : ancestorChain (depthAt S1) (st_parentStack st)).
  { eapply ancestorChain_ext; [|exact Hbound|exact Hchain].
    intros q Hq. symmetry. by apply Hold. }
  (* children of an old entry never reach the new index *)
  assert (Hkids : forall p c e, S1 !! p = Some e ->
            (c ∈ children e <-> c < n /\ nearestShallower (depthAt S1) p c)).
  { intros p c e Hp. unfold S1 in Hp.
    apply lookup_app_Some in Hp as [Hp|[Hge Hp]].
    - rewrite (Hchildren p c e Hp). fold n. split.
      + intros [Hc Hn]. split; [done|].
        eapply nearestShallower_ext; [|exact Hn]. intros q Hq.
        symmetry. apply Hold. lia.
      + intros [Hc Hn]. split; [done|].
        eapply nearestShallower_ext; [|exact Hn]. intros q Hq.
        apply Hold. lia.
    - fold n in Hge, Hp. destruct (p - n) as [|k] eqn:Ek; simpl in Hp; [|done].
      injection Hp as <-. simpl. split.
      + intros Hc. by apply elem_of_nil in Hc.
      + intros [Hc (Hpc & _)]. lia. }
  assert (Holdroots : forall c, c < n ->
            (noShallower (depthAt (st_store st)) c <-> noShallower (depthAt S1) c)).
  { intros c Hc. split; apply noShallower_ext; intros q Hq;
      [symmetry|]; apply Hold; lia. }
  unfold addEntry. fold dn entry n S1.
  destruct (dn =? 0) eqn:Ezero.
  { apply Nat.eqb_eq in Ezero.
    constructor; cbn [st_store st_entries st_parentStack].
    - intros p c e Hp. rewrite (Hkids p c e Hp), Hlen1. split.
      + intros [Hc Hn]. split; [lia|done].
      + intros [Hc Hn]. split; [|done].
        destruct (decide (c = n)) as [->|]; [|lia].
        destruct Hn as (_ & Hlt & _). rewrite Hnew in Hlt. lia.
    - intros c. rewrite elem_of_app, list_elem_of_singleton, Hroots, Hlen1.
      fold n. split.
      + intros [[Hc Hr]| ->].
        * split; [lia|]. by apply Holdroots.
        * split; [lia|]. intros q Hq. rewrite Hnew. lia.
      + intros [Hc Hr]. destruct (decide (c = n)) as [->|]; [by right|].
        left. split; [lia|]. apply Holdroots; [lia|done].
    - split; [|done]. intros q Hq. rewrite Hnew. lia.
    - by rewrite Hlen1.
    - constructor; [|constructor]. rewrite Hlen1. lia. }
  apply Nat.eqb_neq in Ezero.
  pose proof (popDeeper_spec S1 n dn (st_parentStack st) Hchain1) as Hpop.
  assert (Habove : match st_parentStack st with
            | [] => forall q, q < n -> dn <= depthAt S1 q
            | a :: _ => a < n /\ forall q, a < q < n -> dn <= depthAt S1 q
            end).
  { destruct (st_parentStack st) as [|a below].
    - intros q Hq. lia.
    - split; [lia|]. intros q Hq. lia. }
  specialize (Hpop Habove).
  destruct (popDeeper S1 dn (st_parentStack st)) as [|top rest] eqn:Epop.
  - (* no shallower entry: a new root *)
    constructor; cbn [st_store st_entries st_parentStack].
    + intros p c e Hp. rewrite (Hkids p c e Hp), Hlen1. split.
      * intros [Hc Hn]. split; [lia|done].
      * intros [Hc Hn]. split; [|done].
        destruct (decide (c = n)) as [->|]; [|lia].
        destruct Hn as (Hpn & Hlt & _). rewrite Hnew in Hlt.
        specialize (Hpop p Hpn). lia.
    + intros c. rewrite elem_of_app, list_elem_of_singleton, Hroots, Hlen1.
      fold n. split.
      * intros [[Hc Hr]| ->].
        -- split; [lia|]. by apply Holdroots.
        -- split; [lia|]. intros q Hq. rewrite Hnew. by apply Hpop.
      * intros [Hc Hr]. destruct (decide (c = n)) as [->|]; [by right|].
        left. split; [lia|]. apply Holdroots; [lia|done].
    + split; [|done]. intros q Hq. rewrite Hnew. by apply Hpop.
    + by rewrite Hlen1.
    + constructor; [|constructor]. rewrite Hlen1. lia.
  - (* the new entry becomes the last child of the top of the stack *)
    destruct Hpop as (Hc & Htopn & Hlt & Hmin & popped & Hstack).
    assert (Hparent : nearestShallower (depthAt S1) top n).
    { repeat split; [done|by rewrite Hnew|]. intros q Hq. rewrite Hnew. by apply Hmin. }
    assert (Hdepth : forall q, depthAt (pushChild S1 top n) q = depthAt S1 q).
    { intros q. apply depthAt_pushChild. }
    assert (Hns : forall p c, nearestShallower (depthAt (pushChild S1 top n)) p c
                              <-> nearestShallower (depthAt S1) p c).
    { intros p c. split; apply nearestShallower_ext; intros q _; by rewrite Hdepth. }
    assert (Hnos : forall c, noShallower (depthAt (pushChild S1 top n)) c
                             <-> noShallower (depthAt S1) c).
    { intros c. split; apply noShallower_ext; intros q _; by rewrite Hdepth. }
    constructor; cbn [st_store st_entries st_parentStack].
    + intros p c e Hp. rewrite length_pushChild, Hlen1, Hns.
      apply lookup_pushChild in Hp as (e0 & Hp0 & _ & ->).
      pose proof (Hkids p c e0 Hp0) as Hk.
      case_decide as Hpt.
      * subst p. rewrite elem_of_app, list_elem_of_singleton, Hk. split.
        -- intros [[Hc' Hn]| ->]; (split; [lia|done]).
        -- intros [Hc' Hn]. destruct (decide (c = n)) as [->|]; [by right|].
           left. split; [lia|done].
      * rewrite Hk. split.
        -- intros [Hc' Hn]. split; [lia|done].
        -- intros [Hc' Hn]. split; [|done].
           destruct (decide (c = n)) as [->|]; [|lia].
           exfalso. apply Hpt. by eapply nearestShallower_unique.
    + intros c. rewrite Hroots, length_pushChild, Hlen1, Hnos. fold n. split.
      * intros [Hc' Hr]. split; [lia|]. by apply Holdroots.
      * intros [Hc' Hr]. destruct (decide (c = n)) as [->|].
        -- specialize (Hr top Htopn). rewrite Hnew in Hr. lia.
        -- split; [lia|]. apply Holdroots; [lia|done].
    + split; [by apply Hns|].
      rewrite Hstack in Hbound. apply Forall_app in Hbound as [_ Hb].
      eapply (ancestorChain_ext _ _ n); [|exact Hb|exact Hc].
      intros q _. symmetry. apply Hdepth.
    + by rewrite length_pushChild, Hlen1.
    + rewrite length_pushChild, Hlen1. constructor; [lia|].
      rewrite Hstack in Hbound. apply Forall_app in Hbound as [_ Hb].
      eapply Forall_impl; [exact Hb|]. simpl. fold n. lia.
Qed.

Lemma map_depth_pushChild (es : list SummaryEntry) p c :
  map depth (pushChild es p c) = map depth es.
Proof.
  unfold pushChild. destruct (es !! p) as [e|] eqn:Ep; [|done].
  change (map depth) with (fmap (M:=list) depth).
  rewrite list_fmap_insert. cbn [depth]. apply list_insert_id.
  rewrite list_lookup_fmap. by rewrite Ep.
Qed.

Lemma map_depth_addEntry (st : ParserState) lineNumber indent title path :
  map depth (st_store (addEntry st lineNumber indent title path))
  = map depth (st_store st) ++ [String.length indent / 2].
Proof.
  unfold addEntry. destruct (_ =? 0).
  { cbn [st_store]. by rewrite map_app. }
  destruct (popDeeper _ _ _); cbn [st_store].
  - by rewrite map_app.
  - by rewrite map_depth_pushChild, map_app.
Qed.

Lemma forestInv_initial :
  forestInv {| st_store := []; st_entries := []; st_allPaths := [];
               st_parentStack := [] |}.
Proof.
  constructor; cbn [st_store st_entries st_parentStack]; try done.
  intros c. split.
  - intros Hc. by apply elem_of_nil in Hc.
  - simpl. lia.
Qed.

Section Forest.
Context `{Platform}.

Lemma cleanLinkPath_returns (link : string) :
  exists cleaned, cleanLinkPath link = Normal cleaned.
Proof.
  unfold cleanLinkPath, decodeLink.
  destruct (decodeURIComponent link); simpl; by eauto.
Qed.

Lemma parseLines_forest (lines : list string) (lineNumber : Z) (st : ParserState) :
  forestInv st ->
  exists st',
    parseLines lines lineNumber st = Normal st'
    /\ forestInv st'
    /\ map depth (st_store st')
       = map depth (st_store st)
         ++ map (fun m => String.length (fst (fst m)) / 2) (omap matchEntry lines).
Proof.
  revert lineNumber st. induction lines as [|line lines IH]; intros lineNumber st Hinv.
  { exists st. simpl. by rewrite app_nil_r. }
  cbn [parseLines omap list_omap].
  destruct (matchEntry line) as [[[indent title] rawPath]|]; [|by apply IH].
  destruct (cleanLinkPath_returns (Js.trim rawPath)) as (cleaned & ->). simpl.
  destruct (IH (lineNumber + 1)%Z (addEntry st lineNumber indent title cleaned))
    as (st' & Hrun & Hinv' & Hdepth).
  { by apply addEntry_forestInv. }
  exists st'. split; [done|]. split; [done|].
  by rewrite Hdepth, map_depth_addEntry, <- app_assoc.
Qed.

(** C9. [parseSummary] returns for every summary file that can be read.
    The entries of the store are the list items of the file in their order,
    each with the depth of its indentation (its width divided by two).  An
    entry is a child of exactly the nearest entry before it whose depth is
    strictly less than its own, and it is a root exactly when no entry
    before it is less deep; so every child is strictly deeper than its
    parent, whatever the indentation of the file. *)
Theorem parseSummary_forest (fs : FileSystem) (summaryPath content : string) :
  fs !! summaryPath = Some content ->
  exists s,
    parseSummary fs summaryPath = Normal s
    /\ map depth (store s)
       = map (fun m => String.length (fst (fst m)) / 2)
             (omap matchEntry (Js.split "010" content))
    /\ (forall p c e, store s !! p = Some e ->
          (c ∈ children e <->
           c < length (store s) /\ nearestShallower (depthAt (store s)) p c))
    /\ (forall c, c ∈ summary_entries s <->
          c < length (store s) /\ noShallower (depthAt (store s)) c)
    /\ (forall p c e, store s !! p = Some e -> c ∈ children e ->
          depthAt (store s) p < depthAt (store s) c).
Proof.
  intros Hfile. unfold parseSummary, readFile. rewrite Hfile. simpl.
  destruct (parseLines_forest (Js.split "010" content) 1 _ forestInv_initial)
    as (st & -> & [Hchildren Hroots _ _ _] & Hdepth).
  simpl. eexists. split; [reflexivity|]. cbn [store summary_entries].
  split; [exact Hdepth|]. split; [exact Hchildren|]. split; [exact Hroots|].
  intros p c e Hp Hc. apply (Hchildren p c e Hp) in Hc as [_ (_ & Hlt & _)]. done.
Qed.

End Forest.

(** The summary of the sample: eight entries, three of them roots. *)
Lemma parseSummary_forest_witness :
  exists s,
    parseSummary (H:=posix) Sample.summary "root/SUMMARY.md" = Normal s
    /\ map depth (store s) = [0; 1; 3; 2; 0; 1; 2; 0]
    /\ summary_entries s = [0; 4; 7].
Proof.
  destruct (parseSummary_forest (H:=posix) Sample.summary "root/SUMMARY.md"
              (default "" (Sample.summary !! "root/SUMMARY.md")))
    as (s & Hs & Hdepth & _).
  - vm_compute. reflexivity.
  - exists s. split; [exact Hs|]. split.
    + rewrite Hdepth. vm_compute. reflexivity.
    + vm_compute in Hs. injection Hs as <-. reflexivity.
Defined.

(** ** Rewriting the sources *)

Lemma getSubstitution_plain (matched before after replacement : string) :
  Js.includes replacement "$" = false ->
  getSubstitution matched before after replacement = replacement.
Proof.
  induction replacement as [|c rest IH]; [done|].
  cbn [Js.includes getSubstitution]. intros Hno.
  apply orb_false_iff in Hno as [Hc Hrest].
  cbn [Js.startsWith] in Hc. rewrite andb_true_r, Ascii.eqb_sym in Hc.
  rewrite Hc. by rewrite (IH Hrest).
Qed.

Lemma append_cons (c : ascii) (p s : string) :
  String c p +:+ s = String c (p +:+ s).
Proof. reflexivity. Qed.

Lemma startsWith_app (p s : string) : Js.startsWith (p +:+ s) p = true.
Proof.
  induction p as [|c p IH]; [by destruct s|].
  rewrite append_cons. cbn [Js.startsWith]. by rewrite Ascii.eqb_refl, IH.
Qed.

Lemma includes_app_l (p s : string) : Js.includes (p +:+ s) p = true.
Proof.
  pose proof (startsWith_app p s) as Hp.
  destruct (p +:+ s); cbn [Js.includes]; by rewrite Hp.
Qed.

Lemma includes_char_app (a b : string) (c : ascii) :
  Js.includes (a +:+ b) (String c "")
  = Js.includes a (String c "") || Js.includes b (String c "").
Proof.
  induction a as [|x a IH]; [done|].
  rewrite append_cons. cbn [Js.includes Js.startsWith].
  by rewrite IH, orb_assoc.
Qed.

Lemma drop_empty (n : nat) : Js.drop n "" = "".
Proof. by destruct n. Qed.

(** A global replacement either changes nothing or leaves the
    replacement text in its result. *)
Lemma replaceFrom_unchanged_or_contains (literal replacement before s : string)
    (skip : nat) :
  Js.includes replacement "$" = false ->
  replaceFrom literal replacement before s skip = Js.drop skip s
  \/ Js.includes (replaceFrom literal replacement before s skip) replacement = true.
Proof.
  intros Hplain. revert before skip.
  induction s as [|c s IH]; intros before skip.
  { left. by rewrite drop_empty. }
  cbn [replaceFrom]. destruct skip as [|skip]; [|by apply IH].
  destruct (matchLinkPattern literal (String c s)) as [after|].
  - right. rewrite getSubstitution_plain by done. apply includes_app_l.
  - destruct (IH (before +:+ String c "") 0) as [->|Hin].
    + by left.
    + right. cbn [Js.includes]. rewrite Hin. apply orb_true_r.
Qed.

(** A link that is replaced by a target without dollar sign leaves that
    target, between its parentheses, on the line. *)
Lemma replaceLink_contains (current : string) (link : ParsedLink)
    (newTarget updatedLine : string) :
  Js.includes newTarget "$" = false ->
  replaceLink current link newTarget = Some updatedLine ->
  Js.includes updatedLine ("](" +:+ newTarget +:+ ")") = true.
Proof.
  intros Hplain. unfold replaceLink.
  assert (Hrep : Js.includes ("](" +:+ newTarget +:+ ")") "$" = false).
  { by rewrite !includes_char_app, Hplain. }
  destruct (replaceFrom_unchanged_or_contains (linkLiteral link)
              ("](" +:+ newTarget +:+ ")") "" current 0 Hrep) as [Hsame|Hin].
  - rewrite Hsame. simpl. by rewrite String.eqb_refl.
  - destruct (String.eqb _ current); [done|]. by intros [= <-].
Qed.

Section Rewriting.
Context `{Platform}.



Lemma applyFileFixes_unmarked (fileFixes : list Fix) (lines : list string) :
  Forall (fun r => redirectAdded r = false) (fst (applyFileFixes fileFixes lines)).
Proof.
  revert lines. induction fileFixes as [|[b s] rest IH]; intros lines; [constructor|].
  cbn [applyFileFixes].
  repeat match goal with
  | |- context [if ?c then _ else _] => destruct c
  | |- context [match replaceLink ?a ?b ?c with _ => _ end] =>
      destruct (replaceLink a b c)
  | |- context [let '(_, _) := applyFileFixes rest ?l in _] =>
      let Hl := fresh in pose proof (IH l) as Hl; destruct (applyFileFixes rest l)
  end; by constructor.
Qed.

Lemma applyGroups_unmarked fs projectRoot (groups : list (string * list Fix))
    results fs' :
  applyGroups fs projectRoot groups = (Normal results, fs') ->
  Forall (fun r => redirectAdded r = false) results.
Proof.
  revert fs results fs'.
  induction groups as [|[file fileFixes] groups IH]; intros fs results fs'.
  { intros [= <- <-]. constructor. }
  cbn [applyGroups]. destruct (readFile fs _) as [content|]; [|done].
  pose proof (applyFileFixes_unmarked (sortBy byLineDescending fileFixes)
                (Js.split "010" content)) as Hfile.
  destruct (applyFileFixes _ _) as [here lines].
  destruct (applyGroups _ projectRoot groups) as [[later|] fs''] eqn:Erest; [|done].
  intros [= <- <-]. apply Forall_app. split; [done|by eapply IH].
Qed.

(** The fixes of a file are applied from its last line to its first. *)
Lemma fixes_by_descending_line (fileFixes : list Fix) :
  Permutation fileFixes (sortBy byLineDescending fileFixes)
  /\ forall j k a b, j < k ->
       sortBy byLineDescending fileFixes !! j = Some a ->
       sortBy byLineDescending fileFixes !! k = Some b ->
       (line (link (fix_broken b)) <= line (link (fix_broken a)))%Z.
Proof.
  split; [apply sortBy_perm|].
  intros j k a b Hjk Ha Hb. apply Z.leb_le.
  refine (StronglySorted_lookup (fun x y => byLineDescending x y = true)
            _ _ j k a b Hjk Ha Hb).
  apply sortBy_sorted.
  - intros x y Hxy. unfold byLineDescending in *.
    apply Z.leb_gt in Hxy. apply Z.leb_le. lia.
  - intros x y z Hxy Hyz. unfold byLineDescending in *.
    apply Z.leb_le in Hxy, Hyz. apply Z.leb_le. lia.
Qed.

(** The parts of C3 that hold for every input: a result is returned with
    [redirectAdded] only if its fix succeeded, the flag was set, at least
    one entry was generated and the table file was written; and when no
    entry is generated the results and the files are those of
    [applyFixes]. *)
Lemma redirectAdded_after_append fs (fixes : list Fix)
    (projectRoot gitbookYamlPath : string) (addRedirectsFlag : bool)
    results (redirectsAdded : nat) fs' :
  applyFixesWithRedirects fs fixes projectRoot gitbookYamlPath addRedirectsFlag
  = (Normal (results, redirectsAdded), fs') ->
  (forall r, r ∈ results -> redirectAdded r = true ->
     success r = true /\ addRedirectsFlag = true /\ 0 < redirectsAdded
     /\ is_Some (fs' !! gitbookYamlPath))
  /\ (forall fixResults fs1,
        applyFixes fs fixes projectRoot = (Normal fixResults, fs1) ->
        generateRedirectEntries fixResults = [] ->
        results = fixResults /\ redirectsAdded = 0 /\ fs' = fs1).
Proof.
  unfold applyFixesWithRedirects.
  destruct (applyFixes fs fixes projectRoot) as [[fixResults|] fs1] eqn:Efix; [|done].
  pose proof (applyGroups_unmarked _ _ _ _ _ Efix) as Hunmarked.
  rewrite Forall_forall in Hunmarked.
  assert (Hplain : (Normal (fixResults, 0), fs1) = (Normal (results, redirectsAdded), fs') ->
    (forall r, r ∈ results -> redirectAdded r = true ->
       success r = true /\ addRedirectsFlag = true /\ 0 < redirectsAdded
       /\ is_Some (fs' !! gitbookYamlPath))
    /\ (forall fixResults0 fs0,
          (Normal fixResults, fs1) = (Normal fixResults0, fs0) ->
          generateRedirectEntries fixResults0 = [] ->
          results = fixResults0 /\ redirectsAdded = 0 /\ fs' = fs0)).
  { intros [= <- <- <-]. split.
    - intros r Hr Hmark. rewrite (Hunmarked r Hr) in Hmark. done.
    - by intros ? ? [= <- <-]. }
  destruct addRedirectsFlag; [|done].
  destruct (0 <? length (generateRedirectEntries fixResults)) eqn:Esome; [|done].
  apply Nat.ltb_lt in Esome.
  unfold applyRedirects, addRedirects.
  destruct (generateRedirectEntries fixResults) as [|entry more] eqn:Egen;
    [simpl in Esome; lia|].
  destruct (readFile fs1 gitbookYamlPath) as [content|]; [|done].
  intros [= <- <- <-]. split.
  - intros r Hr Hmark. apply list_elem_of_fmap in Hr as (r0 & -> & Hr0).
    unfold markRedirectAdded in *. destruct (success r0) eqn:Es.
    + split; [done|]. split; [done|]. split; [simpl; lia|].
      unfold writeFile. rewrite lookup_insert_eq. by eexists.
    + rewrite (Hunmarked r0 Hr0) in Hmark. done.
  - intros ? ? [= <- <-] Hnil. congruence.
Qed.

End Rewriting.

(** C4, where the code departs from it.  The page has broken links on
    its second and fourth lines; both fixes succeed, the other three lines
    are written back unchanged, and the fourth line holds its new target.
    The new target of the second line is [./pricing-$$.md], and the line
    written is [[one](./pricing-$.md)]: the replacement text is read as a
    replacement pattern, in which two dollar signs stand for one. *)
Theorem applyFixes_dollar_in_target :
  let run := applyFixes (H:=posix) Sample.twoLinks Sample.twoFixes "root" in
  match fst run with
  | Normal results =>
      map (fun r => (line (originalLink r), success r)) results
      = [(4%Z, true); (2%Z, true)]
  | Throw _ => False
  end
  /\ toRelativeLink (H:=posix) "a.md" "pricing-$$.md" = "./pricing-$$.md"
  /\ snd run !! "root/a.md"
     = Some (Js.join Js.newline
               [ "intro"; "[one](./pricing-$.md)"; "middle";
                 "[two](./found.md)"; "end" ])
  /\ Js.includes "[one](./pricing-$.md)" "./pricing-$$.md" = false.
Proof. vm_compute. repeat split; reflexivity. Qed.

(** C3, where the code departs from it.  Both fixes succeed.  The redirect
    derived from the link [../old.md] is skipped for its parent-directory
    traversal, the only entry appended to the table is the one of
    [./gone.md], and both results are returned with [redirectAdded]. *)
Theorem applyFixesWithRedirects_marks_skipped_fix :
  let run := applyFixesWithRedirects (H:=posix) Sample.parentLink
               Sample.parentFixes "root" "root/.gitbook.yaml" true in
  match fst run with
  | Normal (results, redirectsAdded) =>
      map (fun r => (target (originalLink r), success r, redirectAdded r)) results
      = [("./gone.md", true, true); ("../old.md", true, true)]
      /\ generateRedirectEntries results = [("gone", "docs/here.md")]
      /\ redirectsAdded = 1
  | Throw _ => False
  end
  /\ snd run !! "root/.gitbook.yaml"
     = Some (Js.join Js.newline
               [ "root: ./"; ""; "redirects:"; "  x: y.md";
                 "  gone: docs/here.md"; "" ]).
Proof. vm_compute. repeat split; reflexivity. Qed.

(** * Further properties *)

Lemma size_list_to_set_le (l : list string) :
  size (list_to_set l : gset string) <= length l.
Proof.
  induction l as [|x l IH].
  - change (size (∅ : gset string) <= 0). by rewrite size_empty.
  - change (size ({[x]} ∪ list_to_set l : gset string) <= S (length l)).
    rewrite size_union_alt, size_singleton.
    assert (Hsub : list_to_set l ∖ {[x]} ⊆ (list_to_set l : gset string)).
    { intros y Hy. apply elem_of_difference in Hy. tauto. }
    apply subseteq_size in Hsub. lia.
Qed.

(** X1. The statistics of a batch add up: every result is valid, broken or
    has a redirect available, the broken ones are those that
    [getBrokenLinks] returns, and the files affected are at most the
    results with an issue, none exactly when every result is valid. *)
Theorem getValidationStats_adds_up (results : list ValidationResult) :
  let stats := getValidationStats results in
  stats_total stats
  = stats_valid stats + stats_broken stats + stats_redirectAvailable stats
  /\ stats_broken stats = length (getBrokenLinks results)
  /\ stats_filesAffected stats <= stats_broken stats + stats_redirectAvailable stats
  /\ (stats_filesAffected stats = 0 <-> stats_valid stats = stats_total stats).
Proof.
  simpl.
  assert (Hcount :
    length results
    = length (List.filter (hasStatus valid) results)
      + length (List.filter (hasStatus broken) results)
      + length (List.filter (hasStatus redirect_available) results)
    /\ length (List.filter hasIssue results)
       = length (List.filter (hasStatus broken) results)
         + length (List.filter (hasStatus redirect_available) results)).
  { induction results as [|r rs [IH1 IH2]]; [done|].
    cbn [List.filter]. unfold hasIssue, hasStatus in *.
    destruct (status r); repeat case_bool_decide; try done; simpl; lia. }
  destruct Hcount as [Htotal Hissues].
  split; [done|]. split; [done|]. split.
  - rewrite <- Hissues. etrans; [apply size_list_to_set_le|]. by rewrite length_map.
  - rewrite size_empty_iff. split.
    + intros Hempty.
      destruct (List.filter hasIssue results) as [|r rs] eqn:E.
      * simpl in Hissues. lia.
      * exfalso. simpl in Hempty. set_solver.
    + intros Hvalid.
      destruct (List.filter hasIssue results) as [|r rs] eqn:E.
      * done.
      * simpl in Hissues. lia.
Qed.

Section LinkValidatorFacts.
Context `{Platform}.

Lemma validateLink_echo fs sourceFile_ link_ projectRoot redirectMap :
  sourceFile (validateLink fs sourceFile_ link_ projectRoot redirectMap) = sourceFile_
  /\ link (validateLink fs sourceFile_ link_ projectRoot redirectMap) = link_.
Proof.
  unfold validateLink.
  repeat (case_decide || case_match); done.
Qed.

Lemma validateAllLinks_flat_map fs allFileLinks projectRoot redirectMap :
  validateAllLinks fs allFileLinks projectRoot redirectMap
  = flat_map (fun fl => validateFileLinks fs fl projectRoot redirectMap) allFileLinks.
Proof.
  unfold validateAllLinks.
  assert (Hgen : forall acc,
    fold_left (fun results fileLinks =>
                 results ++ validateFileLinks fs fileLinks projectRoot redirectMap)
              allFileLinks acc
    = acc ++ flat_map (fun fl => validateFileLinks fs fl projectRoot redirectMap)
               allFileLinks).
  { induction allFileLinks as [|fl fls IH]; intros acc; simpl.
    - by rewrite app_nil_r.
    - by rewrite IH, app_assoc. }
  apply Hgen.
Qed.

(** X2. A batch gives one result for every link of every file, in the order
    of the files and of their links, and each result carries the file and
    the link it is about. *)
Theorem validateAllLinks_one_result_per_link (fs : FileSystem)
    (allFileLinks : list FileLinks) (projectRoot : string)
    (redirectMap : option RedirectMap) :
  map (fun r => (sourceFile r, link r))
      (validateAllLinks fs allFileLinks projectRoot redirectMap)
  = flat_map (fun fl => map (pair (links_filePath fl)) (links fl)) allFileLinks.
Proof.
  rewrite validateAllLinks_flat_map.
  induction allFileLinks as [|fl fls IH]; simpl; [done|].
  rewrite map_app, IH. f_equal.
  unfold validateFileLinks. rewrite map_map.
  apply map_ext. intros l.
  by destruct (validateLink_echo fs (links_filePath fl) l projectRoot redirectMap)
    as [-> ->].
Qed.

Lemma resolveRelativeLink_exists fs sourceFile_ linkTarget projectRoot :
  let r := resolveRelativeLink fs sourceFile_ linkTarget projectRoot in
  exists_ r = fileExists fs (joinPaths [projectRoot; resolved r]).
Proof. unfold resolveRelativeLink. by case_match. Qed.

(** X3. For a link to a page or an asset, the verdict [valid] is given exactly
    when the path recorded in the result names a file under the project
    root; and a result has an error message exactly when it is not valid. *)
Theorem validateLink_valid_iff_exists (fs : FileSystem) (sourceFile_ : string)
    (link_ : ParsedLink) (projectRoot : string) (redirectMap : option RedirectMap) :
  let result := validateLink fs sourceFile_ link_ projectRoot redirectMap in
  (status result = valid <-> error result = None)
  /\ (type link_ = internal \/ type link_ = asset ->
      exists p, resolvedPath result = Some p
                /\ (status result = valid <-> pathExists fs p projectRoot = true)).
Proof.
  unfold validateLink, pathExists.
  pose proof (resolveRelativeLink_exists fs sourceFile_ (target link_) projectRoot)
    as Hexists. simpl in Hexists.
  destruct (decide (type link_ = external)) as [Hext|_].
  { split; [done|]. intros [?|?]; congruence. }
  destruct (decide (type link_ = anchor_only)) as [Hanchor|_].
  { split; [done|]. intros [?|?]; congruence. }
  destruct (exists_ _) eqn:Eexists.
  { split; [done|]. intros _. eexists. split; [done|]. simpl. by rewrite <- Hexists. }
  assert (Hno : forall A (x y : A), x = y <-> x = y) by done.
  destruct redirectMap as [table|]; simpl.
  - destruct (findRedirectTarget table _) as [redirectTarget|]; simpl.
    + destruct (Js.truthy redirectTarget && fileExists fs _); simpl.
      * split; [done|]. intros _. eexists. split; [done|].
        rewrite <- Hexists. done.
      * split; [done|]. intros _. eexists. split; [done|].
        rewrite <- Hexists. done.
    + split; [done|]. intros _. eexists. split; [done|]. rewrite <- Hexists. done.
  - split; [done|]. intros _. eexists. split; [done|]. rewrite <- Hexists. done.
Qed.

End LinkValidatorFacts.

(** ** The lower tiers of the suggestion engine *)

Lemma byDistanceAscending_total (a b : string * nat) :
  byDistanceAscending a b = false -> byDistanceAscending b a = true.
Proof.
  unfold byDistanceAscending. rewrite Nat.leb_gt, Nat.leb_le. lia.
Qed.

Lemma byDistanceAscending_trans (a b c : string * nat) :
  byDistanceAscending a b = true -> byDistanceAscending b c = true ->
  byDistanceAscending a c = true.
Proof.
  unfold byDistanceAscending. rewrite !Nat.leb_le. lia.
Qed.

(** The head of a sorted list comes before every element, and is one of
    the elements sorted. *)
Lemma sortBy_head {A} (cmp : A -> A -> bool) (l : list A) best rest :
  (forall a b, cmp a b = false -> cmp b a = true) ->
  (forall a b c, cmp a b = true -> cmp b c = true -> cmp a c = true) ->
  sortBy cmp l = best :: rest ->
  best ∈ l /\ forall x, x ∈ l -> cmp best x = true.
Proof.
  intros Htotal Htrans Hsorted.
  pose proof (sortBy_perm cmp l) as Hperm.
  pose proof (sortBy_sorted cmp Htotal Htrans l) as Hs.
  rewrite Hsorted in Hperm, Hs.
  split.
  - rewrite Hperm. apply elem_of_cons. by left.
  - intros x Hx. rewrite Hperm in Hx.
    apply StronglySorted_inv in Hs as [_ Hall].
    apply elem_of_cons in Hx as [->|Hx].
    + destruct (cmp best best) eqn:E; [done|]. rewrite <- E. by apply Htotal.
    + rewrite Forall_forall in Hall. by apply Hall.
Qed.

Lemma sortBy_nil {A} (cmp : A -> A -> bool) (l : list A) :
  sortBy cmp l = [] -> l = [].
Proof.
  intros Hs. pose proof (sortBy_perm cmp l) as Hperm. rewrite Hs in Hperm.
  by apply Permutation_nil_r in Hperm.
Qed.

Section LowerTiers.
Context `{Platform}.

(** X4. [findBySimilarity] proposes the file nearest to the broken path in edit
    distance (case ignored), provided that distance is at most five and at
    most three tenths of the length of the broken path; its confidence is
    medium up to distance two and low above.  It proposes nothing exactly
    when every file is farther than that. *)
Theorem findBySimilarity_closest (fs : FileSystem) (brokenPath projectRoot : string)
    (allFilesCache : FilesCache) :
  let files := loadFiles fs projectRoot allFilesCache in
  let d f := levenshtein (Js.toLowerCase brokenPath) (Js.toLowerCase f) in
  let bound := Nat.min 5 (String.length brokenPath * 3 / 10) in
  match fst (findBySimilarity fs brokenPath projectRoot allFilesCache) with
  | Some s =>
      suggestedPath s ∈ files
      /\ d (suggestedPath s) <= bound
      /\ (forall f, f ∈ files -> d (suggestedPath s) <= d f)
      /\ confidence s = (if d (suggestedPath s) <=? 2 then medium else low)
  | None => forall f, f ∈ files -> bound < d f
  end.
Proof.
  intros files d bound. unfold findBySimilarity.
  fold files. cbn [fst].
  set (maxDistance := Nat.min 10 (String.length brokenPath * 3 / 10)).
  set (candidates := List.filter _ _).
  assert (Hcand : forall c, c ∈ candidates <->
            exists f, f ∈ files /\ c = (f, d f) /\ d f <= maxDistance).
  { intros c. unfold candidates.
    rewrite list_elem_of_In, filter_In, in_map_iff, Nat.leb_le. split.
    - intros [(f & <- & Hf) Hle]. exists f. by rewrite list_elem_of_In.
    - intros (f & Hf & -> & Hle). split; [|done]. exists f.
      by rewrite <- list_elem_of_In. }
  destruct (sortBy byDistanceAscending candidates) as [|best rest] eqn:Esorted.
  - apply sortBy_nil in Esorted.
    intros f Hf. destruct (decide (d f <= maxDistance)) as [Hle|Hgt]; [|lia].
    exfalso. assert (Hin : (f, d f) ∈ candidates) by (apply Hcand; eauto).
    rewrite Esorted in Hin. by apply elem_of_nil in Hin.
  - apply sortBy_head in Esorted as [Hbest Hmin];
      [|apply byDistanceAscending_total|apply byDistanceAscending_trans].
    apply Hcand in Hbest as (fb & Hfb & -> & Hdb). cbn [fst snd] in *.
    assert (Hleast : forall f, f ∈ files -> d fb <= d f).
    { intros f Hf. destruct (decide (d f <= maxDistance)) as [Hle|Hgt]; [|lia].
      assert (Hin : (f, d f) ∈ candidates) by (apply Hcand; eauto).
      apply Hmin in Hin. unfold byDistanceAscending in Hin.
      by apply Nat.leb_le in Hin. }
    destruct (d fb <=? 5) eqn:Efive.
    + apply Nat.leb_le in Efive. cbn [suggestedPath confidence].
      repeat split; [done|lia|done].
    + apply Nat.leb_gt in Efive. intros f Hf. specialize (Hleast f Hf). lia.
Qed.

(** X5. [findByBasename] proposes, with medium confidence, a file whose name
    is the name of the broken path up to case: the only such file when there
    is one, and among several the one that shares most segments with the
    broken path, provided its score is above one half. *)
Theorem findByBasename_best_match (fs : FileSystem) (brokenPath projectRoot : string)
    (allFilesCache : FilesCache) :
  let files := loadFiles fs projectRoot allFilesCache in
  let sameName f :=
    String.eqb (Js.toLowerCase (getBasename f true))
               (Js.toLowerCase (getBasename brokenPath true)) in
  let matches := List.filter sameName files in
  let score := calculatePathSimilarity brokenPath in
  match fst (findByBasename fs brokenPath projectRoot allFilesCache) with
  | Some s =>
      confidence s = medium
      /\ suggestedPath s ∈ files /\ sameName (suggestedPath s) = true
      /\ (matches = [suggestedPath s]
          \/ (1 < length matches /\ (1 # 2 < score (suggestedPath s))%Q
              /\ forall m, m ∈ matches -> (score m <= score (suggestedPath s))%Q))
  | None =>
      matches = []
      \/ (1 < length matches /\ forall m, m ∈ matches -> (score m <= 1 # 2)%Q)
  end.
Proof.
  intros files sameName matches score. unfold findByBasename.
  fold files. fold sameName. fold matches. cbn [fst].
  assert (Hmatches : forall m, m ∈ matches <-> m ∈ files /\ sameName m = true).
  { intros m. unfold matches. by rewrite !list_elem_of_In, filter_In. }
  destruct matches as [|m1 [|m2 ms]] eqn:Ematches.
  - by left.
  - cbn [confidence suggestedPath].
    destruct (proj1 (Hmatches m1)) as [Hfile Hname]; [apply elem_of_cons; by left|].
    split; [done|]. split; [done|]. split; [done|]. by left.
  - set (several := m1 :: m2 :: ms) in *.
    destruct (sortBy byScoreDescending _) as [|best rest] eqn:Esorted.
    { apply sortBy_nil in Esorted. discriminate. }
    apply sortBy_head in Esorted as [Hbest Hmax];
      [|apply byScoreDescending_total|apply byScoreDescending_trans].
    apply list_elem_of_fmap in Hbest as (mb & -> & Hmb). cbn [fst snd].
    assert (Hle : forall m, m ∈ several -> (score m <= score mb)%Q).
    { intros m Hm. apply Qle_bool_iff.
      apply (Hmax (m, score m)). apply list_elem_of_fmap. by exists m. }
    assert (Hlen : 1 < length several) by (simpl; lia).
    fold (score mb).
    destruct (aboveHalf (score mb)) eqn:Ehalf.
    + apply aboveHalf_spec in Ehalf. cbn [confidence suggestedPath].
      destruct (proj1 (Hmatches mb) Hmb) as [Hfile Hname].
      split; [done|]. split; [done|]. split; [done|]. by right.
    + right. split; [done|]. intros m Hm.
      unfold aboveHalf in Ehalf. apply negb_false_iff, Qle_bool_iff in Ehalf.
      eapply Qle_trans; [by apply Hle|done].
Qed.

Lemma findByBasename_member fs brokenPath projectRoot cache s :
  fst (findByBasename fs brokenPath projectRoot cache) = Some s ->
  suggestedPath s ∈ loadFiles fs projectRoot cache.
Proof.
  unfold findByBasename. cbn [fst].
  set (matches := List.filter _ _).
  assert (Hsub : forall m, m ∈ matches -> m ∈ loadFiles fs projectRoot cache).
  { intros m. unfold matches. rewrite !list_elem_of_In, filter_In. tauto. }
  destruct matches as [|m1 [|m2 ms]]; [done| |].
  - intros [= <-]. apply Hsub, elem_of_cons. by left.
  - destruct (sortBy byScoreDescending _) as [|best rest] eqn:Esorted; [done|].
    destruct (aboveHalf (snd best)); [|done]. intros [= <-]. cbn [suggestedPath].
    pose proof (sortBy_perm byScoreDescending
                  (map (fun m => (m, calculatePathSimilarity brokenPath m))
                       (m1 :: m2 :: ms))) as Hperm.
    rewrite Esorted in Hperm.
    assert (Hbest : best ∈ map (fun m => (m, calculatePathSimilarity brokenPath m))
                               (m1 :: m2 :: ms)).
    { rewrite Hperm. apply elem_of_cons. by left. }
    apply list_elem_of_fmap in Hbest as (mb & -> & Hmb). by apply Hsub.
Qed.

Lemma findBySimilarity_member fs brokenPath projectRoot cache s :
  fst (findBySimilarity fs brokenPath projectRoot cache) = Some s ->
  suggestedPath s ∈ loadFiles fs projectRoot cache.
Proof.
  unfold findBySimilarity. cbn [fst].
  set (candidates := List.filter _ _).
  destruct (sortBy byDistanceAscending candidates) as [|best rest] eqn:Esorted; [done|].
  destruct (snd best <=? 5); [|done]. intros [= <-]. cbn [suggestedPath].
  pose proof (sortBy_perm byDistanceAscending candidates) as Hperm.
  rewrite Esorted in Hperm.
  assert (Hbest : best ∈ candidates) by (rewrite Hperm; apply elem_of_cons; by left).
  unfold candidates in Hbest.
  rewrite list_elem_of_In, filter_In, in_map_iff in Hbest.
  destruct Hbest as [(f & <- & Hf) _]. by apply list_elem_of_In.
Qed.

Lemma findByCaseVariation_member fs brokenPath projectRoot cache s :
  fst (findByCaseVariation fs brokenPath projectRoot cache) = Some s ->
  suggestedPath s ∈ loadFiles fs projectRoot cache
  /\ suggestedPath s <> brokenPath
  /\ Js.toLowerCase (suggestedPath s) = Js.toLowerCase brokenPath.
Proof.
  unfold findByCaseVariation. cbn [fst].
  destruct (List.find _ _) as [found|] eqn:Efind; [|done].
  apply find_some in Efind as [Hin Hlower].
  destruct (Js.truthy found && negb (found =? brokenPath)%string) eqn:Etest; [|done].
  intros [= <-]. cbn [suggestedPath].
  apply andb_true_iff in Etest as [_ Hne]. apply negb_true_iff in Hne.
  split; [by apply list_elem_of_In|]. split.
  - by apply String.eqb_neq.
  - by apply String.eqb_eq.
Qed.

Lemma firstNeighbor_exists fs projectRoot sourceDir linkTarget neighbors s :
  firstNeighbor fs projectRoot sourceDir linkTarget neighbors = Some s ->
  fileExists fs (joinPaths [projectRoot; suggestedPath s]) = true.
Proof.
  induction neighbors as [|[relative description] rest IH]; simpl; [done|].
  set (resolvedTarget := normalizePath (path_join [sourceDir; relative; "README.md"])).
  destruct (fileExists fs (joinPaths [projectRoot; resolvedTarget])) eqn:Ef;
    simpl; [|done].
  destruct (negb _ && negb _); [|done].
  by intros [= <-].
Qed.

(** The cache after a strategy of the lower tiers is the file list that the
    strategy read, and the strategy answers from that list alone. *)
Lemma lowerTier_cache fs brokenPath projectRoot cache :
  let filled := Some (loadFiles fs projectRoot cache) in
  findByBasename fs brokenPath projectRoot cache
  = findByBasename fs brokenPath projectRoot filled
  /\ findBySimilarity fs brokenPath projectRoot cache
     = findBySimilarity fs brokenPath projectRoot filled
  /\ findByCaseVariation fs brokenPath projectRoot cache
     = findByCaseVariation fs brokenPath projectRoot filled
  /\ snd (findByBasename fs brokenPath projectRoot cache) = filled
  /\ snd (findBySimilarity fs brokenPath projectRoot cache) = filled
  /\ snd (findByCaseVariation fs brokenPath projectRoot cache) = filled.
Proof. by repeat split. Qed.

(** X6. Whatever tier answers, the suggestion names something that is there:
    a file under the project root (the redirect tier and the neighbouring
    README), or a path of the file list that the scan returned. *)
Theorem findFixSuggestion_suggests_known (fs : FileSystem) (b : BrokenLink)
    (projectRoot : string) (redirectMap : RedirectMap) (allFilesCache : FilesCache)
    (s : FixSuggestion) :
  fst (findFixSuggestion fs b projectRoot redirectMap allFilesCache) = Some s ->
  fileExists fs (joinPaths [projectRoot; suggestedPath s]) = true
  \/ suggestedPath s ∈ loadFiles fs projectRoot allFilesCache.
Proof.
  unfold findFixSuggestion.
  set (files := loadFiles fs projectRoot allFilesCache).
  pose proof (firstRedirect_spec fs (brokenPathOf b) redirectMap projectRoot
                (variations (brokenPathOf b))) as Hredirect.
  unfold findRedirectSuggestion.
  destruct (firstRedirect _ _ _ _ _) as [r|].
  { intros [= <-]. left. by destruct Hredirect as (_ & i & w & _ & _ & _ & Hfile & _). }
  clear Hredirect.
  destruct (lowerTier_cache fs (brokenPathOf b) projectRoot allFilesCache)
    as (_ & _ & _ & Hc1 & _).
  pose proof (findByBasename_member fs (brokenPathOf b) projectRoot allFilesCache)
    as Hbasename.
  destruct (findByBasename _ _ _ _) as [[s1|] c1]; cbn [fst snd] in *.
  { intros [= <-]. right. by apply Hbasename. }
  subst c1.
  pose proof (findBySimilarity_member fs (brokenPathOf b) projectRoot (Some files))
    as Hsimilar.
  destruct (findBySimilarity _ _ _ _) as [[s2|] c2] eqn:E2; cbn [fst snd] in *.
  { intros [= <-]. right. by apply Hsimilar. }
  assert (c2 = Some files) as -> by (by injection E2).
  pose proof (findByCaseVariation_member fs (brokenPathOf b) projectRoot (Some files))
    as Hcase.
  destruct (findByCaseVariation _ _ _ _) as [[s3|] c3]; cbn [fst snd] in *.
  { intros [= <-]. right. by apply Hcase. }
  unfold findNeighborReadme.
  destruct (negb _); [done|].
  destruct (firstNeighbor _ _ _ _ _) as [s4|] eqn:E4; [|done].
  intros [= <-]. left. by eapply firstNeighbor_exists.
Qed.

End LowerTiers.

Lemma length_filter_le {A} (f : A -> bool) (l : list A) :
  length (List.filter f l) <= length l.
Proof. induction l as [|x l IH]; simpl; [done|]. destruct (f x); simpl; lia. Qed.

Lemma filter_all {A} (f : A -> bool) (l : list A) :
  (forall x, In x l -> f x = true) -> List.filter f l = l.
Proof.
  induction l as [|x l IH]; simpl; intros Hall; [done|].
  rewrite (Hall x) by auto. f_equal. apply IH. auto.
Qed.

(** X7. The score of two paths is a fraction between zero and one: the share
    of the segments of the first path that occur in the second, over the
    longer of the two segment counts.  A path with a segment scores one
    against itself. *)
Theorem calculatePathSimilarity_bounds (path1 path2 : string) :
  (0 <= calculatePathSimilarity path1 path2 <= 1)%Q
  /\ (pathSegments path1 <> [] -> (calculatePathSimilarity path1 path1 == 1)%Q).
Proof.
  assert (Hpos : forall n, 0 < n -> Z.pos (Pos.of_nat n) = Z.of_nat n).
  { intros n Hn. rewrite <- (Nat2Pos.id n) at 2 by lia. by rewrite positive_nat_Z. }
  unfold calculatePathSimilarity. split; [split|].
  - destruct (0 <? _) eqn:E; [|done].
    unfold Qle. simpl. lia.
  - destruct (0 <? _) eqn:E; [|done]. apply Nat.ltb_lt in E.
    unfold Qle. cbn [Qnum Qden]. rewrite Hpos by done.
    pose proof (length_filter_le
                  (fun seg => existsb (String.eqb seg) (pathSegments path2))
                  (pathSegments path1)). lia.
  - intros Hsome. rewrite Nat.max_id.
    rewrite filter_all.
    + destruct (pathSegments path1) as [|seg segs]; [done|].
      cbn [length]. replace (0 <? S (length segs)) with true
        by (symmetry; apply Nat.ltb_lt; lia).
      unfold Qeq. cbn [Qnum Qden]. rewrite Hpos by lia. lia.
    + intros seg Hseg. apply existsb_exists. exists seg.
      split; [done|]. by apply String.eqb_refl.
Qed.

Section SuggestionBatches.
Context `{Platform}.

(** The answer of [findFixSuggestion] is the same on an empty cache and
    on a cache that holds the file list, and the cache it leaves is the one
    it was given or that list. *)
Lemma findFixSuggestion_cache fs b projectRoot redirectMap cache :
  let filled := Some (loadFiles fs projectRoot cache) in
  fst (findFixSuggestion fs b projectRoot redirectMap cache)
  = fst (findFixSuggestion fs b projectRoot redirectMap filled)
  /\ (snd (findFixSuggestion fs b projectRoot redirectMap cache) = cache
      \/ snd (findFixSuggestion fs b projectRoot redirectMap cache) = filled).
Proof.
  intros filled. unfold findFixSuggestion.
  destruct (findRedirectSuggestion _ _ _ _) as [r|]; [by split; [|left]|].
  destruct (lowerTier_cache fs (brokenPathOf b) projectRoot cache)
    as (E1 & _ & _ & Hc1 & _).
  fold filled in E1, Hc1. rewrite <- E1.
  destruct (findByBasename fs _ _ cache) as [[s1|] c1]; cbn [fst snd] in *;
    subst c1; [by split; [|right]|].
  destruct (findBySimilarity fs _ _ filled) as [[s2|] c2] eqn:E2;
    assert (c2 = filled) as -> by (by injection E2);
    [by split; [|right]|].
  destruct (findByCaseVariation fs _ _ filled) as [[s3|] c3] eqn:E3;
    assert (c3 = filled) as -> by (by injection E3);
    [by split; [|right]|].
  destruct (findNeighborReadme fs b projectRoot); by split; [|right].
Qed.

(** X8. A batch gives every broken link the suggestion that a call on that link
    alone, on an empty cache, would give: the file list kept between the
    calls changes no answer. *)
Theorem findAllFixSuggestions_pointwise (fs : FileSystem)
    (brokenLinks : list BrokenLink) (projectRoot : string) (redirectMap : RedirectMap) :
  fst (findAllFixSuggestions fs brokenLinks projectRoot redirectMap)
  = map (fun b => (b, fst (findFixSuggestion fs b projectRoot redirectMap None)))
        brokenLinks.
Proof.
  unfold findAllFixSuggestions.
  set (scanned := getAllFiles fs projectRoot [".md"]).
  set (step := fun '(results, allFilesCache) brokenLink => _).
  assert (Hgen : forall results cache,
    cache = None \/ cache = Some scanned ->
    fst (fold_left step brokenLinks (results, cache))
    = results
      ++ map (fun b => (b, fst (findFixSuggestion fs b projectRoot redirectMap None)))
             brokenLinks).
  { induction brokenLinks as [|b bs IH]; intros results cache Hcache; simpl.
    - by rewrite app_nil_r.
    - destruct (findFixSuggestion_cache fs b projectRoot redirectMap cache)
        as [Hfst Hsnd].
      destruct (findFixSuggestion_cache fs b projectRoot redirectMap None)
        as [Hfst0 _].
      assert (Hload : loadFiles fs projectRoot cache = scanned)
        by (by destruct Hcache as [-> | ->]).
      rewrite Hload in Hfst, Hsnd. change (loadFiles fs projectRoot None)
        with scanned in Hfst0. rewrite <- Hfst0 in Hfst.
      destruct (findFixSuggestion fs b projectRoot redirectMap cache)
        as [suggestion cache'] eqn:Erun. cbn [fst snd] in *.
      rewrite IH.
      + rewrite <- app_assoc. simpl. by rewrite Hfst.
      + destruct Hsnd as [-> | ->]; [done|by right]. }
  rewrite Hgen by (by left). done.
Qed.

End SuggestionBatches.

Lemma omap_cons {A B} (f : A -> option B) (x : A) (l : list A) :
  omap f (x :: l) = match f x with Some y => y :: omap f l | None => omap f l end.
Proof. done. Qed.

Lemma groupByConfidence_lists (suggestions : SuggestionMap) :
  let pick c :=
    omap (fun '(b, o) => match o with
                         | Some s => if decide (confidence s = c) then Some (b, s) else None
                         | None => None
                         end) suggestions in
  let g := groupByConfidence suggestions in
  groups_high g = pick high /\ groups_medium g = pick medium
  /\ groups_low g = pick low
  /\ groups_none g
     = omap (fun '(b, o) => match o with Some _ => None | None => Some b end)
            suggestions.
Proof.
  intros pick g. unfold g, groupByConfidence.
  set (step := fun result '(brokenLink, suggestion) => _).
  set (none := omap (fun '(b, o) => match o with Some _ => None | None => Some b end)).
  assert (Hgen : forall acc,
    let g := fold_left step suggestions acc in
    groups_high g = groups_high acc ++ pick high
    /\ groups_medium g = groups_medium acc ++ pick medium
    /\ groups_low g = groups_low acc ++ pick low
    /\ groups_none g = groups_none acc ++ none suggestions).
  { unfold pick, none. clear pick g.
    induction suggestions as [|[b [s|]] rest IH]; intros acc; cbn [fold_left].
    - simpl. by rewrite !app_nil_r.
    - destruct (IH (step acc (b, Some s))) as (Hh & Hm & Hl & Hn).
      rewrite Hh, Hm, Hl, Hn. unfold step.
      destruct (confidence s) eqn:Ec; simpl; rewrite ?Ec;
        repeat (case_decide; try congruence); simpl; rewrite <- ?app_assoc; done.
    - destruct (IH (step acc (b, None))) as (Hh & Hm & Hl & Hn).
      rewrite Hh, Hm, Hl, Hn. simpl. rewrite <- ?app_assoc. done. }
  apply (Hgen {| groups_high := []; groups_medium := []; groups_low := [];
                 groups_none := [] |}).
Qed.

(** X9. The four groups are a partition of the suggestions: a pair is in the
    group of its confidence and in no other, a link without suggestion is
    in the last group, and the sizes of the groups add up to the number of
    links. *)
Theorem groupByConfidence_partition (suggestions : SuggestionMap) :
  let g := groupByConfidence suggestions in
  let group c := match c with
                 | high => groups_high g
                 | medium => groups_medium g
                 | low => groups_low g
                 end in
  (forall c b s, (b, s) ∈ group c <-> (b, Some s) ∈ suggestions /\ confidence s = c)
  /\ (forall b, b ∈ groups_none g <-> (b, None) ∈ suggestions)
  /\ length (groups_high g) + length (groups_medium g) + length (groups_low g)
     + length (groups_none g) = length suggestions.
Proof.
  intros g group.
  destruct (groupByConfidence_lists suggestions) as (Hh & Hm & Hl & Hn).
  fold g in Hh, Hm, Hl, Hn.
  assert (Hpick : forall c b s,
    (b, s) ∈ omap (fun '(b, o) =>
                     match o with
                     | Some s => if decide (confidence s = c) then Some (b, s) else None
                     | None => None
                     end) suggestions
    <-> (b, Some s) ∈ suggestions /\ confidence s = c).
  { intros c b s. rewrite list_elem_of_omap. split.
    - intros ([b' [s'|]] & Hin & Hsome); [|done].
      destruct (decide (confidence s' = c)); [|done]. by injection Hsome as -> ->.
    - intros [Hin Hc]. exists (b, Some s). split; [done|].
      by rewrite decide_True. }
  split; [|split].
  - intros c b s. rewrite <- Hpick. unfold group.
    destruct c; by rewrite ?Hh, ?Hm, ?Hl.
  - intros b. rewrite Hn, list_elem_of_omap. split.
    + by intros ([b' [s'|]] & Hin & [= ->]).
    + intros Hin. by exists (b, None).
  - rewrite Hh, Hm, Hl, Hn. clear.
    induction suggestions as [|[b [s|]] rest IH]; [done| |];
      rewrite !omap_cons; cbn beta iota; [|simpl; lia].
    destruct (confidence s) eqn:Ec;
      repeat (case_decide; try congruence); simpl; lia.
Qed.

(** ** Lines *)

Lemma split_not_nil (c : ascii) (s : string) : Js.split c s <> [].
Proof.
  induction s as [|b s IH]; simpl; [done|].
  destruct (Ascii.eqb b c); [done|]. by destruct (Js.split c s).
Qed.

(** Joining the lines of a text with line feeds gives the text back. *)
Lemma join_split (s : string) : Js.join Js.newline (Js.split "010" s) = s.
Proof.
  unfold Js.join. induction s as [|b s IH]; [done|].
  cbn [Js.split]. pose proof (split_not_nil "010" s) as Hne.
  destruct (Ascii.eqb_spec b "010") as [->|Hb].
  - destruct (Js.split "010" s) as [|piece pieces]; [done|].
    cbn [String.concat]. cbn [String.concat] in IH. by rewrite IH.
  - destruct (Js.split "010" s) as [|piece pieces]; [done|].
    cbn [String.concat] in *.
    destruct pieces as [|next pieces].
    + by rewrite IH.
    + rewrite append_cons. by rewrite IH.
Qed.

Lemma groupByFile_spec (fixes : list Fix) (groups : list (string * list Fix)) :
  NoDup (map fst groups) ->
  NoDup (map fst (groupByFile fixes groups))
  /\ Permutation (flat_map snd (groupByFile fixes groups)) (flat_map snd groups ++ fixes)
  /\ (forall g, g ∈ groupByFile fixes groups ->
        fst g ∈ map fst groups
        \/ exists f, f ∈ fixes /\ fst g = sourceFile (fix_broken f)).
Proof.
  revert groups. induction fixes as [|f fixes IH]; intros groups Hdup.
  { simpl. rewrite app_nil_r. split; [done|]. split; [done|].
    intros g Hg. left. apply list_elem_of_fmap. by exists g. }
  cbn [groupByFile].
  set (file := sourceFile (fix_broken f)).
  set (updated := map (fun g => if String.eqb (fst g) file
                                then (fst g, snd g ++ [f]) else g) groups).
  assert (Hkeys : map fst updated = map fst groups).
  { unfold updated. rewrite map_map. apply map_ext. intros g.
    by destruct (String.eqb (fst g) file). }
  assert (Hupdated : existsb (fun g => String.eqb (fst g) file) groups = true ->
            Permutation (flat_map snd updated) (flat_map snd groups ++ [f])).
  { unfold updated. clear IH Hkeys. induction groups as [|g groups IHg]; [done|].
    cbn [existsb map flat_map]. apply NoDup_cons in Hdup as [Hfresh Hdup].
    destruct (String.eqb_spec (fst g) file) as [Hg|Hg]; cbn [orb fst snd].
    - intros _. rewrite <- !app_assoc. apply Permutation_app_head.
      assert (Hrest : map (fun g0 => if String.eqb (fst g0) file
                                     then (fst g0, snd g0 ++ [f]) else g0) groups
                      = groups).
      { rewrite <- (map_id groups) at 2. apply map_ext_in. intros g0 Hg0.
        destruct (String.eqb_spec (fst g0) file) as [Hg0'|]; [|done].
        exfalso. apply Hfresh. rewrite Hg, <- Hg0'.
        apply list_elem_of_fmap. exists g0. by rewrite list_elem_of_In. }
      rewrite Hrest. apply Permutation_app_comm.
    - intros Hex. rewrite <- app_assoc. apply Permutation_app_head. by apply IHg. }
  destruct (existsb (fun g => String.eqb (fst g) file) groups) eqn:Eex.
  - fold updated. destruct (IH updated) as (Hd & Hp & Hk); [by rewrite Hkeys|].
    split; [done|]. split.
    + rewrite Hp, (Hupdated eq_refl), <- app_assoc. done.
    + intros g Hg. destruct (Hk g Hg) as [Hold|(f' & Hf' & Hkey)].
      * left. by rewrite <- Hkeys.
      * right. exists f'. split; [by right|done].
  - destruct (IH (groups ++ [(file, [f])])) as (Hd & Hp & Hk).
    { rewrite map_app. apply NoDup_app. split; [done|]. split.
      - intros k Hk Hk'. apply list_elem_of_singleton in Hk' as ->.
        apply list_elem_of_fmap in Hk as (g & Hg & Hin).
        assert (Hnone : existsb (fun g => String.eqb (fst g) file) groups = true).
        { apply existsb_exists. exists g. split; [by apply list_elem_of_In|].
          simpl in Hg. rewrite <- Hg. apply String.eqb_refl. }
        congruence.
      - apply NoDup_singleton. }
    split; [done|]. split.
    + rewrite Hp, flat_map_app. simpl. rewrite <- app_assoc. done.
    + intros g Hg. destruct (Hk g Hg) as [Hold|(f' & Hf' & Hkey)].
      * rewrite map_app in Hold. apply elem_of_app in Hold as [Hold|Hnew].
        -- by left.
        -- right. exists f. split; [by left|].
           simpl in Hnew. by apply list_elem_of_singleton in Hnew.
      * right. exists f'. split; [by right|done].
Qed.

Section FixBatches.
Context `{Platform}.

Lemma applyFileFixes_keys (fileFixes : list Fix) (lines : list string) :
  map resultKey (fst (applyFileFixes fileFixes lines)) = map fixKey fileFixes.
Proof.
  revert lines. induction fileFixes as [|[b s] rest IH]; intros lines; [done|].
  cbn [applyFileFixes].
  repeat match goal with
  | |- context [if ?c then _ else _] => destruct c
  | |- context [match replaceLink ?a ?b ?c with _ => _ end] =>
      destruct (replaceLink a b c)
  | |- context [let '(_, _) := applyFileFixes rest ?l in _] =>
      let Hl := fresh in pose proof (IH l) as Hl; destruct (applyFileFixes rest l)
  end; cbn [fst map] in *; by f_equal.
Qed.

Lemma applyGroups_keys fs projectRoot (groups : list (string * list Fix)) results fs' :
  applyGroups fs projectRoot groups = (Normal results, fs') ->
  map resultKey results
  = flat_map (fun g => map fixKey (sortBy byLineDescending (snd g))) groups.
Proof.
  revert fs results fs'.
  induction groups as [|[file fileFixes] groups IH]; intros fs results fs'.
  { by intros [= <- <-]. }
  cbn [applyGroups]. destruct (readFile fs _) as [content|]; [|done].
  pose proof (applyFileFixes_keys (sortBy byLineDescending fileFixes)
                (Js.split "010" content)) as Hfile.
  destruct (applyFileFixes _ _) as [here lines].
  destruct (applyGroups _ projectRoot groups) as [[later|] fs''] eqn:Erest; [|done].
  intros [= <- <-]. cbn [flat_map snd fst] in *.
  rewrite map_app, Hfile. f_equal. by eapply IH.
Qed.

(** X10. A batch that returns gives one result for every fix: the results,
    read as source file, link and new path, are the fixes in another order
    (file by file, and in each file from the last line to the first). *)
Theorem applyFixes_one_result_per_fix (fs : FileSystem) (fixes : list Fix)
    (projectRoot : string) (results : list FixResult) (fs' : FileSystem) :
  applyFixes fs fixes projectRoot = (Normal results, fs') ->
  Permutation (map resultKey results) (map fixKey fixes).
Proof.
  unfold applyFixes. intros Hrun. rewrite (applyGroups_keys _ _ _ _ _ Hrun).
  destruct (groupByFile_spec fixes []) as (_ & Hperm & _); [constructor|].
  simpl in Hperm. etrans; [|apply Permutation_map, Hperm].
  generalize (groupByFile fixes []). intros groups.
  induction groups as [|g groups IH]; [done|].
  cbn [flat_map]. rewrite map_app. apply Permutation_app; [|done].
  apply Permutation_map. symmetry. apply sortBy_perm.
Qed.

Lemma applyGroups_frame fs projectRoot (groups : list (string * list Fix)) (p : string) :
  (forall g, g ∈ groups -> joinPaths [projectRoot; fst g] <> p) ->
  snd (applyGroups fs projectRoot groups) !! p = fs !! p.
Proof.
  revert fs. induction groups as [|[file fileFixes] groups IH]; intros fs Hp; [done|].
  cbn [applyGroups]. destruct (readFile fs _) as [content|]; [|done].
  destruct (applyFileFixes _ _) as [here lines].
  specialize (IH (writeFile fs (joinPaths [projectRoot; file])
                    (Js.join Js.newline lines))).
  destruct (applyGroups _ projectRoot groups) as [[later|] fs'']; cbn [snd] in *.
  - rewrite IH by (intros g Hg; apply Hp; by right).
    unfold writeFile. apply lookup_insert_ne. apply (Hp (file, fileFixes)). by left.
  - rewrite IH by (intros g Hg; apply Hp; by right).
    unfold writeFile. apply lookup_insert_ne. apply (Hp (file, fileFixes)). by left.
Qed.

(** X11. A batch writes to the source files of its fixes and to nothing else,
    also when it ends with an exception. *)
Theorem applyFixes_touches_only_sources (fs : FileSystem) (fixes : list Fix)
    (projectRoot p : string) :
  (forall f, f ∈ fixes -> joinPaths [projectRoot; sourceFile (fix_broken f)] <> p) ->
  snd (applyFixes fs fixes projectRoot) !! p = fs !! p.
Proof.
  intros Hp. unfold applyFixes. apply applyGroups_frame.
  intros g Hg. destruct (groupByFile_spec fixes []) as (_ & _ & Hkeys); [constructor|].
  destruct (Hkeys g Hg) as [Hnone|(f & Hf & ->)].
  - by apply elem_of_nil in Hnone.
  - by apply Hp.
Qed.

Lemma applyFileFixes_all_failed (fileFixes : list Fix) (lines : list string) :
  Forall (fun r => success r = false) (fst (applyFileFixes fileFixes lines)) ->
  snd (applyFileFixes fileFixes lines) = lines.
Proof.
  revert lines. induction fileFixes as [|[b s] rest IH]; intros lines; [done|].
  cbn [applyFileFixes].
  repeat match goal with
  | |- context [if ?c then _ else _] => destruct c
  | |- context [match replaceLink ?a ?b ?c with _ => _ end] =>
      destruct (replaceLink a b c)
  | |- context [let '(_, _) := applyFileFixes rest ?l in _] =>
      let Hl := fresh in pose proof (IH l) as Hl; destruct (applyFileFixes rest l)
  end; cbn [fst snd] in *; intros Hall; apply Forall_cons in Hall as [Hhead Hall];
    try done; by auto.
Qed.

Lemma applyGroups_all_failed fs projectRoot (groups : list (string * list Fix))
    results fs' :
  applyGroups fs projectRoot groups = (Normal results, fs') ->
  Forall (fun r => success r = false) results ->
  fs' = fs.
Proof.
  revert fs results fs'.
  induction groups as [|[file fileFixes] groups IH]; intros fs results fs'.
  { by intros [= <- <-]. }
  cbn [applyGroups]. unfold readFile.
  destruct (fs !! joinPaths [projectRoot; file]) as [content|] eqn:Eread; [|done].
  pose proof (applyFileFixes_all_failed (sortBy byLineDescending fileFixes)
                (Js.split "010" content)) as Hfile.
  destruct (applyFileFixes _ _) as [here lines]. cbn [fst snd] in Hfile.
  destruct (applyGroups _ projectRoot groups) as [[later|] fs''] eqn:Erest; [|done].
  intros [= <- <-] Hall. apply Forall_app in Hall as [Hhere Hlater].
  rewrite (IH _ _ _ Erest Hlater), (Hfile Hhere), join_split.
  unfold writeFile. by apply insert_id.
Qed.

(** X12. A batch in which no fix succeeds leaves every file as it was: each
    source file is written back with the text that was read. *)
Theorem applyFixes_all_failed_unchanged (fs : FileSystem) (fixes : list Fix)
    (projectRoot : string) (results : list FixResult) (fs' : FileSystem) :
  applyFixes fs fixes projectRoot = (Normal results, fs') ->
  (forall r, r ∈ results -> success r = false) ->
  fs' = fs.
Proof.
  intros Hrun Hall. eapply applyGroups_all_failed; [exact Hrun|].
  by apply Forall_forall.
Qed.

End FixBatches.

Lemma redirectEntriesFrom_spec (fixResults : list FixResult)
    (redirects : list (string * string)) :
  let entryOf r :=
    (Js.dropSuffix (Js.dropLeadingDotSlash (target (originalLink r))) ".md",
     newPath r) in
  NoDup redirects ->
  NoDup (redirectEntriesFrom fixResults redirects)
  /\ forall e, e ∈ redirectEntriesFrom fixResults redirects <->
       e ∈ redirects
       \/ exists r, r ∈ fixResults /\ success r = true /\ e = entryOf r
                    /\ Js.includes (fst e) ".." = false.
Proof.
  intros entryOf. revert redirects.
  induction fixResults as [|r rest IH]; intros redirects Hdup.
  { simpl. split; [done|]. intros e. split; [by left|].
    intros [He|(r & Hr & _)]; [done|]. by apply elem_of_nil in Hr. }
  cbn [redirectEntriesFrom].
  set (from := Js.dropSuffix (Js.dropLeadingDotSlash (target (originalLink r))) ".md").
  assert (Hentry : entryOf r = (from, newPath r)) by done.
  assert (Hskip : success r = false \/ Js.includes from ".." = true ->
    NoDup (redirectEntriesFrom rest redirects)
    /\ forall e, e ∈ redirectEntriesFrom rest redirects <->
         e ∈ redirects
         \/ exists r0, r0 ∈ r :: rest /\ success r0 = true /\ e = entryOf r0
                       /\ Js.includes (fst e) ".." = false).
  { intros Hwhy. destruct (IH redirects Hdup) as [Hd Hin]. split; [done|].
    intros e. rewrite Hin. split.
    - intros [He|(r0 & Hr0 & Hrest)]; [by left|]. right. exists r0.
      split; [by right|done].
    - intros [He|(r0 & Hr0 & Hs & He & Hdots)]; [by left|].
      apply elem_of_cons in Hr0 as [->|Hr0].
      + destruct Hwhy as [Hf|Hd']; [congruence|]. subst e.
        rewrite Hentry in Hdots. simpl in Hdots. congruence.
      + right. by exists r0. }
  destruct (success r) eqn:Es; [|apply Hskip; by left].
  destruct (Js.includes from "..") eqn:Edots; [apply Hskip; by right|].
  clear Hskip. rewrite <- Hentry.
  set (known := existsb _ redirects).
  assert (Hknown : known = true <-> entryOf r ∈ redirects).
  { unfold known. rewrite existsb_exists. split.
    - intros ([from' to'] & Hin & Heq). apply andb_true_iff in Heq as [Hf Ht].
      apply String.eqb_eq in Hf, Ht. simpl in Hf, Ht.
      apply list_elem_of_In. rewrite Hentry. by rewrite <- Hf, <- Ht.
    - intros Hin. exists (entryOf r). split; [by apply list_elem_of_In|].
      rewrite Hentry. simpl. by rewrite !String.eqb_refl. }
  destruct known.
  - destruct (IH redirects Hdup) as [Hd Hin]. split; [done|].
    intros e. rewrite Hin. split.
    + intros [He|(r0 & Hr0 & Hrest)]; [by left|]. right. exists r0.
      split; [by right|done].
    + intros [He|(r0 & Hr0 & Hs & He & Hdots)]; [by left|].
      apply elem_of_cons in Hr0 as [->|Hr0].
      * left. subst e. by apply Hknown.
      * right. by exists r0.
  - assert (Hfresh : entryOf r ∉ redirects).
    { intros Hin. apply Hknown in Hin. done. }
    destruct (IH (redirects ++ [entryOf r])) as [Hd Hin].
    { apply NoDup_app. split; [done|]. split; [|apply NoDup_singleton].
      intros e He He'. apply list_elem_of_singleton in He' as ->. done. }
    split; [done|].
    intros e. rewrite Hin, elem_of_app, list_elem_of_singleton. split.
    + intros [[He| ->]|(r0 & Hr0 & Hrest)].
      * by left.
      * right. exists r. split; [by left|done].
      * right. exists r0. split; [by right|done].
    + intros [He|(r0 & Hr0 & Hs & He & Hdots)]; [by left; left|].
      apply elem_of_cons in Hr0 as [->|Hr0].
      * left. by right.
      * right. by exists r0.
Qed.

(** X13. The redirects generated from the results of a batch: one pair for
    every successful fix whose old target, read without a leading [./] and
    without the suffix [.md], has no [..] in it, and no pair twice. *)
Theorem generateRedirectEntries_spec (fixResults : list FixResult) :
  let entryOf r :=
    (Js.dropSuffix (Js.dropLeadingDotSlash (target (originalLink r))) ".md",
     newPath r) in
  NoDup (generateRedirectEntries fixResults)
  /\ forall e, e ∈ generateRedirectEntries fixResults <->
       exists r, r ∈ fixResults /\ success r = true /\ e = entryOf r
                 /\ Js.includes (fst e) ".." = false.
Proof.
  intros entryOf. unfold generateRedirectEntries.
  destruct (redirectEntriesFrom_spec fixResults []) as [Hdup Hin]; [constructor|].
  split; [done|]. intros e. rewrite Hin. split.
  - intros [He|Hr]; [by apply elem_of_nil in He|done].
  - intros Hr. by right.
Qed.


Section OneFile.
Context `{Platform}.


(** X15. [applyFix] never throws.  On a file that cannot be read it fails with
    the message of the exception and writes nothing, where the batch of
    that one fix throws; on a file that can be read it succeeds exactly when
    the batch does, and leaves the same files. *)
Theorem applyFix_agrees_with_batch (fs : FileSystem) (b : BrokenLink)
    (s : FixSuggestion) (projectRoot : string) :
  let single := applyFix fs b s projectRoot in
  let batch := applyFixes fs [{| fix_broken := b; fix_suggestion := s |}] projectRoot in
  resultKey (fst single) = (sourceFile b, link b, suggestedPath s)
  /\ match fst batch with
     | Normal results =>
         exists r, results = [r] /\ success r = success (fst single)
                   /\ snd batch = snd single
     | Throw message =>
         success (fst single) = false /\ fix_error (fst single) = Some message
         /\ snd single = fs /\ snd batch = fs
     end.
Proof.
  unfold applyFix, applyFixes.
  cbn [groupByFile existsb app applyGroups sortBy insertBy fix_broken].
  unfold readFile.
  destruct (fs !! joinPaths [projectRoot; sourceFile b]) as [content|] eqn:Eread;
    [|done].
  assert (Hsame : writeFile fs (joinPaths [projectRoot; sourceFile b])
                    (Js.join Js.newline (Js.split "010" content)) = fs).
  { rewrite join_split. unfold writeFile. by apply insert_id. }
  cbn [applyFileFixes].
  destruct (_ || _).
  { cbn [fst snd]. split; [done|]. eexists. by rewrite Hsame. }
  destruct (replaceLink _ _ _) as [updatedLine|].
  - destruct (Js.truthy updatedLine); cbn [fst snd].
    + split; [done|]. by eexists.
    + split; [done|]. eexists. by rewrite Hsame.
  - cbn [fst snd]. split; [done|]. eexists. by rewrite Hsame.
Qed.

End OneFile.

(** ** Suffixes *)

Lemma string_length_app (a b : string) :
  String.length (a +:+ b) = String.length a + String.length b.
Proof. induction a as [|c a IH]; [done|]. rewrite append_cons. simpl. by rewrite IH. Qed.

Lemma app_nil_r_string (a : string) : a +:+ "" = a.
Proof. induction a as [|c a IH]; [done|]. by rewrite append_cons, IH. Qed.

Lemma app_assoc_string (a b c : string) : a +:+ (b +:+ c) = (a +:+ b) +:+ c.
Proof. induction a as [|x a IH]; [done|]. by rewrite !append_cons, IH. Qed.

Lemma app_inv_tail_string (a b p : string) : a +:+ p = b +:+ p -> a = b.
Proof.
  revert b. induction a as [|x a IH]; intros [|y b] Heq; [done| | |].
  - apply (f_equal String.length) in Heq. rewrite !string_length_app in Heq.
    simpl in Heq. lia.
  - apply (f_equal String.length) in Heq. rewrite !string_length_app in Heq.
    simpl in Heq. lia.
  - rewrite !append_cons in Heq. injection Heq as -> Heq. f_equal. by apply IH.
Qed.

Lemma eqb_app_longer (c : ascii) (a p : string) :
  String.eqb (String c (a +:+ p)) p = false.
Proof.
  apply String.eqb_neq. intros Heq. apply (f_equal String.length) in Heq.
  simpl in Heq. rewrite string_length_app in Heq. lia.
Qed.

Lemma endsWith_spec (s p : string) :
  Js.endsWith s p = true <-> exists a, s = a +:+ p.
Proof.
  induction s as [|c s IH]; cbn [Js.endsWith].
  - rewrite orb_false_r, String.eqb_eq. split.
    + intros <-. by exists "".
    + intros ([|x a] & Ha); [done|by rewrite append_cons in Ha].
  - rewrite orb_true_iff, String.eqb_eq, IH. split.
    + intros [<-|(a & ->)]; [by exists ""|]. exists (String c a). by rewrite append_cons.
    + intros ([|x a] & Ha); [by left|]. right. exists a.
      rewrite append_cons in Ha. by injection Ha.
Qed.

Lemma endsWith_app (a p : string) : Js.endsWith (a +:+ p) p = true.
Proof. apply endsWith_spec. by exists a. Qed.

Lemma replaceSuffix_app (a p r : string) : replaceSuffix (a +:+ p) p r = a +:+ r.
Proof.
  induction a as [|c a IH].
  - change ("" +:+ p) with p. destruct p; simpl; by rewrite ?Ascii.eqb_refl, ?String.eqb_refl.
  - rewrite !append_cons. cbn [replaceSuffix]. by rewrite eqb_app_longer, IH.
Qed.

Lemma replaceSuffix_none (s p r : string) :
  Js.endsWith s p = false -> replaceSuffix s p r = s.
Proof.
  induction s as [|c s IH]; cbn [Js.endsWith replaceSuffix]; intros Hno;
    apply orb_false_iff in Hno as [Hne Hrest]; rewrite Hne; [done|].
  by rewrite IH.
Qed.

Lemma app_eq_length (a p b q : string) :
  String.length p = String.length q -> a +:+ p = b +:+ q -> a = b /\ p = q.
Proof.
  intros Hlen. revert b. induction a as [|x a IH]; intros [|y b] Heq.
  - done.
  - apply (f_equal String.length) in Heq. rewrite !string_length_app in Heq.
    simpl in Heq. lia.
  - apply (f_equal String.length) in Heq. rewrite !string_length_app in Heq.
    simpl in Heq. lia.
  - rewrite !append_cons in Heq. injection Heq as -> Heq.
    destruct (IH b Heq) as [-> ->]. done.
Qed.

(** A suffix, read from its end: the last characters agree, and what is
    before them is a suffix of what is before them. *)
Lemma endsWith_app_app (a p b q : string) :
  String.length p = String.length q ->
  Js.endsWith (a +:+ p) (b +:+ q) = true -> p = q /\ Js.endsWith a b = true.
Proof.
  intros Hlen Hends. apply endsWith_spec in Hends as (c & Hc).
  rewrite app_assoc_string in Hc.
  destruct (app_eq_length _ _ _ _ Hlen Hc) as [-> ->].
  split; [done|apply endsWith_app].
Qed.

(** ** Pages and their sources *)

(** X16. The address of a built page leads back to its source: [htmlToMd]
    undoes [mdToHtml] on every Markdown path, a [README.md] included, unless
    the file is called [index.md]. *)
Theorem htmlToMd_mdToHtml (mdPath : string) :
  Js.endsWith mdPath ".md" = true ->
  Js.endsWith mdPath "/index.md" = false ->
  htmlToMd (mdToHtml mdPath) = mdPath.
Proof.
  intros Hmd Hindex. apply endsWith_spec in Hmd as (stem & ->).
  unfold mdToHtml. rewrite replaceSuffix_app.
  destruct (Js.endsWith stem "/README") eqn:Ereadme.
  - apply endsWith_spec in Ereadme as (dir & ->).
    rewrite <- app_assoc_string.
    change ("/README" +:+ ".html") with "/README.html".
    rewrite replaceSuffix_app. unfold htmlToMd.
    rewrite (replaceSuffix_none (dir +:+ "/") ".html").
    2: { apply not_true_iff_false. intros Hends.
         by destruct (endsWith_app_app dir "/" ".htm" "l" eq_refl Hends). }
    rewrite (replaceSuffix_none (dir +:+ "/") "/index.md").
    2: { apply not_true_iff_false. intros Hends.
         by destruct (endsWith_app_app dir "/" "/index.m" "d" eq_refl Hends). }
    rewrite endsWith_app. by rewrite <- !app_assoc_string.
  - rewrite (replaceSuffix_none (stem +:+ ".html") "/README.html").
    2: { apply not_true_iff_false. intros Hends.
         destruct (endsWith_app_app stem ".html" "/README" ".html" eq_refl Hends).
         congruence. }
    unfold htmlToMd. rewrite replaceSuffix_app.
    rewrite (replaceSuffix_none _ "/index.md") by done.
    replace (Js.endsWith (stem +:+ ".md") "/") with false; [done|].
    symmetry. apply not_true_iff_false. intros Hends.
    change ".md" with (".m" +:+ "d") in Hends.
    rewrite (app_assoc_string stem ".m" "d") in Hends.
    by destruct (endsWith_app_app (stem +:+ ".m") "d" "" "/" eq_refl Hends).
Qed.

(** ** The link record *)

Lemma includes_char (s : string) (c : ascii) :
  Js.includes s (String c "")
  = match s with
    | EmptyString => false
    | String b s' => Ascii.eqb b c || Js.includes s' (String c "")
    end.
Proof.
  destruct s as [|b s]; [done|]. cbn [Js.includes Js.startsWith].
  by rewrite andb_true_r, Ascii.eqb_sym.
Qed.

Lemma indexOf_none (s : string) (c : ascii) :
  Js.indexOf s c = None <-> Js.includes s (String c "") = false.
Proof.
  induction s as [|b s IH]; [done|].
  rewrite includes_char. cbn [Js.indexOf].
  destruct (Ascii.eqb b c); [done|]. cbn [orb]. rewrite <- IH.
  by destruct (Js.indexOf s c).
Qed.

Lemma indexOf_split (s : string) (c : ascii) (i : nat) :
  Js.indexOf s c = Some i ->
  s = Js.take i s +:+ String c (Js.drop (S i) s)
  /\ Js.includes (Js.take i s) (String c "") = false.
Proof.
  revert i. induction s as [|b s IH]; intros i; [done|].
  cbn [Js.indexOf]. destruct (Ascii.eqb_spec b c) as [->|Hb].
  - by intros [= <-].
  - destruct (Js.indexOf s c) as [j|]; [|done]. intros [= <-].
    destruct (IH j eq_refl) as [Hs Hno]. cbn [Js.take Js.drop].
    rewrite append_cons, includes_char, Hno.
    split; [by f_equal|]. apply orb_false_iff. split; [|done].
    by apply Ascii.eqb_neq.
Qed.

Section LinkRecord.
Context `{Platform}.

(** X17. [createParsedLink] gives no record for an external link and one for
    every other link.  The record cuts the link at its first [#]: the
    target has no [#], target and anchor put together again are the link,
    and a link is of the kind anchor-only exactly when it starts with [#].
    Unless the anchor is empty, the text that the fixer looks for on the
    line is the link that was passed to [createParsedLink]; that is the
    link after [cleanLinkPath], which is not the text on the line when the
    link is written with an escape. *)
Theorem createParsedLink_splits (raw text linkTarget : string) (line column : Z) :
  match createParsedLink raw text linkTarget line column with
  | None => isExternalLink linkTarget = true
  | Some l =>
      isExternalLink linkTarget = false
      /\ type l <> external
      /\ (type l = anchor_only <-> Js.startsWith linkTarget "#" = true)
      /\ Js.includes (target l) "#" = false
      /\ linkTarget = target l +:+ match anchor l with
                                  | Some a => "#" +:+ a
                                  | None => ""
                                  end
      /\ (anchor l = None <-> Js.includes linkTarget "#" = false)
      /\ (anchor l <> Some "" -> linkLiteral l = linkTarget)
  end.
Proof.
  unfold createParsedLink.
  destruct (isExternalLink linkTarget) eqn:Eext; [by rewrite decide_True|].
  set (kind := if isAnchorOnly linkTarget then anchor_only
               else if isAssetLink linkTarget then asset else internal).
  assert (Hkind : kind <> external).
  { unfold kind. by repeat case_match. }
  rewrite decide_False by done.
  cbn [type target anchor]. split; [done|]. split; [done|]. split.
  { unfold kind, isAnchorOnly. by repeat case_match. }
  destruct (Js.indexOf linkTarget "#") as [i|] eqn:Eindex.
  - destruct (indexOf_split _ _ _ Eindex) as [Hsplit Hno].
    split; [done|]. split; [done|]. split.
    + split; [done|]. intros Hnone. apply indexOf_none in Hnone. congruence.
    + intros Hanchor. unfold linkLiteral. cbn [target anchor].
      destruct (Js.drop (S i) linkTarget) as [|c rest] eqn:Edrop; [done|].
      cbn [Js.truthy String.eqb negb]. symmetry. exact Hsplit.
  - apply indexOf_none in Eindex.
    split; [done|]. split; [by rewrite app_nil_r_string|]. split; [done|].
    intros _. unfold linkLiteral. cbn [target anchor]. apply app_nil_r_string.
Qed.

End LinkRecord.

(** ** The check of the redirect table *)

Section RedirectCheck.
Context `{Platform}.
Variable dirExists : string -> bool.

Lemma collectIssues_spec fs redirects projectRoot bookDir skippedIssues brokenIssues :
  let conflict r :=
    hasRedirectConflict fs (redirect_from r) (redirect_to r) projectRoot in
  let missing r :=
    negb (targetPathExists dirExists fs (redirect_to r) projectRoot bookDir) in
  collectIssues dirExists fs redirects projectRoot bookDir skippedIssues brokenIssues
  = (skippedIssues ++ map (fun r => issueOf r "source path exists as different content")
                    (List.filter conflict redirects),
     brokenIssues ++ map (fun r => issueOf r "target does not exist")
                   (List.filter missing redirects)).
Proof.
  intros conflict missing. revert skippedIssues brokenIssues.
  induction redirects as [|r rest IH]; intros skippedIssues brokenIssues.
  { simpl. by rewrite !app_nil_r. }
  cbn [collectIssues List.filter]. rewrite IH. fold (conflict r). fold (missing r).
  destruct (conflict r), (missing r); cbn [map]; by rewrite <- ?app_assoc.
Qed.

(** X18. The report of the redirect check lists, in the order of the table, the
    redirects whose source is a page of its own and those whose target is
    missing.  Its count of valid redirects is the number of redirects with
    neither fault less the number of redirects with both, which are
    counted in both lists. *)
Theorem checkRedirects_counts (fs : FileSystem) (redirects : list ParsedRedirectEntry)
    (projectRoot : string) (bookDir : option string) :
  let conflict r :=
    hasRedirectConflict fs (redirect_from r) (redirect_to r) projectRoot in
  let missing r :=
    negb (targetPathExists dirExists fs (redirect_to r) projectRoot bookDir) in
  let report := checkRedirects dirExists fs redirects projectRoot bookDir in
  check_skipped report
  = map (fun r => issueOf r "source path exists as different content")
        (List.filter conflict redirects)
  /\ check_broken report
     = map (fun r => issueOf r "target does not exist") (List.filter missing redirects)
  /\ check_valid report
     = (Z.of_nat (length (List.filter (fun r => negb (conflict r) && negb (missing r))
                                      redirects))
        - Z.of_nat (length (List.filter (fun r => conflict r && missing r) redirects)))%Z.
Proof.
  intros conflict missing. unfold checkRedirects.
  rewrite collectIssues_spec. fold conflict. fold missing.
  cbn [check_skipped check_broken check_valid app].
  split; [done|]. split; [done|]. rewrite !length_map.
  induction redirects as [|r rest IH]; [done|].
  cbn [List.filter length]. destruct (conflict r), (missing r); cbn [negb andb length]; lia.
Qed.

End RedirectCheck.

Lemma tableAgrees_snoc es fromTo toFrom e :
  tableAgrees es fromTo toFrom ->
  tableAgrees (es ++ [e]) (<[entry_from e := entry_to e]> fromTo)
    (<[entry_to e := default [] (toFrom !! entry_to e) ++ [entry_from e]]> toFrom).
Proof.
  intros [Hfrom Hto]. split.
  - intros k. rewrite filter_app, filter_cons, filter_nil.
    destruct (decide (entry_from e = k)) as [<-|Hne].
    + by rewrite lookup_insert_eq, last_snoc.
    + rewrite lookup_insert_ne by done. by rewrite app_nil_r.
  - intros t. rewrite filter_app, filter_cons, filter_nil.
    destruct (decide (entry_to e = t)) as [<-|Hne].
    + rewrite lookup_insert_eq, (Hto (entry_to e)).
      destruct (filter _ es) as [|x xs]; [done|].
      simpl. by rewrite map_app.
    + rewrite lookup_insert_ne by done. rewrite app_nil_r. apply Hto.
Qed.

Lemma parseYamlLines_agrees (lines : list string) (i : Z) (st : YamlState) :
  (0 <= i)%Z ->
  tableAgrees (yaml_entries st) (yaml_fromToMap st) (yaml_toFromMap st) ->
  Forall (fun e => (1 <= entry_line e <= i)%Z) (yaml_entries st) ->
  StronglySorted Z.lt (map entry_line (yaml_entries st)) ->
  let st' := parseYamlLines lines i st in
  tableAgrees (yaml_entries st') (yaml_fromToMap st') (yaml_toFromMap st')
  /\ Forall (fun e => (1 <= entry_line e <= i + Z.of_nat (length lines))%Z)
            (yaml_entries st')
  /\ StronglySorted Z.lt (map entry_line (yaml_entries st')).
Proof.
  revert i st. induction lines as [|line rest IH]; intros i st Hi Hagree Hbound Hsorted.
  { simpl. split; [done|]. split; [|done].
    eapply Forall_impl; [exact Hbound|]. intros e He. simpl in He. lia. }
  cbn [parseYamlLines length].
  assert (Hmore : Forall (fun e => (1 <= entry_line e <= i + 1)%Z) (yaml_entries st)).
  { eapply Forall_impl; [exact Hbound|]. intros e He. simpl in He. lia. }
  replace (i + Z.of_nat (S (length rest)))%Z with (i + 1 + Z.of_nat (length rest))%Z
    by lia.
  apply IH; [lia|..]; unfold parseYamlLine;
    repeat (case_match; cbn [yaml_entries yaml_fromToMap yaml_toFromMap]);
    try done.
  - by apply tableAgrees_snoc.
  - apply Forall_app. split; [done|]. constructor; [simpl; lia|constructor].
  - rewrite map_app. cbn [map entry_line].
    clear -Hbound Hsorted. induction (yaml_entries st) as [|e es IHes].
    + repeat constructor.
    + cbn [map app] in *. apply Forall_cons in Hbound as [He Hes].
      apply StronglySorted_inv in Hsorted as [Hs Hall].
      constructor; [by apply IHes|].
      apply Forall_app. split; [done|]. constructor; [lia|constructor].
Qed.

(** X19. The three parts of the table that [parseGitBookYaml] returns agree.
    A source is sent by the index to the target of its last entry, a target
    is sent back to the sources of all its entries in their order, and the
    entries stand in the order of their lines, which are lines of the
    file. *)
Theorem parseGitBookYaml_consistent (fs : FileSystem) (yamlPath content : string) :
  fs !! yamlPath = Some content ->
  exists table,
    parseGitBookYaml fs yamlPath = Normal table
    /\ (forall k, fromToMap table !! k
                  = entry_to <$> last (filter (fun e => entry_from e = k) (entries table)))
    /\ (forall t, toFromMap table !! t
                  = match filter (fun e => entry_to e = t) (entries table) with
                    | [] => None
                    | sources => Some (map entry_from sources)
                    end)
    /\ StronglySorted Z.lt (map entry_line (entries table))
    /\ Forall (fun e => (1 <= entry_line e
                         <= Z.of_nat (length (Js.split "010" content)))%Z)
              (entries table).
Proof.
  intros Hread. unfold parseGitBookYaml, readFile. rewrite Hread.
  eexists. split; [reflexivity|]. cbn [entries fromToMap toFromMap].
  destruct (parseYamlLines_agrees (Js.split "010" content) 0
              {| yaml_entries := []; yaml_fromToMap := ∅; yaml_toFromMap := ∅;
                 yaml_inRedirects := false |}) as ([Hfrom Hto] & Hbound & Hsorted).
  - done.
  - split; intros k; cbn; by rewrite lookup_empty.
  - constructor.
  - constructor.
  - done.
Qed.

Lemma served_target_shape (rawTo : string) :
  let to := replaceSuffix ("/" +:+ replaceSuffix rawTo ".md" ".html") "/README.html" "/" in
  Js.startsWith to "/" = true /\ Js.endsWith to ".md" = false.
Proof.
  set (page := replaceSuffix rawTo ".md" ".html").
  assert (Hpage : Js.endsWith ("/" +:+ page) ".md" = false).
  { unfold page. destruct (Js.endsWith rawTo ".md") eqn:Emd.
    - apply endsWith_spec in Emd as (stem & ->). rewrite replaceSuffix_app.
      apply not_true_iff_false. intros Hends.
      rewrite (app_assoc_string "/" stem ".html") in Hends.
      change ".html" with (".htm" +:+ "l") in Hends.
      rewrite (app_assoc_string _ ".htm" "l") in Hends.
      by destruct (endsWith_app_app _ "l" ".m" "d" eq_refl Hends).
    - rewrite replaceSuffix_none by done.
      change ("/" +:+ rawTo) with (String "/" rawTo). cbn [Js.endsWith].
      rewrite Emd. apply orb_false_iff. split; [|done].
      by destruct rawTo as [|c [|d [|e rest]]]. }
  intros to. unfold to. fold page.
  destruct (Js.endsWith ("/" +:+ page) "/README.html") eqn:Ereadme.
  - apply endsWith_spec in Ereadme as (dir & Hdir). rewrite Hdir, replaceSuffix_app.
    split.
    + destruct dir as [|c dir]; [done|].
      rewrite append_cons in Hdir. change ("/" +:+ page) with (String "/" page) in Hdir.
      injection Hdir as <- _. by rewrite append_cons.
    + apply not_true_iff_false. intros Hends.
      by destruct (endsWith_app_app dir "/" ".m" "d" eq_refl Hends).
  - rewrite replaceSuffix_none by done. done.
Qed.

Lemma parseRawLines_shape (lines : list string) (inRedirects : bool)
    (redirects : list ParsedRedirectEntry) :
  Forall servedShape redirects ->
  Forall servedShape (parseRawLines lines inRedirects redirects).
Proof.
  revert inRedirects redirects.
  induction lines as [|line rest IH]; intros inRedirects redirects Hshape; [done|].
  cbn [parseRawLines].
  destruct (Js.startsWith line "redirects:"); [by apply IH|].
  destruct (inRedirects && isRedirectLine line).
  - destruct (matchRedirect line) as [[from to]|]; [|by apply IH].
    apply IH. apply Forall_app. split; [done|]. constructor; [|constructor].
    split; [done|]. apply served_target_shape.
  - destruct (inRedirects && startsUnindented line && Js.truthy (Js.trim line));
      [done|by apply IH].
Qed.

(** X20. Every redirect that the server reads from the table leads from an
    address that starts with a slash to an address that starts with a slash
    and is not a Markdown source: a target [page.md] is served as
    [page.html]. *)
Theorem parseRedirectsForServer_addresses (fs : FileSystem) (yamlPath : string)
    (served : gmap string string) (source address : string) :
  parseRedirectsForServer fs yamlPath = Normal served ->
  served !! source = Some address ->
  Js.startsWith source "/" = true
  /\ Js.startsWith address "/" = true
  /\ Js.endsWith address ".md" = false.
Proof.
  unfold parseRedirectsForServer, parseRedirectsWithRaw.
  destruct (readFile fs yamlPath) as [content|]; [|done]. cbn.
  intros [= <-].
  pose proof (parseRawLines_shape (Js.split "010" content) false [] (Forall_nil_2 _))
    as Hshape.
  revert Hshape. generalize (parseRawLines (Js.split "010" content) false []).
  intros parsed Hshape.
  assert (Hgen : forall acc : gmap string string,
    (forall k v, acc !! k = Some v ->
       Js.startsWith k "/" = true /\ Js.startsWith v "/" = true
       /\ Js.endsWith v ".md" = false) ->
    fold_left (fun redirects r => <[redirect_from r := redirect_to r]> redirects)
              parsed acc !! source = Some address ->
    Js.startsWith source "/" = true /\ Js.startsWith address "/" = true
    /\ Js.endsWith address ".md" = false).
  { induction Hshape as [|r rest (Hfrom & Hto & Hmd) Hrest IH]; intros acc Hacc; simpl.
    - apply Hacc.
    - apply IH. intros k v. destruct (decide (redirect_from r = k)) as [<-|Hne].
      + rewrite lookup_insert_eq. intros [= <-]. by rewrite Hfrom.
      + rewrite lookup_insert_ne by done. apply Hacc. }
  apply Hgen. intros k v. by rewrite lookup_empty.
Qed.

(** ** Lines, again *)

Lemma indexOf_app_none (a b : string) (c : ascii) :
  Js.indexOf (a +:+ b) c = None <-> Js.indexOf a c = None /\ Js.indexOf b c = None.
Proof.
  induction a as [|x a IH]; [by intuition|].
  rewrite append_cons. cbn [Js.indexOf].
  destruct (Ascii.eqb x c); [by intuition|].
  destruct (Js.indexOf (a +:+ b) c), (Js.indexOf a c); simpl in *;
    intuition congruence.
Qed.

Lemma split_plain (c : ascii) (s : string) :
  Js.indexOf s c = None -> Js.split c s = [s].
Proof.
  induction s as [|b s IH]; [done|]. cbn [Js.indexOf Js.split].
  destruct (Ascii.eqb b c); [done|].
  destruct (Js.indexOf s c); [done|]. intros _. by rewrite IH.
Qed.

Lemma split_app (c : ascii) (a rest : string) :
  Js.indexOf a c = None ->
  Js.split c (a +:+ String c rest) = a :: Js.split c rest.
Proof.
  induction a as [|b a IH].
  - intros _. change ("" +:+ String c rest) with (String c rest).
    cbn [Js.split]. by rewrite Ascii.eqb_refl.
  - rewrite append_cons. cbn [Js.indexOf Js.split].
    destruct (Ascii.eqb b c); [done|].
    destruct (Js.indexOf a c); [done|]. intros _. by rewrite IH.
Qed.

Lemma split_lines_plain (c : ascii) (s : string) :
  Forall (fun l => Js.indexOf l c = None) (Js.split c s).
Proof.
  induction s as [|b s IH]; [by repeat constructor|].
  cbn [Js.split]. destruct (Ascii.eqb b c) eqn:Eb.
  - by constructor.
  - pose proof (split_not_nil c s) as Hne.
    destruct (Js.split c s) as [|piece pieces]; [done|].
    apply Forall_cons in IH as [Hpiece Hpieces]. constructor; [|done].
    cbn [Js.indexOf]. by rewrite Eb, Hpiece.
Qed.

(** Lines without line feed, joined and split again, are the lines. *)
Lemma split_join (lines : list string) :
  lines <> [] ->
  Forall (fun l => Js.indexOf l "010" = None) lines ->
  Js.split "010" (Js.join Js.newline lines) = lines.
Proof.
  unfold Js.join. induction lines as [|l lines IH]; [done|].
  intros _ Hplain. apply Forall_cons in Hplain as [Hl Hlines].
  destruct lines as [|l' lines].
  - simpl. by apply split_plain.
  - cbn [String.concat].
    change (Js.newline +:+ ?x) with (String "010" x).
    rewrite split_app by done. f_equal. by apply IH.
Qed.

Lemma noLineTerminator_indexOf (s : string) :
  noLineTerminator s = true -> Js.indexOf s "010" = None.
Proof.
  induction s as [|c s IH]; [done|]. cbn [noLineTerminator Js.indexOf].
  intros Hs. apply andb_true_iff in Hs as [Hc Hs]. unfold isLineTerminator in Hc.
  apply negb_true_iff, orb_false_iff in Hc as [Hlf _]. rewrite Hlf.
  by rewrite IH.
Qed.

(** ** White space *)

Lemma allSpace_app (a b : string) :
  Js.allSpace (a +:+ b) = Js.allSpace a && Js.allSpace b.
Proof.
  induction a as [|c a IH]; [done|]. rewrite append_cons. cbn [Js.allSpace].
  by rewrite IH, andb_assoc.
Qed.

Lemma trimEnd_app (a b : string) :
  Js.allSpace b = false -> Js.trimEnd (a +:+ b) = a +:+ Js.trimEnd b.
Proof.
  intros Hb. induction a as [|c a IH]; [done|].
  rewrite !append_cons. cbn [Js.trimEnd].
  change (Js.allSpace (String c (a +:+ b)))
    with (Js.isSpace c && Js.allSpace (a +:+ b)).
  by rewrite allSpace_app, Hb, andb_false_r, andb_false_r, IH.
Qed.

Lemma length_trimEnd (s : string) : String.length (Js.trimEnd s) <= String.length s.
Proof.
  induction s as [|c s IH]; [done|]. cbn [Js.trimEnd].
  destruct (Js.allSpace (String c s)); simpl; lia.
Qed.

Lemma length_trimStart (s : string) :
  String.length (Js.trimStart s) <= String.length s.
Proof.
  induction s as [|c s IH]; [done|]. cbn [Js.trimStart].
  destruct (Js.isSpace c); simpl in *; lia.
Qed.

(** A text that [trim] leaves alone starts with a character that is not
    white space, and [trimEnd] leaves it alone. *)
Lemma trimmed_shape (s : string) :
  s <> "" -> Js.trim s = s ->
  exists c s', s = String c s' /\ Js.isSpace c = false
               /\ Js.trimEnd s = s /\ Js.allSpace s = false.
Proof.
  destruct s as [|c s']; [done|]. intros _ Htrim.
  destruct (Js.isSpace c) eqn:Ec.
  - exfalso. unfold Js.trim in Htrim. cbn [Js.trimStart] in Htrim. rewrite Ec in Htrim.
    apply (f_equal String.length) in Htrim.
    pose proof (length_trimEnd (Js.trimStart s')).
    pose proof (length_trimStart s'). simpl in Htrim. lia.
  - exists c, s'. unfold Js.trim in Htrim. cbn [Js.trimStart] in Htrim.
    rewrite Ec in Htrim. split; [done|]. split; [done|]. split; [done|].
    cbn [Js.allSpace]. by rewrite Ec.
Qed.

Lemma unindented_not_blank (line : string) :
  startsUnindented line = true -> Js.truthy (Js.trim line) = true.
Proof.
  destruct line as [|c s]; [done|]. cbn [startsUnindented]. intros Hc.
  apply negb_true_iff in Hc. unfold Js.trim. cbn [Js.trimStart]. rewrite Hc.
  cbn [Js.trimEnd Js.allSpace]. by rewrite Hc.
Qed.

Lemma untilChar_app (stop : ascii) (body rest : string) :
  body <> "" -> Js.includes body (String stop "") = false ->
  untilChar stop (body +:+ String stop rest) = Some (body, rest).
Proof.
  induction body as [|c body IH]; [done|]. intros _.
  rewrite includes_char. intros Hno. apply orb_false_iff in Hno as [Hc Hbody].
  destruct body as [|d body].
  - change (String c "" +:+ String stop rest) with (String c (String stop rest)).
    cbn [untilChar]. by rewrite Hc, Ascii.eqb_refl.
  - specialize (IH ltac:(done) Hbody).
    rewrite includes_char in Hbody. apply orb_false_iff in Hbody as [Hd _].
    rewrite append_cons. rewrite append_cons in IH |- *.
    cbn [untilChar] in IH |- *. rewrite Hc, Hd. rewrite Hd in IH.
    destruct (body +:+ String stop rest) as [|e tail] eqn:Etail.
    + by destruct body.
    + fold untilChar in IH |- *.
      destruct (Ascii.eqb e stop).
      * by injection IH as <- <-.
      * destruct (untilChar stop (String e tail)) as [[b' r']|]; [|done].
        by injection IH as <- <-.
Qed.

Lemma redirectLine_reads (r : string * string) :
  writableRedirect r = true ->
  Js.indexOf (redirectLine r) "010" = None
  /\ String.eqb (Js.trim (redirectLine r)) "redirects:" = false
  /\ startsUnindented (redirectLine r) = false
  /\ matchRedirect (redirectLine r) = Some (fst r, snd r)
  /\ Js.trim (fst r) = fst r /\ Js.trim (snd r) = snd r.
Proof.
  destruct r as [from to]. unfold writableRedirect, plainText, redirectLine.
  cbn [fst snd]. intros Hr.
  apply andb_true_iff in Hr as [Hr Hto]. apply andb_true_iff in Hr as [Hfrom Hcolon].
  apply andb_true_iff in Hfrom as [Hfrom Hfrom_lines].
  apply andb_true_iff in Hfrom as [Hfrom_ne Hfrom_trim].
  apply andb_true_iff in Hto as [Hto Hto_lines].
  apply andb_true_iff in Hto as [Hto_ne Hto_trim].
  apply negb_true_iff in Hcolon.
  apply negb_true_iff, String.eqb_neq in Hfrom_ne, Hto_ne.
  apply String.eqb_eq in Hfrom_trim, Hto_trim.
  destruct (trimmed_shape from Hfrom_ne Hfrom_trim) as (cf & from' & Ef & Hcf & _ & _).
  destruct (trimmed_shape to Hto_ne Hto_trim) as (ct & to' & Et & Hct & Hto_end & Hto_sp).
  assert (Hcolon_split :
    untilChar ":" (from +:+ ": " +:+ to) = Some (from, " " +:+ to)).
  { change (from +:+ ": " +:+ to) with (from +:+ String ":" (" " +:+ to)).
    by apply untilChar_app. }
  split; [|split; [|split; [|split]]].
  - change ("  " +:+ from +:+ ": " +:+ to)
      with (String " " (String " " (from +:+ String ":" (String " " to)))).
    cbn [Js.indexOf Ascii.eqb Bool.eqb andb]. simpl (Ascii.eqb " " "010").
    cbv iota.
    assert (Hrest : Js.indexOf (from +:+ String ":" (String " " to)) "010" = None).
    { apply indexOf_app_none. split; [by apply noLineTerminator_indexOf|].
      cbn [Js.indexOf]. simpl (Ascii.eqb _ "010"). cbv iota.
      by rewrite noLineTerminator_indexOf. }
    by rewrite Hrest.
  - apply String.eqb_neq. intros Heq.
    assert (Htrim : Js.trim ("  " +:+ from +:+ ": " +:+ to) = from +:+ ": " +:+ to).
    { unfold Js.trim.
      change ("  " +:+ from +:+ ": " +:+ to)
        with (String " " (String " " (from +:+ ": " +:+ to))).
      cbn [Js.trimStart]. simpl (Js.isSpace " "). cbv iota.
      rewrite Ef at 1. rewrite append_cons. cbn [Js.trimStart]. rewrite Hcf.
      rewrite <- append_cons, <- Ef.
      rewrite (app_assoc_string from ": " to), trimEnd_app by done.
      by rewrite Hto_end. }
    rewrite Htrim in Heq. rewrite Heq in Hcolon_split. simpl in Hcolon_split.
    injection Hcolon_split as _ Hrest. by destruct to.
  - done.
  - unfold matchRedirect.
    change ("  " +:+ from +:+ ": " +:+ to)
      with (String " " (String " " (from +:+ ": " +:+ to))).
    simpl (Js.isSpace " "). cbn [andb]. rewrite Hcolon_split.
    change (" " +:+ to) with (String " " to).
    assert (Hspaces : countLeadingSpace (String " " to) = 1).
    { rewrite Et. cbn [countLeadingSpace]. simpl (Js.isSpace " "). cbv iota.
      by rewrite Hct. }
    cbv zeta. rewrite Hspaces. cbn [Js.drop].
    destruct (String.eqb_spec to ""); [done|]. by rewrite Hto_lines.
  - done.
Qed.

Lemma parseYamlLines_app (a b : list string) (i : Z) (st : YamlState) :
  parseYamlLines (a ++ b) i st
  = parseYamlLines b (i + Z.of_nat (length a)) (parseYamlLines a i st).
Proof.
  revert i st. induction a as [|line a IH]; intros i st.
  - simpl. by rewrite Z.add_0_r.
  - cbn [app parseYamlLines length]. rewrite IH. f_equal. lia.
Qed.

Lemma parseYamlLine_flag (st : YamlState) (i : Z) (line : string) :
  yaml_inRedirects (parseYamlLine st i line)
  = inTableAfter (yaml_inRedirects st) line
  /\ forall e, e ∈ yaml_entries st -> e ∈ yaml_entries (parseYamlLine st i line).
Proof.
  unfold parseYamlLine, inTableAfter.
  destruct (String.eqb _ "redirects:"); [done|].
  destruct (yaml_inRedirects st) eqn:Eflag; [|done].
  destruct (startsUnindented line && negb (Js.startsWith line " ")); [done|].
  destruct (matchRedirect line) as [[from to]|]; [|done].
  cbn [yaml_inRedirects yaml_entries]. split; [done|].
  intros e He. apply elem_of_app. by left.
Qed.

Lemma parseYamlLines_flag (lines : list string) (i : Z) (st : YamlState) :
  yaml_inRedirects (parseYamlLines lines i st)
  = fold_left inTableAfter lines (yaml_inRedirects st)
  /\ forall e, e ∈ yaml_entries st -> e ∈ yaml_entries (parseYamlLines lines i st).
Proof.
  revert i st. induction lines as [|line lines IH]; intros i st; [done|].
  cbn [parseYamlLines fold_left].
  destruct (parseYamlLine_flag st i line) as [Hflag Hkeep].
  destruct (IH (i + 1)%Z (parseYamlLine st i line)) as [-> Hkeep'].
  rewrite Hflag. split; [done|]. auto.
Qed.

(** In the table, the lines that [addRedirects] writes are read as
    entries, each with its source and its target. *)
Lemma parseYamlLines_written (redirects : list (string * string)) (i : Z)
    (st : YamlState) :
  yaml_inRedirects st = true ->
  Forall (fun r => writableRedirect r = true) redirects ->
  let st' := parseYamlLines (map redirectLine redirects) i st in
  yaml_inRedirects st' = true
  /\ forall r, r ∈ redirects ->
       exists e, e ∈ yaml_entries st' /\ entry_from e = fst r /\ entry_to e = snd r.
Proof.
  revert i st. induction redirects as [|r rest IH]; intros i st Hflag Hok.
  { simpl. split; [done|]. intros r Hr. by apply elem_of_nil in Hr. }
  apply Forall_cons in Hok as [Hr Hrest].
  destruct (redirectLine_reads r Hr) as (_ & Hname & Hindent & Hmatch & Hfrom & Hto).
  cbn [map parseYamlLines].
  set (st1 := parseYamlLine st i (redirectLine r)).
  assert (Hst1 : yaml_inRedirects st1 = true
                 /\ exists e, e ∈ yaml_entries st1
                              /\ entry_from e = fst r /\ entry_to e = snd r).
  { unfold st1, parseYamlLine. rewrite Hname, Hflag, Hindent, Hmatch.
    cbn [andb yaml_inRedirects yaml_entries]. split; [done|].
    eexists. split; [apply elem_of_app; right; by apply list_elem_of_singleton|].
    cbn [entry_from entry_to]. done. }
  destruct Hst1 as [Hflag1 (e & He & Hefrom & Heto)].
  destruct (IH (i + 1)%Z st1 Hflag1 Hrest) as [Hflag' Hentries].
  split; [done|]. intros r' Hr'. apply elem_of_cons in Hr' as [->|Hr'].
  - exists e. split; [|done].
    by apply (parseYamlLines_flag (map redirectLine rest) (i + 1) st1).
  - by apply Hentries.
Qed.

(** Where [addRedirects] finds the table, [parseGitBookYaml] is reading
    it: after the line [redirects:] that the scan holds, and after the last
    entry line that it holds, the parser is inside the table. *)
Lemma scanRedirects_in_table (todo processed : list string)
    (redirectsLineIndex lastRedirectIndex : option nat) :
  let inTable n := fold_left inTableAfter (take n (processed ++ todo)) false in
  (forall r, redirectsLineIndex = Some r ->
     r < length processed /\ inTable (S r) = true
     /\ inTable (length processed) = true) ->
  (forall l, lastRedirectIndex = Some l ->
     l < length processed /\ inTable (S l) = true) ->
  let result :=
    scanRedirects todo (length processed) redirectsLineIndex lastRedirectIndex in
  (forall r, fst result = Some r ->
     r < length (processed ++ todo) /\ inTable (S r) = true)
  /\ (forall l, snd result = Some l ->
        l < length (processed ++ todo) /\ inTable (S l) = true).
Proof.
  revert processed redirectsLineIndex lastRedirectIndex.
  induction todo as [|line rest IH];
    intros processed redirectsLineIndex lastRedirectIndex inTable Hr Hl.
  { cbn [scanRedirects fst snd]. rewrite app_nil_r in *. split.
    - intros r Hrr. destruct (Hr r Hrr) as (? & ? & _). done.
    - intros l Hll. by apply Hl. }
  (* the same facts, read on the lines processed so far *)
  assert (Hlen : length (processed ++ [line]) = S (length processed)).
  { rewrite length_app. simpl. lia. }
  assert (Hlines : (processed ++ [line]) ++ rest = processed ++ line :: rest).
  { by rewrite <- app_assoc. }
  assert (Hstep : inTable (S (length processed))
                  = inTableAfter (inTable (length processed)) line).
  { unfold inTable. rewrite (take_app_length' _ _ (length processed)) by done.
    replace (S (length processed)) with (length (processed ++ [line])) by done.
    rewrite <- Hlines, take_app_length' by done.
    by rewrite fold_left_app. }
  specialize (IH (processed ++ [line])). rewrite Hlen, Hlines in IH.
  cbn [scanRedirects]. fold inTable in IH.
  set (found := if String.eqb (Js.trim line) "redirects:"
                then Some (length processed) else redirectsLineIndex).
  assert (Hkeep : forall l, lastRedirectIndex = Some l ->
            l < S (length processed) /\ inTable (S l) = true).
  { intros l Hll. destruct (Hl l Hll). split; [lia|done]. }
  destruct (String.eqb (Js.trim line) "redirects:") eqn:Ename.
  - (* the line opens the table *)
    assert (Hopen : inTable (S (length processed)) = true).
    { rewrite Hstep. unfold inTableAfter. by rewrite Ename. }
    unfold found. rewrite Nat.ltb_irrefl.
    apply IH; [|done]. intros r [= <-]. split; [lia|done].
  - unfold found. destruct redirectsLineIndex as [r|]; [|apply IH; [done|]; exact Hkeep].
    destruct (Hr r eq_refl) as (Hrlt & Hrin & Hnow).
    replace (r <? length processed) with true by (symmetry; apply Nat.ltb_lt; lia).
    assert (Hstay : startsUnindented line = false ->
              inTable (S (length processed)) = true).
    { intros Hind. rewrite Hstep, Hnow. unfold inTableAfter.
      by rewrite Ename, Hind. }
    destruct (isRedirectLine line) eqn:Eentry.
    + assert (Hind : startsUnindented line = false).
      { destruct line as [|a [|b [|c tail]]]; try done.
        cbn [isRedirectLine startsUnindented] in *.
        by destruct (Js.isSpace a). }
      apply IH.
      * intros ? [= <-]. split; [lia|]. split; [done|by apply Hstay].
      * intros ? [= <-]. split; [lia|by apply Hstay].
    + destruct (startsUnindented line && Js.truthy (Js.trim line)) eqn:Ebreak.
      * (* the loop breaks *)
        cbn [fst snd]. rewrite length_app. simpl. split.
        -- intros ? [= <-]. split; [lia|done].
        -- intros l Hll. destruct (Hl l Hll). split; [lia|done].
      * assert (Hind : startsUnindented line = false).
        { destruct (startsUnindented line) eqn:Eu; [|done].
          by rewrite (unindented_not_blank line Eu) in Ebreak. }
        apply IH; [|exact Hkeep].
        intros ? [= <-]. split; [lia|]. split; [done|by apply Hstay].
Qed.

(** X21. What [addRedirects] writes, [parseGitBookYaml] reads.  After redirects
    are added to a table file, each of them, when it is plain (source and
    target not empty, without white space at their ends and without line
    terminator, and no colon in the source), is an entry of the table read
    from that file, and its source is a key of the lookup index. *)
Theorem addRedirects_then_parse (fs : FileSystem) (yamlPath content : string)
    (redirects : list (string * string)) :
  fs !! yamlPath = Some content ->
  redirects <> [] ->
  Forall (fun r => writableRedirect r = true) redirects ->
  let written := addRedirects fs yamlPath redirects in
  fst written = Normal tt
  /\ exists table,
       parseGitBookYaml (snd written) yamlPath = Normal table
       /\ forall r, r ∈ redirects ->
            (exists e, e ∈ entries table /\ entry_from e = fst r /\ entry_to e = snd r)
            /\ is_Some (fromToMap table !! fst r).
Proof.
  intros Hread Hsome Hok. unfold addRedirects, readFile. rewrite Hread.
  destruct redirects as [|r0 more] eqn:Eredirects; [done|]. rewrite <- Eredirects in *.
  clear Hsome.
  set (lines := Js.split "010" content).
  fold redirectLine. change (map (fun r => redirectLine r) redirects)
    with (map redirectLine redirects).
  set (block := map redirectLine redirects).
  set (newLines := match scanRedirects lines 0 None None with
                   | (None, _) => lines ++ [""; "redirects:"] ++ block
                   | (Some _, Some lastRedirectIndex) =>
                       spliceIn lines (lastRedirectIndex + 1) block
                   | (Some redirectsLineIndex, None) =>
                       spliceIn lines (redirectsLineIndex + 1) block
                   end).
  cbn [fst snd]. split; [done|].
  (* the lines written are read back as they are *)
  assert (Hblock : Forall (fun l => Js.indexOf l "010" = None) block).
  { unfold block. apply Forall_map. eapply Forall_impl; [exact Hok|].
    intros r Hr. by destruct (redirectLine_reads r Hr) as [? _]. }
  assert (Hplain : Forall (fun l => Js.indexOf l "010" = None) lines)
    by apply split_lines_plain.
  assert (Hblock_ne : block <> []) by (unfold block; by rewrite Eredirects).
  (* the block stands at a place where the parser is inside the table *)
  assert (Hplace : exists before after,
            newLines = before ++ block ++ after
            /\ fold_left inTableAfter before false = true
            /\ Forall (fun l => Js.indexOf l "010" = None) (before ++ after)).
  { unfold newLines.
    pose proof (scanRedirects_in_table lines [] None None) as Hscan.
    cbn [app length] in Hscan.
    destruct Hscan as [Hr Hl]; [done..|].
    destruct (scanRedirects lines 0 None None) as [[r|] [l|]]; cbn [fst snd] in *.
    - destruct (Hl l eq_refl) as [Hlt Hin].
      exists (take (l + 1) lines), (drop (l + 1) lines).
      split; [done|]. split; [by replace (l + 1) with (S l) by lia|].
      by rewrite take_drop.
    - destruct (Hr r eq_refl) as [Hlt Hin].
      exists (take (r + 1) lines), (drop (r + 1) lines).
      split; [done|]. split; [by replace (r + 1) with (S r) by lia|].
      by rewrite take_drop.
    - exists (lines ++ [""; "redirects:"]), [].
      split; [by rewrite app_nil_r, <- app_assoc|]. split.
      + rewrite fold_left_app. by simpl.
      + rewrite app_nil_r. apply Forall_app. split; [done|]. by repeat constructor.
    - exists (lines ++ [""; "redirects:"]), [].
      split; [by rewrite app_nil_r, <- app_assoc|]. split.
      + rewrite fold_left_app. by simpl.
      + rewrite app_nil_r. apply Forall_app. split; [done|]. by repeat constructor. }
  destruct Hplace as (before & after & Hnew & Hin & Hrest).
  fold newLines. rewrite Hnew.
  unfold parseGitBookYaml, readFile, writeFile. rewrite lookup_insert_eq. cbn.
  rewrite split_join.
  2: { intros Hnil. apply app_eq_nil in Hnil as [_ Hnil].
       by apply app_eq_nil in Hnil as [Hnil _]. }
  2: { apply Forall_app in Hrest as [Hb Ha].
       apply Forall_app. split; [done|]. apply Forall_app. by split. }
  eexists. split; [reflexivity|]. cbn [entries fromToMap].
  set (init := {| yaml_entries := []; yaml_fromToMap := ∅; yaml_toFromMap := ∅;
                  yaml_inRedirects := false |}).
  rewrite !parseYamlLines_app.
  set (st0 := parseYamlLines before 0 init).
  assert (Hflag0 : yaml_inRedirects st0 = true).
  { unfold st0. by rewrite (proj1 (parseYamlLines_flag before 0 init)). }
  destruct (parseYamlLines_written redirects (0 + Z.of_nat (length before)) st0
              Hflag0 Hok) as [_ Hentries].
  fold block in Hentries.
  set (st1 := parseYamlLines block (0 + Z.of_nat (length before)) st0) in *.
  set (st2 := parseYamlLines after _ st1).
  assert (Hall : forall r, r ∈ redirects ->
            exists e, e ∈ yaml_entries st2 /\ entry_from e = fst r /\ entry_to e = snd r).
  { intros r Hr. destruct (Hentries r Hr) as (e & He & Hfrom & Hto).
    exists e. split; [|done]. by apply parseYamlLines_flag. }
  intros r Hr. split; [by apply Hall|].
  destruct (Hall r Hr) as (e & He & Hfrom & _).
  destruct (parseYamlLines_agrees (before ++ block ++ after) 0 init)
    as ([Hindex _] & _); [done| |constructor|constructor|].
  { split; intros k; cbn; by rewrite lookup_empty. }
  rewrite !parseYamlLines_app in Hindex. fold st0 st1 st2 in Hindex.
  rewrite Hindex.
  assert (Hfiltered : e ∈ filter (fun e => entry_from e = fst r) (yaml_entries st2)).
  { apply list_elem_of_filter. by split. }
  destruct (filter _ (yaml_entries st2)) as [|x xs] using rev_ind.
  - by apply elem_of_nil in Hfiltered.
  - rewrite last_snoc. by eexists.
Qed.

(** ** Headings *)

Lemma codeBlockStateFrom_length (inBlock : bool) (lines : list string) :
  length (codeBlockStateFrom inBlock lines) = length lines.
Proof.
  revert inBlock. induction lines as [|line rest IH]; intros inBlock; [done|].
  simpl. by rewrite IH.
Qed.

Lemma matchAtxHeading_level (line : string) (hashes : nat) (rawText : string) :
  matchAtxHeading line = Some (hashes, rawText) ->
  1 <= hashes <= 6 /\ countLeading "#" line = hashes
  /\ Js.isSpace (default "#"%char (String.get hashes line)) = true.
Proof.
  unfold matchAtxHeading.
  destruct ((1 <=? countLeading "#" line) && (countLeading "#" line <=? 6)
            && (1 <=? countLeadingSpace (Js.drop (countLeading "#" line) line)))
    eqn:Etest; [|done].
  apply andb_true_iff in Etest as [Etest Hspace].
  apply andb_true_iff in Etest as [Hlow Hhigh].
  apply Nat.leb_le in Hlow, Hhigh, Hspace.
  intros Hmatch.
  assert (Hh : hashes = countLeading "#" line).
  { repeat case_match; try done; by injection Hmatch as <- _. }
  subst hashes. split; [lia|]. split; [done|].
  clear Hmatch Hlow Hhigh. revert Hspace.
  generalize (countLeading "#" line). intros n. revert line.
  induction n as [|n IH]; intros [|c line]; simpl; try lia.
  - destruct (Js.isSpace c); [done|lia].
  - apply IH.
Qed.

(** X22. The headings of a page stand in the order of their lines.  Each is
    read from a line of the page that is outside every fenced block and that
    begins with one to six hash signs, as many as the level of the heading,
    followed by white space. *)
Theorem parseMarkdownHeadings_lines (filePath content : string) :
  let lines := Js.split "010" content in
  let found := headings (parseMarkdownHeadings filePath content) in
  StronglySorted Z.lt (map heading_line found)
  /\ forall h, h ∈ found ->
       exists i line,
         heading_line h = Z.of_nat (S i)
         /\ lines !! i = Some line
         /\ computeCodeBlockState lines !! i = Some false
         /\ 1 <= level h <= 6
         /\ countLeading "#" line = level h
         /\ Js.isSpace (default "#"%char (String.get (level h) line)) = true.
Proof.
  intros lines found. unfold found, parseMarkdownHeadings. cbn [headings].
  fold lines. unfold computeCodeBlockState.
  assert (Hgen : forall (todo : list string) (state : list bool) (k : nat),
    let hs := headingsFrom todo state (Z.of_nat (S k)) in
    Forall (fun h => (Z.of_nat k < heading_line h)%Z) hs
    /\ StronglySorted Z.lt (map heading_line hs)
    /\ forall h, h ∈ hs ->
         exists j line,
           heading_line h = Z.of_nat (S (k + j))
           /\ todo !! j = Some line /\ state !! j = Some false
           /\ 1 <= level h <= 6
           /\ countLeading "#" line = level h
           /\ Js.isSpace (default "#"%char (String.get (level h) line)) = true).
  { induction todo as [|line todo IH]; intros state k.
    { simpl. split; [constructor|]. split; [constructor|].
      intros h Hh. by apply elem_of_nil in Hh. }
    destruct state as [|inBlock state].
    { simpl. split; [constructor|]. split; [constructor|].
      intros h Hh. by apply elem_of_nil in Hh. }
    cbn [headingsFrom].
    replace (Z.of_nat (S k) + 1)%Z with (Z.of_nat (S (S k))) by lia.
    destruct (IH state (S k)) as (Hlater & Hsorted & Hrest).
    assert (Hskip :
      Forall (fun h => (Z.of_nat k < heading_line h)%Z)
             (headingsFrom todo state (Z.of_nat (S (S k))))
      /\ StronglySorted Z.lt (map heading_line (headingsFrom todo state (Z.of_nat (S (S k)))))
      /\ forall h, h ∈ headingsFrom todo state (Z.of_nat (S (S k))) ->
           exists j line0,
             heading_line h = Z.of_nat (S (k + j))
             /\ (line :: todo) !! j = Some line0
             /\ (inBlock :: state) !! j = Some false
             /\ 1 <= level h <= 6
             /\ countLeading "#" line0 = level h
             /\ Js.isSpace (default "#"%char (String.get (level h) line0)) = true).
    { split; [|split; [done|]].
      - eapply Forall_impl; [exact Hlater|]. intros h Hh. simpl in Hh. lia.
      - intros h Hh. destruct (Hrest h Hh) as (j & line0 & Hline & Hrest').
        exists (S j), line0. split; [|done]. rewrite Hline. f_equal. lia. }
    destruct inBlock; [exact Hskip|].
    destruct (matchAtxHeading line) as [[hashes rawText]|] eqn:Ematch; [|exact Hskip].
    destruct (matchAtxHeading_level _ _ _ Ematch) as (Hlevel & Hhashes & Hspace).
    destruct Hskip as (Hlater' & _ & Hrest').
    assert (Hnew : forall h,
      heading_line h = Z.of_nat (S k) -> level h = hashes ->
      Forall (fun h0 => (Z.of_nat k < heading_line h0)%Z)
             (h :: headingsFrom todo state (Z.of_nat (S (S k))))
      /\ StronglySorted Z.lt
           (map heading_line (h :: headingsFrom todo state (Z.of_nat (S (S k)))))
      /\ forall h0, h0 ∈ h :: headingsFrom todo state (Z.of_nat (S (S k))) ->
           exists j line0,
             heading_line h0 = Z.of_nat (S (k + j))
             /\ (line :: todo) !! j = Some line0
             /\ (false :: state) !! j = Some false
             /\ 1 <= level h0 <= 6
             /\ countLeading "#" line0 = level h0
             /\ Js.isSpace (default "#"%char (String.get (level h0) line0)) = true).
    { intros h Hline Hlev. split; [|split].
      - constructor; [lia|done].
      - cbn [map]. constructor; [done|]. rewrite Hline.
        apply Forall_map. eapply Forall_impl; [exact Hlater|].
        intros h0 Hh0. simpl in *. lia.
      - intros h0 Hh0. apply elem_of_cons in Hh0 as [->|Hh0]; [|by apply Hrest'].
        exists 0, line. rewrite Hline, Hlev.
        split; [f_equal; lia|]. do 2 (split; [done|]). split; [lia|done]. }
    destruct (matchCustomAnchor (Js.trim rawText) 0) as [[start customId]|];
      by apply Hnew. }
  destruct (Hgen lines (codeBlockStateFrom false lines) 0) as (_ & Hsorted & Hall).
  split; [done|]. intros h Hh. destruct (Hall h Hh) as (j & line & Hrest).
  by exists j, line.
Qed.

(** ** Anchors *)

Section Anchors.
Context `{Platform}.

Lemma getFileHeadings_again fs cache filePath projectRoot found cache' :
  getFileHeadings fs cache filePath projectRoot = (Normal (Some found), cache') ->
  getFileHeadings fs cache' filePath projectRoot = (Normal (Some found), cache').
Proof.
  unfold getFileHeadings.
  destruct (fileExists fs (joinPaths [projectRoot; filePath])); simpl; [|done].
  destruct (cache !! filePath) as [cached|] eqn:Ecache.
  - intros [= <- <-]. by rewrite Ecache.
  - destruct (readFile fs _) as [content|]; [|done].
    intros [= <- <-]. unfold HeadingsCache in *. by rewrite lookup_insert_eq.
Qed.

(** X23. Every anchor that [getAvailableAnchors] lists for a file is accepted
    by [validateAnchor] for that file, whether the id was generated from the
    heading or written next to it, in any case of letters. *)
Theorem available_anchors_are_valid (fs : FileSystem) (cache : HeadingsCache)
    (filePath projectRoot : string) (anchors : list string) (cache' : HeadingsCache)
    (anchor : string) :
  getAvailableAnchors fs cache filePath projectRoot = (Normal anchors, cache') ->
  anchor ∈ anchors ->
  validateAnchor fs cache' filePath anchor projectRoot
  = (Normal {| anchor_valid := true; anchor_error := None; suggestions := None |},
     cache').
Proof.
  unfold getAvailableAnchors, validateAnchor.
  destruct (getFileHeadings fs cache filePath projectRoot)
    as [[[found|]|] cache1] eqn:Eget; [| |done].
  - intros [= <- <-] Hin. rewrite (getFileHeadings_again _ _ _ _ _ _ Eget).
    apply list_elem_of_fmap in Hin as (h & -> & Hh).
    destruct (existsb (fun h0 => String.eqb (id h0) (Js.toLowerCase (id h)))
                      (headings found)); [done|].
    replace (existsb (fun h0 => String.eqb (Js.toLowerCase (id h0))
                                           (Js.toLowerCase (id h)))
                     (headings found)) with true; [done|].
    symmetry. apply existsb_exists. exists h.
    split; [by apply list_elem_of_In|apply String.eqb_refl].
  - intros [= <- <-] Hin. by apply elem_of_nil in Hin.
Qed.

End Anchors.

(** ** The order of the forest *)

Lemma StronglySorted_snoc (l : list nat) (x : nat) :
  StronglySorted lt l -> Forall (fun a => a < x) l -> StronglySorted lt (l ++ [x]).
Proof.
  induction 1 as [|a l Hl IH Ha]; intros Hx; simpl.
  - repeat constructor.
  - apply Forall_cons in Hx as [Hax Hx]. constructor; [by apply IH|].
    apply Forall_app. split; [done|]. by repeat constructor.
Qed.

Lemma lookup_pushChild_path (es : list SummaryEntry) p c :
  map path (pushChild es p c) = map path es
  /\ map summary_line (pushChild es p c) = map summary_line es.
Proof.
  unfold pushChild. destruct (es !! p) as [e|] eqn:Ep; [|done].
  change (map path) with (fmap (M:=list) path).
  change (map summary_line) with (fmap (M:=list) summary_line).
  rewrite !list_fmap_insert. cbn [path summary_line].
  split; apply list_insert_id; rewrite list_lookup_fmap; by rewrite Ep.
Qed.

Lemma addEntry_orderInv (st : ParserState) lineNumber indent title path_ :
  forestInv st -> orderInv st lineNumber ->
  orderInv (addEntry st lineNumber indent title path_) (lineNumber + 1).
Proof.
  intros Hforest [Hchildren Hroots Hpaths Hlines Hbefore].
  set (n := length (st_store st)).
  set (entry := {| title := Js.trim title; path := path_; summary_line := lineNumber;
                   depth := String.length indent / 2; children := [] |}).
  assert (Hroots_lt : Forall (fun a => a < n) (st_entries st)).
  { apply Forall_forall. intros c Hc. by apply (inv_roots st Hforest) in Hc as [? _]. }
  assert (Hlines1 : StronglySorted Z.lt (map summary_line (st_store st ++ [entry]))).
  { rewrite map_app. cbn [map summary_line].
    clear -Hlines Hbefore. induction (st_store st) as [|e es IHes].
    - repeat constructor.
    - cbn [map app] in *. apply Forall_cons in Hbefore as [He Hes].
      apply StronglySorted_inv in Hlines as [Hs Hall].
      constructor; [by apply IHes|].
      apply Forall_app. split; [done|]. by repeat constructor. }
  assert (Hbefore1 : Forall (fun e => (summary_line e < lineNumber + 1)%Z)
                            (st_store st ++ [entry])).
  { apply Forall_app. split.
    - eapply Forall_impl; [exact Hbefore|]. intros e He. simpl in He. lia.
    - repeat constructor. simpl. lia. }
  assert (Hkids1 : forall p e, (st_store st ++ [entry]) !! p = Some e ->
            StronglySorted lt (children e)
            /\ Forall (fun a => a < n) (children e)).
  { intros p e Hp. apply lookup_app_Some in Hp as [Hp|[_ Hp]].
    - split; [by eapply Hchildren|]. apply Forall_forall. intros c Hc.
      by apply (inv_children st Hforest p c e Hp) in Hc as [? _].
    - destruct (p - length (st_store st)) as [|k]; simpl in Hp; [|done].
      injection Hp as <-. split; constructor. }
  unfold addEntry. fold entry n.
  destruct (_ =? 0).
  { constructor; cbn [st_store st_entries st_allPaths]; try done.
    - intros p e Hp. by apply (Hkids1 p e Hp).
    - by apply StronglySorted_snoc.
    - by rewrite map_app, Hpaths. }
  destruct (popDeeper _ _ _) as [|top rest].
  { constructor; cbn [st_store st_entries st_allPaths]; try done.
    - intros p e Hp. by apply (Hkids1 p e Hp).
    - by apply StronglySorted_snoc.
    - by rewrite map_app, Hpaths. }
  destruct (lookup_pushChild_path (st_store st ++ [entry]) top n) as [Hp1 Hl1].
  constructor; cbn [st_store st_entries st_allPaths].
  - intros p e Hp. apply lookup_pushChild in Hp as (e0 & Hp0 & _ & ->).
    destruct (Hkids1 p e0 Hp0) as [Hs Hb].
    case_decide; [by apply StronglySorted_snoc|done].
  - done.
  - by rewrite Hp1, map_app, Hpaths.
  - by rewrite Hl1.
  - apply Forall_forall. intros e He.
    apply list_elem_of_lookup in He as (q & Hq).
    assert (Hline : map summary_line (pushChild (st_store st ++ [entry]) top n) !! q
                    = Some (summary_line e)).
    { change (map summary_line) with (fmap (M:=list) summary_line).
      by rewrite list_lookup_fmap, Hq. }
    rewrite Hl1 in Hline. change (map summary_line) with (fmap (M:=list) summary_line)
      in Hline. rewrite list_lookup_fmap in Hline.
    destruct ((st_store st ++ [entry]) !! q) as [e0|] eqn:Eq; [|done].
    injection Hline as <-. rewrite Forall_forall in Hbefore1. apply Hbefore1.
    by eapply list_elem_of_lookup_2.
Qed.

Section Order.
Context `{Platform}.

Lemma parseLines_order (lines : list string) (lineNumber : Z) (st st' : ParserState) :
  forestInv st -> orderInv st lineNumber ->
  parseLines lines lineNumber st = Normal st' ->
  forestInv st' /\ exists lineNumber', orderInv st' lineNumber'.
Proof.
  revert lineNumber st. induction lines as [|line lines IH];
    intros lineNumber st Hforest Horder.
  { intros [= <-]. split; [done|]. by exists lineNumber. }
  cbn [parseLines].
  assert (Hnext : orderInv st (lineNumber + 1)).
  { destruct Horder. constructor; try done.
    eapply Forall_impl; [eassumption|]. intros e He. simpl in He. lia. }
  destruct (matchEntry line) as [[[indent title] rawPath]|]; [|by apply IH].
  destruct (cleanLinkPath_returns (Js.trim rawPath)) as (cleaned & ->). simpl.
  apply IH; [by apply addEntry_forestInv|by apply addEntry_orderInv].
Qed.

End Order.

(** ** The walk of the forest *)

(** The entries after [a] that are deeper than [a] end at [a'], before the
    bound [b]. *)
Lemma deeper_run_ends (d : nat -> nat) (a b : nat) :
  a < b ->
  exists a', a < a' <= b
             /\ (forall j, a < j < a' -> d a < d j)
             /\ (a' < b -> d a' <= d a).
Proof.
  intros Hab.
  assert (Hgen : forall k, exists a', a < a' <= S a + k
            /\ (forall j, a < j < a' -> d a < d j)
            /\ (a' < S a + k -> d a' <= d a)).
  { induction k as [|k (a' & Hrange & Hrun & Hend)].
    - exists (S a). split; [lia|]. split; intros; lia.
    - destruct (decide (a' < S a + k)) as [Hin|Hout].
      + exists a'. split; [lia|]. split; [done|]. intros _. by apply Hend.
      + assert (a' = S a + k) as -> by lia.
        destruct (decide (d (S a + k) <= d a)) as [Hle|Hgt].
        * exists (S a + k). split; [lia|]. split; [done|]. done.
        * exists (S a + S k). split; [lia|]. split; [|lia].
          intros j Hj. destruct (decide (j = S a + k)) as [->|]; [lia|].
          apply Hrun. lia. }
  destruct (Hgen (b - S a)) as (a' & Hrange & Hrun & Hend).
  replace (S a + (b - S a)) with b in * by lia. by exists a'.
Qed.

Section Walk.
Variable es : list SummaryEntry.
Hypothesis Hkids : forall p c e,
  es !! p = Some e ->
  (c ∈ children e <-> c < length es /\ nearestShallower (depthAt es) p c).
Hypothesis Hsorted : forall p e, es !! p = Some e -> StronglySorted lt (children e).

(** A sorted list that holds the entries of [a, b) with no shallower
    entry before them in that range is walked as the whole range. *)
Lemma flattenRefs_range (fuel a b : nat) (refs : list Ref) :
  a <= b <= length es -> b - a <= fuel -> 1 <= fuel ->
  StronglySorted lt refs ->
  (forall c, c ∈ refs <->
     a <= c < b /\ forall q, a <= q < c -> depthAt es c <= depthAt es q) ->
  (b < length es -> forall c, a <= c < b -> depthAt es b < depthAt es c) ->
  flattenRefs fuel es refs = Some (seq a (b - a)).
Proof.
  set (d := depthAt es). set (n := length es).
  revert a b refs. induction fuel as [|fuel IHfuel]; intros a b refs; [lia|].
  intros Hab Hfuel _. cbn [flattenRefs]. revert a Hab Hfuel.
  induction refs as [|c0 refs IHrefs]; intros a Hab Hfuel Hs Hin Hout.
  { destruct (decide (a = b)) as [->|Hne].
    - by rewrite Nat.sub_diag.
    - exfalso. assert (Ha : a ∈ []) by (apply Hin; split; [lia|]; intros; lia).
      by apply elem_of_nil in Ha. }
  apply StronglySorted_inv in Hs as [Hs Hleast].
  rewrite Forall_forall in Hleast.
  assert (Hc0 : a <= c0 < b) by (apply Hin; by left).
  assert (Ha_in : a ∈ c0 :: refs) by (apply Hin; split; [lia|]; intros; lia).
  assert (c0 = a) as ->.
  { apply elem_of_cons in Ha_in as [->|Ha_in]; [done|].
    specialize (Hleast a Ha_in). lia. }
  clear Ha_in.
  destruct (deeper_run_ends d a b) as (a' & Hrange & Hrun & Hend); [lia|].
  destruct (es !! a) as [e|] eqn:Ee;
    [|apply lookup_ge_None in Ee; fold n in Ee; lia].
  cbn [visitAll]. rewrite Ee. cbn.
  (* the children of [a] are walked as the entries deeper than [a] *)
  assert (Hchildren : forall c, c ∈ children e <->
            S a <= c < a' /\ forall q, S a <= q < c -> d c <= d q).
  { intros c. rewrite (Hkids a c e Ee). fold n d. split.
    - intros (Hcn & Hac & Hlt & Hmin). split; [|intros q Hq; apply Hmin; lia].
      split; [lia|]. destruct (decide (c < a')) as [|Hge]; [done|]. exfalso.
      destruct (decide (a' < b)) as [Hin'|Hlast].
      + specialize (Hend Hin').
        destruct (decide (c = a')) as [->|]; [lia|].
        specialize (Hmin a'). lia.
      + assert (a' = b) as -> by lia.
        assert (Hb : b < n) by lia. specialize (Hout Hb a).
        destruct (decide (c = b)) as [->|]; [lia|].
        specialize (Hmin b). lia.
    - intros [Hc Hmin]. split; [lia|]. split; [lia|]. split.
      + apply Hrun. lia.
      + intros q Hq. apply Hmin. lia. }
  assert (Hbelow : match children e with
                   | [] => Some []
                   | kids => flattenRefs fuel es kids
                   end = Some (seq (S a) (a' - S a))).
  { destruct (children e) as [|k kids] eqn:Echildren.
    - destruct (decide (S a = a')) as [<-|Hne]; [by rewrite Nat.sub_diag|].
      exfalso. assert (Hk : S a ∈ []) by (apply Hchildren; split; [lia|]; intros; lia).
      by apply elem_of_nil in Hk.
    - rewrite <- Echildren in *.
      assert (Hk : k ∈ children e) by (rewrite Echildren; by left).
      apply Hchildren in Hk as [Hk _].
      apply IHfuel; [lia|lia|lia|by eapply Hsorted|done|].
      intros Hn c Hc. destruct (decide (a' < b)) as [Hin'|Hlast].
      + specialize (Hend Hin'). specialize (Hrun c). lia.
      + assert (a' = b) as -> by lia. apply Hout; lia. }
  rewrite Hbelow. cbn.
  (* the later entries are walked as the rest of the range *)
  rewrite (IHrefs a'); [|lia|lia|done| |].
  - cbn. f_equal. replace (b - a) with (S ((a' - S a) + (b - a'))) by lia.
    cbn [seq]. f_equal. rewrite seq_app. do 2 f_equal. lia.
  - intros c. split.
    + intros Hc. assert (Hac : a < c) by (by apply Hleast).
      assert (Hc' : c ∈ a :: refs) by (by right).
      apply Hin in Hc' as [Hcb Hmin].
      assert (a' <= c).
      { destruct (decide (a' <= c)); [done|]. exfalso.
        specialize (Hrun c). specialize (Hmin a). lia. }
      split; [lia|]. intros q Hq. apply Hmin. lia.
    + intros [Hc Hmin].
      assert (Hc' : c ∈ a :: refs).
      { apply Hin. split; [lia|]. intros q Hq.
        assert (Ha' : d c <= d a').
        { destruct (decide (c = a')) as [->|]; [done|]. apply Hmin. lia. }
        assert (Hin' : a' < b) by lia. specialize (Hend Hin').
        destruct (decide (a' <= q)); [apply Hmin; lia|].
        destruct (decide (q = a)) as [->|]; [lia|].
        specialize (Hrun q). lia. }
      apply elem_of_cons in Hc' as [->|]; [lia|done].
  - intros Hn c Hc. apply Hout; [done|lia].
Qed.

End Walk.

Section Flatten.
Context `{Platform}.

Lemma parseSummary_walk (fs : FileSystem) (summaryPath content : string) :
  fs !! summaryPath = Some content ->
  exists s,
    parseSummary fs summaryPath = Normal s
    /\ flattenSummary s = Some (seq 0 (length (store s)))
    /\ allPaths s = map path (store s)
    /\ StronglySorted Z.lt (map summary_line (store s)).
Proof.
  intros Hfile. unfold parseSummary, readFile. rewrite Hfile. simpl.
  set (init := {| st_store := []; st_entries := []; st_allPaths := [];
                  st_parentStack := [] |}).
  destruct (parseLines_forest (Js.split "010" content) 1 init forestInv_initial)
    as (st & Hrun & _ & _).
  destruct (parseLines_order (Js.split "010" content) 1 init st forestInv_initial)
    as [Hforest (lineNumber & Horder)]; [|done|].
  { constructor; cbn; try done; constructor. }
  rewrite Hrun. simpl. eexists. split; [reflexivity|].
  unfold flattenSummary. cbn [store summary_entries allPaths].
  destruct Hforest as [Hchildren Hroots _ _ _].
  destruct Horder as [Hsorted Hrootsorted Hpaths Hlines _].
  split; [|by split].
  rewrite <- (Nat.sub_0_r (length (st_store st))) at 2.
  apply flattenRefs_range; try done; try lia.
  intros c. rewrite Hroots. unfold noShallower. split.
  - intros [Hc Hmin]. split; [lia|]. intros q Hq. apply Hmin. lia.
  - intros [Hc Hmin]. split; [lia|]. intros q Hq. apply Hmin. lia.
Qed.

(** X24. [flattenSummary] returns every entry of a parsed summary once, in the
    order of the file, however its items are indented.  The list of all
    paths holds the path of each entry in that same order, so the set of
    [getSummaryPaths] is the set of the paths of the entries walked, and the
    lines of the entries ascend. *)
Theorem flattenSummary_document_order (fs : FileSystem)
    (summaryPath content : string) :
  fs !! summaryPath = Some content ->
  exists s walked,
    parseSummary fs summaryPath = Normal s
    /\ flattenSummary s = Some walked
    /\ walked = seq 0 (length (store s))
    /\ allPaths s = map (pathOf s) walked
    /\ getSummaryPaths fs summaryPath = Normal (list_to_set (map (pathOf s) walked))
    /\ StronglySorted Z.lt (map summary_line (store s)).
Proof.
  intros Hfile.
  destruct (parseSummary_walk fs summaryPath content Hfile)
    as (s & Hs & Hflat & Hpaths & Hlines).
  assert (Hwalked : map (pathOf s) (seq 0 (length (store s))) = map path (store s)).
  { unfold pathOf. generalize (store s). intros es.
    induction es as [|e es IH] using rev_ind; [done|].
    rewrite length_app, Nat.add_comm. cbn [length Nat.add].
    rewrite seq_S, !map_app. cbn [map Nat.add].
    rewrite list_lookup_middle by done. f_equal.
    rewrite <- IH. apply map_ext_in. intros r Hr. apply in_seq in Hr.
    by rewrite lookup_app_l by lia. }
  exists s, (seq 0 (length (store s))).
  split; [done|]. split; [done|]. split; [done|].
  split; [by rewrite Hwalked|]. split; [|done].
  unfold getSummaryPaths. rewrite Hs. cbn. by rewrite Hwalked, Hpaths.
Qed.

(** X25. The targets of the summary that are missing: [validateSummaryPaths]
    on a parsed summary reports the entries whose path names no file under
    the project root, each once and in the order of the file. *)
Theorem validateSummaryPaths_reports_missing (fs : FileSystem)
    (summaryPath content projectRoot : string) :
  fs !! summaryPath = Some content ->
  exists s missing,
    parseSummary fs summaryPath = Normal s
    /\ validateSummaryPaths s (fun p => pathExists fs p projectRoot) = Some missing
    /\ StronglySorted lt missing
    /\ forall r, r ∈ missing <->
         exists entry, store s !! r = Some entry
                       /\ fileExists fs (joinPaths [projectRoot; path entry]) = false.
Proof.
  intros Hfile.
  destruct (parseSummary_walk fs summaryPath content Hfile) as (s & Hs & Hflat & _).
  exists s. unfold validateSummaryPaths. rewrite Hflat. cbn.
  eexists. split; [done|]. split; [reflexivity|]. split.
  - generalize (length (store s)). generalize 0. intros a n. revert a.
    induction n as [|n IH]; intros a; [constructor|].
    cbn [seq List.filter]. destruct (negb _); [|by apply IH].
    constructor; [by apply IH|]. apply Forall_forall. intros r Hr.
    apply list_elem_of_In, filter_In in Hr as [Hr _]. apply in_seq in Hr. lia.
  - intros r. rewrite list_elem_of_In, filter_In, in_seq, negb_true_iff.
    unfold pathOf, pathExists. split.
    + intros [Hr Hmissing]. destruct (store s !! r) as [entry|] eqn:Er.
      * by exists entry.
      * apply lookup_ge_None in Er. lia.
    + intros (entry & Er & Hmissing). rewrite Er. split; [|done].
      apply lookup_lt_Some in Er. lia.
Qed.

End Flatten.

(** ** The properties on concrete inputs *)

(** X6 on a concrete input.
    The page that the basename tier proposes for the link [setup.md] is
    a file under the root, or a path of the file list. *)
Lemma findFixSuggestion_suggests_known_witness :
  fileExists Sample.pages (joinPaths (H:=posix) ["root"; "guides/setup.md"]) = true
  \/ "guides/setup.md" ∈ loadFiles (H:=posix) Sample.pages "root" None.
Proof.
  apply (findFixSuggestion_suggests_known (H:=posix) Sample.pages
           (Sample.brokenAt "docs/a.md" "setup.md" "docs/setup.md" 1) "root"
           (Sample.tableOf []) None
           {| confidence := medium; suggestedPath := "guides/setup.md";
              reason := "File with same name found in different location";
              redirectEntry := None |}).
  vm_compute. reflexivity.
Defined.

(** X10 on a concrete input.
    The batch of two fixes on the page with two links: two results. *)
Lemma applyFixes_one_result_per_fix_witness :
  exists results,
    fst (applyFixes (H:=posix) Sample.twoLinks Sample.twoFixes "root") = Normal results
    /\ Permutation (map resultKey results) (map fixKey Sample.twoFixes).
Proof.
  destruct (applyFixes (H:=posix) Sample.twoLinks Sample.twoFixes "root")
    as [[results|message] fs'] eqn:Erun.
  - exists results. split; [reflexivity|].
    exact (applyFixes_one_result_per_fix (H:=posix) _ _ _ _ _ Erun).
  - vm_compute in Erun. discriminate.
Defined.

(** X11 on a concrete input.
    The batch on the page of [docs] leaves the redirect table alone. *)
Lemma applyFixes_touches_only_sources_witness :
  snd (applyFixes (H:=posix) Sample.parentLink Sample.parentFixes "root")
    !! "root/.gitbook.yaml"
  = Sample.parentLink !! "root/.gitbook.yaml".
Proof.
  apply (applyFixes_touches_only_sources (H:=posix)).
  intros f Hf. apply list_elem_of_In in Hf.
  destruct Hf as [<-|[<-|[]]]; vm_compute; discriminate.
Defined.

(** X12 on a concrete input.
    A fix for the first line of the page, which holds no link: the page
    is as it was. *)
Lemma applyFixes_all_failed_unchanged_witness :
  snd (applyFixes (H:=posix) Sample.twoLinks Sample.misplacedFix "root")
  = Sample.twoLinks.
Proof.
  destruct (applyFixes (H:=posix) Sample.twoLinks Sample.misplacedFix "root")
    as [[results|message] fs'] eqn:Erun.
  - cbn [snd].
    apply (applyFixes_all_failed_unchanged (H:=posix) _ _ _ results fs' Erun).
    intros r Hr. vm_compute in Erun. injection Erun as <- _.
    apply list_elem_of_singleton in Hr as ->. reflexivity.
  - vm_compute in Erun. discriminate.
Defined.


(** X16 on a concrete input.
    The [README.md] of a directory. *)
Lemma htmlToMd_mdToHtml_witness :
  htmlToMd (mdToHtml "guides/README.md") = "guides/README.md".
Proof. apply htmlToMd_mdToHtml; vm_compute; reflexivity. Defined.

(** X19 on a concrete input.
    The table with one entry: the index sends [x] to [y.md]. *)
Lemma parseGitBookYaml_consistent_witness :
  exists table,
    parseGitBookYaml Sample.parentLink "root/.gitbook.yaml" = Normal table
    /\ fromToMap table !! "x" = Some "y.md".
Proof.
  destruct (parseGitBookYaml_consistent Sample.parentLink "root/.gitbook.yaml"
              (default "" (Sample.parentLink !! "root/.gitbook.yaml")))
    as (table & Hparse & Hindex & _).
  - vm_compute. reflexivity.
  - exists table. split; [exact Hparse|]. rewrite (Hindex "x").
    vm_compute in Hparse. injection Hparse as <-. vm_compute. reflexivity.
Defined.

(** X20 on a concrete input.
    The redirect to a [README.md] is served as a redirect to its
    directory. *)
Lemma parseRedirectsForServer_addresses_witness :
  Js.startsWith "/old" "/" = true
  /\ Js.startsWith "/docs/" "/" = true
  /\ Js.endsWith "/docs/" ".md" = false.
Proof.
  apply (parseRedirectsForServer_addresses Sample.servedTable "root/.gitbook.yaml"
           {[ "/old" := "/docs/"; "/moved" := "/new/page.html" ]}).
  - vm_compute. reflexivity.
  - vm_compute. reflexivity.
Defined.

(** X21 on a concrete input.
    One redirect added to the table with one entry is read back. *)
Lemma addRedirects_then_parse_witness :
  exists table,
    parseGitBookYaml
      (snd (addRedirects Sample.parentLink "root/.gitbook.yaml"
              [("gone", "docs/here.md")]))
      "root/.gitbook.yaml" = Normal table
    /\ is_Some (fromToMap table !! "gone").
Proof.
  destruct (addRedirects_then_parse Sample.parentLink "root/.gitbook.yaml"
              (default "" (Sample.parentLink !! "root/.gitbook.yaml"))
              [("gone", "docs/here.md")]) as (_ & table & Hparse & Hall).
  - vm_compute. reflexivity.
  - discriminate.
  - repeat constructor.
  - exists table. split; [exact Hparse|].
    apply (Hall ("gone", "docs/here.md")). apply list_elem_of_singleton. reflexivity.
Defined.

(** X23 on a concrete input.
    The anchor of the only heading of the guide. *)
Lemma available_anchors_are_valid_witness :
  let cache : HeadingsCache :=
    {[ "guide.md" := parseMarkdownHeadings "guide.md" "# Installation" ]} in
  validateAnchor (H:=posix) Sample.guide cache "guide.md" "installation" "root"
  = (Normal {| anchor_valid := true; anchor_error := None; suggestions := None |},
     cache).
Proof.
  intros cache.
  apply (available_anchors_are_valid (H:=posix) Sample.guide ∅ "guide.md" "root"
           ["installation"]).
  - vm_compute. reflexivity.
  - apply list_elem_of_singleton. reflexivity.
Defined.

(** X24 on a concrete input.
    The eight entries of the sample summary, in their order. *)
Lemma flattenSummary_document_order_witness :
  exists s,
    parseSummary (H:=posix) Sample.summary "root/SUMMARY.md" = Normal s
    /\ flattenSummary s = Some [0; 1; 2; 3; 4; 5; 6; 7].
Proof.
  destruct (flattenSummary_document_order (H:=posix) Sample.summary "root/SUMMARY.md"
              (default "" (Sample.summary !! "root/SUMMARY.md")))
    as (s & walked & Hs & Hflat & Hwalked & _).
  - vm_compute. reflexivity.
  - exists s. split; [exact Hs|]. rewrite Hflat, Hwalked.
    vm_compute in Hs. injection Hs as <-. reflexivity.
Defined.

(** X25 on a concrete input.
    The sample summary, none of whose targets exists. *)
Lemma validateSummaryPaths_reports_missing_witness :
  exists s missing,
    parseSummary (H:=posix) Sample.summary "root/SUMMARY.md" = Normal s
    /\ validateSummaryPaths s (fun p => pathExists (H:=posix) Sample.summary p "root")
       = Some missing
    /\ StronglySorted lt missing.
Proof.
  destruct (validateSummaryPaths_reports_missing (H:=posix) Sample.summary
              "root/SUMMARY.md" (default "" (Sample.summary !! "root/SUMMARY.md"))
              "root") as (s & missing & Hs & Hmissing & Hsorted & _).
  - vm_compute. reflexivity.
  - exists s, missing. split; [exact Hs|]. split; [exact Hmissing|exact Hsorted].
Defined.
